(** * amazon-product-sandbox: the product analysis pipeline

    A shallow embedding of [pipeline.py] (filtering, ranking, the three
    acquisition stages and the run coordinator), of
    [RainforestHandler.get_product_data] and of the analysis text parser of
    [report_generator.py], with the properties of the specification stated
    over it; then of [regenerate_html.py], of the paginated search of
    [serp_handler.py], of the review lines of the prompt of
    [gemini_handler.py], of the folder name of a run and of the review pages
    of [rainforest_handler.py], with properties read off the code.

    Conventions.
    - A Python [str] is a [string]; the model is over ASCII text, so
      [str.isdigit] is the test for ['0'..'9'] and [str.strip] removes the
      ASCII white space characters.
    - A Python number (the [int] and [float] values read from JSON, and the
      result of [float(...)] on a decimal literal) is the rational it denotes:
      [Q] for ratings and prices, [Z] for review counts.  Comparisons are the
      exact ones.
    - A dictionary with a fixed set of keys is a record whose fields are
      options ([None] is Python's [None]); a dictionary that the code extends
      in place is a [gmap string _] held in a store of objects.
    - A function that can raise returns a [result]; a function that calls
      the providers, or changes the review records, is a step of a state and
      error monad over the state of the world, the heap of review records
      and the trace of the calls that leave the process.
    - [asyncio.gather] runs its tasks to their end in an order that the
      model leaves open (a list of completion times), one task at a time,
      and reads the results from the futures in the order of its
      arguments. *)

From Stdlib Require Import ZArith QArith Lia Lqa Ascii String Sorted Permutation.
From stdpp Require Import base option list gmap strings.

Local Open Scope string_scope.

(** ** Exceptions and results *)

Inductive exn : Type :=
| ValueError (msg : string)
| TypeError (msg : string)
| IndexError (msg : string)
| InvalidStateError (msg : string)
| ProviderError (msg : string).

Inductive result (A : Type) : Type :=
| Ok (a : A)
| Raise (e : exn).

Arguments Ok {A} a.
Arguments Raise {A} e.

Definition bind {A B} (m : result A) (k : A -> result B) : result B :=
  match m with
  | Ok a => k a
  | Raise e => Raise e
  end.

Notation "'do' x <- m ; k" := (bind m (fun x => k))
  (at level 10, x name, m at level 100, k at level 200).

Fixpoint traverse {A B} (f : A -> result B) (l : list A) : result (list B) :=
  match l with
  | [] => Ok []
  | a :: l' => do b <- f a; do bs <- traverse f l'; Ok (b :: bs)
  end.

(** ** Python string primitives *)

Module PyStr.

Definition isdigit (c : ascii) : bool :=
  let n := nat_of_ascii c in (48 <=? n)%nat && (n <=? 57)%nat.

Definition digit_value (c : ascii) : Z := Z.of_nat (nat_of_ascii c) - 48.

(** [''.join(c for c in s if keep c)] *)
Fixpoint keep_chars (keep : ascii -> bool) (s : string) : string :=
  match s with
  | EmptyString => EmptyString
  | String c s' => if keep c then String c (keep_chars keep s') else keep_chars keep s'
  end.

(** The digits of a literal made of digits and dots: numerator, power of ten
    of the fractional part, number of digits read; [None] at a second dot or
    at any other character. *)
Fixpoint decimal_digits (s : string) (dot : bool) (num : Z) (den : positive) (count : nat)
  : option (Z * positive * nat) :=
  match s with
  | EmptyString => Some (num, den, count)
  | String c s' =>
      if isdigit c then
        decimal_digits s' dot (10 * num + digit_value c)
                       (if dot then (10 * den)%positive else den) (S count)
      else if Ascii.eqb c "." then
        (if dot then None else decimal_digits s' true num den count)
      else None
  end.

(** [float(s)] for a string [s] of digits and dots, as [select_top_products]
    calls it: a literal with at least one digit and at most one dot is the
    number it denotes, anything else is a [ValueError]. *)
Definition float (s : string) : result Q :=
  match decimal_digits s false 0 1 0 with
  | Some (num, den, S _) => Ok (num # den)
  | _ => Raise (ValueError ("could not convert string to float: " ++ s))
  end.

(** *** Searching and cutting *)

Definition newline : ascii := ascii_of_nat 10.

(** [c.isspace()] on ASCII: tab to carriage return, the four separators
    28 to 31, and the space. *)
Definition isspace (c : ascii) : bool :=
  let n := nat_of_ascii c in
  ((9 <=? n)%nat && (n <=? 13)%nat) || ((28 <=? n)%nat && (n <=? 32)%nat).

(** [s.startswith(p)] *)
Definition startswith (p s : string) : bool := String.prefix p s.

(** [p in s] *)
Fixpoint contains (p s : string) : bool :=
  startswith p s ||
  match s with
  | EmptyString => false
  | String _ s' => contains p s'
  end.

(** [s.lstrip(chars)], with the set of characters as a test. *)
Fixpoint lstrip_chars (chars : ascii -> bool) (s : string) : string :=
  match s with
  | EmptyString => EmptyString
  | String c s' => if chars c then lstrip_chars chars s' else s
  end.

Fixpoint rstrip_chars (chars : ascii -> bool) (s : string) : string :=
  match s with
  | EmptyString => EmptyString
  | String c s' =>
      match rstrip_chars chars s' with
      | EmptyString => if chars c then EmptyString else String c EmptyString
      | r => String c r
      end
  end.

(** [s.strip()] *)
Definition strip (s : string) : string := rstrip_chars isspace (lstrip_chars isspace s).

(** [c in chars] for the argument of [lstrip]. *)
Fixpoint char_in (chars : string) (c : ascii) : bool :=
  match chars with
  | EmptyString => false
  | String d chars' => Ascii.eqb c d || char_in chars' c
  end.

(** [s.split(sep)] for a separator that is not empty: the text before the
    first occurrence of [sep], and the pieces after it.  [skip] counts the
    characters of an occurrence that are still to be passed over. *)
Fixpoint split_from (sep : string) (skip : nat) (s : string) : string * list string :=
  match s with
  | EmptyString => (EmptyString, [])
  | String c s' =>
      match skip with
      | S k => split_from sep k s'
      | O =>
          if startswith sep s then
            let '(piece, pieces) := split_from sep (String.length sep - 1) s' in
            (EmptyString, piece :: pieces)
          else
            let '(piece, pieces) := split_from sep 0 s' in
            (String c piece, pieces)
      end
  end.

Definition split (sep s : string) : list string :=
  let '(piece, pieces) := split_from sep 0 s in piece :: pieces.

(** [s.replace(old, new)] for [old] not empty. *)
Fixpoint replace_from (old new : string) (skip : nat) (s : string) : string :=
  match s with
  | EmptyString => EmptyString
  | String c s' =>
      match skip with
      | S k => replace_from old new k s'
      | O =>
          if startswith old s then new ++ replace_from old new (String.length old - 1) s'
          else String c (replace_from old new 0 s')
      end
  end.

Definition replace (old new s : string) : string := replace_from old new 0 s.

(** [s.lower()] on ASCII. *)
Definition lower_char (c : ascii) : ascii :=
  let n := nat_of_ascii c in
  if (65 <=? n)%nat && (n <=? 90)%nat then ascii_of_nat (n + 32) else c.

Fixpoint lower (s : string) : string :=
  match s with
  | EmptyString => EmptyString
  | String c s' => String (lower_char c) (lower s')
  end.

End PyStr.

(** ** Data model *)

(** The [price] of a search result: a free-form string or a number. *)
Inductive price_value : Type :=
| PriceStr (s : string)
| PriceNum (q : Q).

(** One raw search-result record.  A field is [None] when the key is absent
    or null: [product.get(k)] does not tell the two apart, and
    [product.get("reviews", 0)] gives [0] or [None], both false. *)
Record Candidate : Type := mkCandidate {
  c_asin : option string;
  c_title : option string;
  c_link : option string;
  c_link_clean : option string;
  c_thumbnail : option string;
  c_rating : option Q;
  c_reviews : option Z;
  c_price : option price_value;
  c_position : option Z  (* a provider field that the projection drops *)
}.

(** The dictionary built at [filtered_product = {...}]: the eight keys are
    always present, [None] is the value [None]. *)
Record ShortlistEntry : Type := mkEntry {
  asin : option string;
  title : option string;
  link : option string;
  link_clean : option string;
  thumbnail : option string;
  rating : option Q;
  reviews : option Z;
  price : option price_value
}.

(** [config['client_filters']]: [min_rating] and [min_reviews], [None] when
    unset. *)
Record ClientFilters : Type := mkFilters {
  min_rating : option Q;
  min_reviews : option Z
}.

(** ** Filter/Rank engine *)

Module Rank.

(** [rating and rating >= min_rating]: a rating that is [None] or zero is
    false. *)
Definition passes_rating (f : ClientFilters) (product : Candidate) : bool :=
  match min_rating f with
  | None => true
  | Some m =>
      match c_rating product with
      | None => false
      | Some r => negb (Qeq_bool r 0) && Qle_bool m r
      end
  end.

Definition passes_reviews (f : ClientFilters) (product : Candidate) : bool :=
  match min_reviews f with
  | None => true
  | Some m =>
      match c_reviews product with
      | None => false
      | Some n => negb (n =? 0)%Z && (m <=? n)%Z
      end
  end.

Definition passes (f : ClientFilters) (product : Candidate) : bool :=
  passes_rating f product && passes_reviews f product.

Definition project (product : Candidate) : ShortlistEntry :=
  {| asin := c_asin product;
     title := c_title product;
     link := c_link product;
     link_clean := c_link_clean product;
     thumbnail := c_thumbnail product;
     rating := c_rating product;
     reviews := c_reviews product;
     price := c_price product |}.

(** The loop [for product in raw_results] of [run], with [seen_asins]. *)
Fixpoint filter_loop (f : ClientFilters) (seen_asins : gset (option string))
  (raw_results : list Candidate) : list ShortlistEntry :=
  match raw_results with
  | [] => []
  | product :: rest =>
      if decide (c_asin product ∈ seen_asins) then filter_loop f seen_asins rest
      else if passes f product then
        project product :: filter_loop f ({[c_asin product]} ∪ seen_asins) rest
      else filter_loop f seen_asins rest
  end.

Definition filter_products (f : ClientFilters) (raw_results : list Candidate)
  : list ShortlistEntry :=
  filter_loop f ∅ raw_results.

(** *** Ranking *)

Definition sentinel : Q := 999999.

(** [(-rating, -reviews, price)] *)
Definition key : Type := Q * Z * Q.

(** [''.join(c for c in price if c.isdigit() or c == '.')] *)
Definition strip_price (price : string) : string :=
  PyStr.keep_chars (fun c => PyStr.isdigit c || Ascii.eqb c ".") price.

(** [sort_key].  The keys of a shortlist entry are present, so the defaults
    of [p.get] are not used: a rating or review count that is [None] becomes
    0 through [or 0], a price that is [None] the sentinel. *)
Definition sort_key (p : ShortlistEntry) : result key :=
  let rating := default 0%Q (rating p) in
  let reviews := default 0%Z (reviews p) in
  do price <-
    match price p with
    | Some (PriceStr s) =>
        let price_clean := strip_price s in
        if String.eqb price_clean "" then Ok sentinel else PyStr.float price_clean
    | None => Ok sentinel
    | Some (PriceNum q) => Ok q
    end;
  Ok ((- rating)%Q, (- reviews)%Z, price).

(** Python's [<] on the key tuples: the first component that differs
    decides. *)
Definition key_lt (a b : key) : bool :=
  let '(a1, a2, a3) := a in
  let '(b1, b2, b3) := b in
  match (a1 ?= b1)%Q with
  | Lt => true
  | Gt => false
  | Eq =>
      match (a2 ?= b2)%Z with
      | Lt => true
      | Gt => false
      | Eq => match (a3 ?= b3)%Q with Lt => true | _ => false end
      end
  end.

Definition key_eq (a b : key) : bool := negb (key_lt a b) && negb (key_lt b a).

(** [sorted(products, key=sort_key)] compares the computed keys only and is
    stable.  It is modelled by the stable insertion sort: [x], which stood
    before every element of [l], goes in front of the first element that is
    not smaller than it.  Every stable sort returns the same list
    ([RankFacts.stable_sort_unique]). *)
Fixpoint insert_keyed {A} (x : key * A) (l : list (key * A)) : list (key * A) :=
  match l with
  | [] => [x]
  | y :: l' => if key_lt (fst y) (fst x) then y :: insert_keyed x l' else x :: y :: l'
  end.

Definition sort_keyed {A} (l : list (key * A)) : list (key * A) :=
  foldr insert_keyed [] l.

Definition decorate (p : ShortlistEntry) : result (key * ShortlistEntry) :=
  do k <- sort_key p; Ok (k, p).

(** The line logged for a selected product evaluates [product['title'][:50]],
    which raises on a title that is [None]. *)
Definition log_selected (p : ShortlistEntry) : result string :=
  match title p with
  | Some t => Ok (String.substring 0 50 t)
  | None => Raise (TypeError "'NoneType' object is not subscriptable")
  end.

(** [limit] is a number of products ([run] passes 10), so
    [sorted_products[:limit]] is the first [limit] elements. *)
Definition select_top_products (products : list ShortlistEntry) (limit : nat)
  : result (list ShortlistEntry) :=
  do keyed <- traverse decorate products;
  let sorted_products := (sort_keyed keyed).*2 in
  let top_products := take limit sorted_products in
  do _ <- traverse log_selected top_products;
  Ok top_products.

(** Step 3 of [run]: filter, stop when nothing passed ([None]), else select
    the top 10. *)
Definition shortlist (f : ClientFilters) (raw_results : list Candidate)
  : result (option (list ShortlistEntry)) :=
  let filtered_products := filter_products f raw_results in
  match filtered_products with
  | [] => Ok None
  | _ => do top_products <- select_top_products filtered_products 10; Ok (Some top_products)
  end.

(** *** The ranking order in the words of the specification *)

Definition rating_or_0 (p : ShortlistEntry) : Q := default 0%Q (rating p).
Definition reviews_or_0 (p : ShortlistEntry) : Z := default 0%Z (reviews p).

(** [p] may stand before [q]: both keys are computed, and [p] has the higher
    rating, or the same rating and more reviews, or the same rating and
    reviews and a price that is not higher. *)
Definition ranks_before (p q : ShortlistEntry) : Prop :=
  ∃ pp pq : Q,
    sort_key p = Ok ((- rating_or_0 p)%Q, (- reviews_or_0 p)%Z, pp)
    ∧ sort_key q = Ok ((- rating_or_0 q)%Q, (- reviews_or_0 q)%Z, pq)
    ∧ ((rating_or_0 q < rating_or_0 p)%Q
       ∨ (rating_or_0 p == rating_or_0 q
          ∧ ((reviews_or_0 q < reviews_or_0 p)%Z
             ∨ (reviews_or_0 p = reviews_or_0 q ∧ (pp <= pq)%Q)))).

(** The entries whose key ties with [k] on all three components. *)
Definition same_key (k : key) (p : ShortlistEntry) : bool :=
  match sort_key p with
  | Ok k' => key_eq k' k
  | Raise _ => false
  end.

End Rank.

(** ** Facts about the ranking order and the sort *)

Module RankFacts.
Import Rank.

(** The order on keys is a strict weak order. *)

Ltac key_cases :=
  repeat match goal with
  | |- context [(?x ?= ?y)%Q] => destruct (Qcompare_spec x y)
  | H : context [(?x ?= ?y)%Q] |- _ => destruct (Qcompare_spec x y)
  | |- context [(?x ?= ?y)%Z] => destruct (Z.compare_spec x y)
  | H : context [(?x ?= ?y)%Z] |- _ => destruct (Z.compare_spec x y)
  end.

Ltac key_order :=
  repeat match goal with k : key |- _ => destruct k as [[? ?] ?] end;
  simpl; key_cases; intros; try reflexivity; try discriminate; try lra; try lia.

Lemma key_lt_irrefl a : key_lt a a = false.
Proof. key_order. Qed.

Lemma key_lt_asym a b : key_lt a b = true -> key_lt b a = false.
Proof. key_order. Qed.

Lemma key_le_trans a b c :
  key_lt b a = false -> key_lt c b = false -> key_lt c a = false.
Proof. key_order. Qed.

Lemma key_lt_le_trans a b c :
  key_lt a b = true -> key_lt c b = false -> key_lt a c = true.
Proof. key_order. Qed.

Lemma key_lt_eq_l a b k : key_lt a b = true -> key_eq b k = true -> key_eq a k = false.
Proof.
  unfold key_eq. intros Hab [_ Hkb%negb_true_iff]%andb_true_iff.
  by rewrite (key_lt_le_trans _ _ _ Hab Hkb).
Qed.

Section Sorting.
Context {A : Type}.
Implicit Types (x y : key * A) (l : list (key * A)).

Definition keyed_le x y : Prop := key_lt y.1 x.1 = false.

Lemma insert_keyed_perm x l : insert_keyed x l ≡ₚ x :: l.
Proof.
  induction l as [|y l IH]; simpl; [done|].
  destruct (key_lt y.1 x.1); [|done].
  rewrite IH. apply Permutation_swap.
Qed.

Lemma sort_keyed_perm l : sort_keyed l ≡ₚ l.
Proof.
  induction l as [|x l IH]; simpl; [done|].
  unfold sort_keyed in *; simpl. rewrite insert_keyed_perm. by rewrite IH.
Qed.

Lemma insert_keyed_sorted x l :
  StronglySorted keyed_le l -> StronglySorted keyed_le (insert_keyed x l).
Proof.
  induction 1 as [|y l Hs IH Hy]; simpl.
  - repeat constructor.
  - destruct (key_lt y.1 x.1) eqn:Hlt.
    + constructor; [done|].
      rewrite insert_keyed_perm. constructor; [|done].
      by apply key_lt_asym.
    + constructor; [by constructor|].
      constructor; [done|].
      eapply Forall_impl; [exact Hy|].
      intros z Hz. unfold keyed_le in *. by eapply key_le_trans.
Qed.

Lemma sort_keyed_sorted l : StronglySorted keyed_le (sort_keyed l).
Proof.
  induction l as [|x l IH]; [constructor|].
  by apply insert_keyed_sorted.
Qed.

Lemma sort_keyed_id l : StronglySorted keyed_le l -> sort_keyed l = l.
Proof.
  induction 1 as [|x l Hs IH Hx]; [done|].
  unfold sort_keyed in *; simpl. rewrite IH.
  destruct Hx as [|y l Hxy _]; [done|]. simpl.
  unfold keyed_le in Hxy. by rewrite Hxy.
Qed.

Lemma insert_keyed_filter k x l :
  filter (λ y, key_eq y.1 k) (insert_keyed x l) = filter (λ y, key_eq y.1 k) (x :: l).
Proof.
  induction l as [|y l IH]; simpl; [done|].
  destruct (key_lt y.1 x.1) eqn:Hlt; [|done].
  rewrite (filter_cons _ y), IH, !(filter_cons _ x), (filter_cons _ y).
  destruct (decide (key_eq x.1 k)) as [Hx|Hx]; [|done].
  destruct (decide (key_eq y.1 k)) as [Hy|Hy]; [|done].
  apply Is_true_true in Hx, Hy.
  by rewrite (key_lt_eq_l _ _ _ Hlt Hx) in Hy.
Qed.

Lemma sort_keyed_stable k l :
  filter (λ y, key_eq y.1 k) (sort_keyed l) = filter (λ y, key_eq y.1 k) l.
Proof.
  induction l as [|x l IH]; [done|].
  unfold sort_keyed in *; simpl.
  by rewrite insert_keyed_filter, !filter_cons, IH.
Qed.

Lemma key_eq_refl k : key_eq k k = true.
Proof. unfold key_eq. by rewrite key_lt_irrefl. Qed.

Lemma key_eq_sym a b : key_eq a b = key_eq b a.
Proof. unfold key_eq. apply andb_comm. Qed.

(** A stable sort is determined by its specification: two lists that are
    sorted by key and list the elements of every key in the same order are
    equal.  So [sort_keyed] is the result of any stable sort, and of
    [sorted]. *)
Lemma stable_sort_unique s1 s2 :
  StronglySorted keyed_le s1 -> StronglySorted keyed_le s2 ->
  (∀ k, filter (λ y, key_eq y.1 k) s1 = filter (λ y, key_eq y.1 k) s2) ->
  s1 = s2.
Proof.
  intros Hs1. revert s2. induction Hs1 as [|x t1 Hs1 IH Hx]; intros s2 Hs2 Hf.
  - destruct s2 as [|y t2]; [done|].
    specialize (Hf y.1). rewrite filter_cons in Hf.
    rewrite decide_True in Hf by apply Is_true_true_2, key_eq_refl. done.
  - destruct Hs2 as [|y t2 Hs2 Hy].
    { specialize (Hf x.1). rewrite filter_cons in Hf.
      rewrite decide_True in Hf by apply Is_true_true_2, key_eq_refl. done. }
    assert (Hxy : key_eq y.1 x.1 = true).
    { destruct (key_eq y.1 x.1) eqn:E; [done|exfalso].
      pose proof (Hf x.1) as Hfx. pose proof (Hf y.1) as Hfy.
      rewrite !filter_cons in Hfx, Hfy.
      rewrite (decide_True (P := Is_true (key_eq x.1 x.1))) in Hfx
        by apply Is_true_true_2, key_eq_refl.
      rewrite (decide_False (P := Is_true (key_eq y.1 x.1))) in Hfx by apply Is_true_false_2, E.
      rewrite (decide_True (P := Is_true (key_eq y.1 y.1))) in Hfy
        by apply Is_true_true_2, key_eq_refl.
      rewrite (decide_False (P := Is_true (key_eq x.1 y.1))) in Hfy
        by (apply Is_true_false_2; by rewrite key_eq_sym).
      assert (Hx2 : x ∈ t2).
      { eapply (list_elem_of_filter (λ y, key_eq y.1 x.1)). rewrite <- Hfx. left. }
      assert (Hy1 : y ∈ t1).
      { eapply (list_elem_of_filter (λ z, key_eq z.1 y.1)). rewrite Hfy. left. }
      eapply Forall_forall in Hx; [|exact Hy1].
      eapply Forall_forall in Hy; [|exact Hx2].
      unfold keyed_le in Hx, Hy. unfold key_eq in E. by rewrite Hx, Hy in E. }
    assert (x = y) as <-.
    { specialize (Hf x.1). rewrite !filter_cons in Hf.
      rewrite (decide_True (P := Is_true (key_eq x.1 x.1))) in Hf
        by apply Is_true_true_2, key_eq_refl.
      rewrite (decide_True (P := Is_true (key_eq y.1 x.1))) in Hf by apply Is_true_true_2, Hxy.
      by injection Hf. }
    f_equal. apply IH; [done|]. intros k. specialize (Hf k).
    rewrite !filter_cons in Hf. destruct (decide (key_eq x.1 k)); [|done].
    by injection Hf.
Qed.

End Sorting.

(** *** From keyed pairs to shortlist entries *)

Definition consistent (keyed : list (key * ShortlistEntry)) : Prop :=
  Forall (λ y, sort_key y.2 = Ok y.1) keyed.

Lemma traverse_decorate ps keyed :
  traverse decorate ps = Ok keyed -> keyed.*2 = ps ∧ consistent keyed.
Proof.
  revert keyed. induction ps as [|p ps IH]; simpl; intros keyed H.
  - inversion H. by split; [|constructor].
  - unfold decorate at 1 in H. destruct (sort_key p) as [k|] eqn:Hk; [simpl in H|done].
    destruct (traverse decorate ps) as [keyed'|]; [simpl in H|done].
    inversion H; subst. destruct (IH _ eq_refl) as [<- Hc].
    split; [done|]. by constructor.
Qed.

Lemma decorate_consistent keyed :
  consistent keyed -> traverse decorate keyed.*2 = Ok keyed.
Proof.
  induction 1 as [|[k p] keyed Hk _ IH]; [done|].
  rewrite fmap_cons. simpl in *.
  unfold decorate at 1. rewrite Hk. simpl. by rewrite IH.
Qed.

Lemma traverse_decorate_total ps :
  Forall (λ p, ∃ k, sort_key p = Ok k) ps -> ∃ keyed, traverse decorate ps = Ok keyed.
Proof.
  induction 1 as [|p ps [k Hk] _ [keyed IH]]; simpl; [by eexists|].
  unfold decorate at 1. rewrite Hk; simpl. rewrite IH; simpl. by eexists.
Qed.

Lemma traverse_log_selected l :
  Forall (λ p, is_Some (title p)) l <-> ∃ lines, traverse log_selected l = Ok lines.
Proof.
  induction l as [|p l IH]; simpl.
  - split; [by eexists|constructor].
  - unfold log_selected at 1. split.
    + intros [[t ->] [lines Hl]%IH]%Forall_cons. simpl. rewrite Hl. by eexists.
    + intros [lines H]. destruct (title p) eqn:Ht; [simpl in H|done].
      destruct (traverse log_selected l) eqn:Hl; [|done].
      constructor; [by rewrite Ht|]. apply IH. by eexists.
Qed.

(** The structure of a successful call. *)
Lemma select_top_products_Ok products limit top :
  select_top_products products limit = Ok top <->
  ∃ keyed, traverse decorate products = Ok keyed
    ∧ top = take limit (sort_keyed keyed).*2
    ∧ Forall (λ p, is_Some (title p)) top.
Proof.
  unfold select_top_products. split.
  - intros H. destruct (traverse decorate products) as [keyed|]; [simpl in H|done].
    exists keyed. split; [done|].
    destruct (traverse log_selected _) eqn:Hl; [simpl in H|done].
    inversion H; subst. split; [done|]. apply traverse_log_selected. by eexists.
  - intros (keyed & -> & -> & [lines Hl]%traverse_log_selected). simpl.
    by rewrite Hl.
Qed.

Lemma consistent_perm keyed keyed' : keyed ≡ₚ keyed' -> consistent keyed -> consistent keyed'.
Proof. intros Hp. unfold consistent. by rewrite Hp. Qed.

Lemma consistent_take n keyed : consistent keyed -> consistent (take n keyed).
Proof. apply Forall_take. Qed.

Lemma StronglySorted_take {A} (R : relation A) n l :
  StronglySorted R l -> StronglySorted R (take n l).
Proof.
  intros Hs. revert n. induction Hs as [|x l Hs IH Hx]; intros [|n]; simpl; try constructor.
  - apply IH.
  - by apply Forall_take.
Qed.

Lemma sort_key_shape p k :
  sort_key p = Ok k -> ∃ pp, k = ((- rating_or_0 p)%Q, (- reviews_or_0 p)%Z, pp).
Proof.
  unfold sort_key. intros H.
  match type of H with bind ?m _ = _ => destruct m as [pp|]; [simpl in H|done] end.
  inversion H. by exists pp.
Qed.

Lemma keyed_le_ranks_before y z :
  sort_key y.2 = Ok y.1 -> sort_key z.2 = Ok z.1 -> keyed_le y z -> ranks_before y.2 z.2.
Proof.
  destruct y as [ky p], z as [kz q]; simpl. unfold keyed_le; simpl.
  intros Hp Hq Hle.
  destruct (sort_key_shape _ _ Hp) as [pp ->], (sort_key_shape _ _ Hq) as [pq ->].
  exists pp, pq. split; [done|]. split; [done|].
  revert Hle. generalize (rating_or_0 p) (rating_or_0 q) (reviews_or_0 p) (reviews_or_0 q).
  intros rp rq np nq. simpl.
  key_cases; intros; try discriminate; first [left; lra | right; split; [lra|]; first [left; lia | right; split; [lia|lra]]].
Qed.

Lemma sorted_entries keyed :
  consistent keyed -> StronglySorted keyed_le keyed -> StronglySorted ranks_before keyed.*2.
Proof.
  intros Hc Hs. induction Hs as [|y l Hs IH Hy]; simpl; [constructor|].
  apply Forall_cons in Hc as [Hy' Hc].
  constructor; [by apply IH|].
  apply Forall_fmap, Forall_forall. intros z Hz. simpl.
  apply keyed_le_ranks_before; [done| |].
  - by eapply Forall_forall in Hc.
  - by eapply Forall_forall in Hy.
Qed.

Lemma filter_same_key k keyed :
  consistent keyed ->
  (filter (λ y, key_eq y.1 k) keyed).*2 = filter (λ p, same_key k p) keyed.*2.
Proof.
  induction 1 as [|[k' p] keyed Hk _ IH]; [done|]. simpl in Hk.
  assert (Hs : same_key k p = key_eq k' k) by (unfold same_key; by rewrite Hk).
  rewrite fmap_cons, !filter_cons; simpl.
  destruct (decide (key_eq k' k)) as [H1|H1], (decide (same_key k p)) as [H2|H2];
    rewrite ?fmap_cons, ?IH; simpl; try done; rewrite Hs in H2; done.
Qed.


Lemma select_top_products_ranked_take products limit top :
  select_top_products products limit = Ok top ->
  ∃ keyed, traverse decorate products = Ok keyed
    ∧ consistent (sort_keyed keyed)
    ∧ top = (take limit (sort_keyed keyed)).*2
    ∧ (sort_keyed keyed).*2 ≡ₚ products.
Proof.
  intros (keyed & Hk & -> & _)%select_top_products_Ok.
  destruct (traverse_decorate _ _ Hk) as [Hps Hc].
  exists keyed. split; [done|]. split; [|split].
  - eapply consistent_perm; [|exact Hc]. symmetry. apply sort_keyed_perm.
  - by rewrite fmap_take.
  - by rewrite sort_keyed_perm, Hps.
Qed.

Lemma StronglySorted_lookup_lt {A} (R : relation A) l i j x y :
  StronglySorted R l -> l !! i = Some x -> l !! j = Some y -> (i < j)%nat -> R x y.
Proof.
  intros Hs. revert i j. induction Hs as [|z l Hs IH Hz]; intros i j Hi Hj Hlt; [done|].
  destruct j as [|j]; [lia|]. destruct i as [|i]; simpl in *.
  - inversion Hi; subst. eapply Forall_forall in Hz; [done|]. by eapply list_elem_of_lookup_2.
  - eapply IH; [done..|lia].
Qed.

(** *** Filtering and deduplication *)

Lemma filter_loop_elem f seen raw e :
  e ∈ filter_loop f seen raw <->
  ∃ i c, raw !! i = Some c ∧ e = project c ∧ passes f c = true ∧ (c_asin c ∉ seen)
    ∧ (∀ j c', (j < i)%nat -> raw !! j = Some c' -> c_asin c' = c_asin c ->
         passes f c' = false).
Proof.
  revert seen. induction raw as [|product rest IH]; intros seen; simpl.
  - split; [by intros ?%elem_of_nil|by intros (i & c & ? & _)].
  - assert (Hrest : ∀ seen',
      (c_asin product ∈ seen' ∨ passes f product = false) ->
      e ∈ filter_loop f seen' rest <->
      ∃ i c, (product :: rest) !! i = Some c ∧ e = project c ∧ passes f c = true
        ∧ (c_asin c ∉ seen')
        ∧ (∀ j c', (j < i)%nat -> (product :: rest) !! j = Some c' ->
            c_asin c' = c_asin c -> passes f c' = false)).
    { intros seen' Hskip. rewrite IH. split.
      - intros (i & c & Hi & He & Hp & Hs & Hfirst).
        exists (S i), c. repeat split; try done.
        intros [|j] c' Hj Hc Heq; simpl in *.
        + inversion Hc; subst. destruct Hskip as [Hin|Hnp]; [|done].
          by rewrite Heq in Hin.
        + eapply Hfirst; [|done..]. lia.
      - intros ([|i] & c & Hi & He & Hp & Hs & Hfirst); simpl in *.
        + inversion Hi; subst. destruct Hskip as [Hin|Hnp]; [done|congruence].
        + exists i, c. repeat split; try done.
          intros j c' Hj Hc Heq. apply (Hfirst (S j)); [lia|done..]. }
    destruct (decide (c_asin product ∈ seen)) as [Hin|Hnin]; [apply Hrest; by left|].
    destruct (passes f product) eqn:Hp; [|apply Hrest; by right].
    rewrite elem_of_cons, IH. split.
    + intros [->|(i & c & Hi & He & Hpc & Hs & Hfirst)].
      * exists 0%nat, product. repeat split; try done. intros; lia.
      * apply not_elem_of_union in Hs as [Hne%not_elem_of_singleton Hs].
        exists (S i), c. repeat split; try done.
        intros [|j] c' Hj Hc Heq; simpl in *.
        -- by inversion Hc; subst.
        -- eapply Hfirst; [|done..]. lia.
    + intros ([|i] & c & Hi & He & Hpc & Hs & Hfirst); simpl in *.
      * inversion Hi; subst. by left.
      * right. exists i, c. repeat split; try done.
        -- apply not_elem_of_union. split; [|done].
           apply not_elem_of_singleton. intros Heq.
           specialize (Hfirst 0%nat product). simpl in Hfirst.
           rewrite Hfirst in Hp; [done|lia|done..].
        -- intros j c' Hj Hc Heq. apply (Hfirst (S j)); [lia|done..].
Qed.

Lemma filter_loop_NoDup f seen raw : NoDup (asin <$> filter_loop f seen raw).
Proof.
  revert seen. induction raw as [|product rest IH]; intros seen; simpl; [constructor|].
  destruct (decide _); [done|]. destruct (passes f product); [|done].
  rewrite fmap_cons. apply NoDup_cons. split; [|done].
  intros (e & He & (i & c & _ & -> & _ & Hs & _)%filter_loop_elem)%list_elem_of_fmap.
  simpl in *. apply Hs, elem_of_union. left. by apply elem_of_singleton.
Qed.


(** *** Worked inputs *)

Definition entry (a : string) (r : option Q) (n : option Z) (p : option price_value)
  : ShortlistEntry :=
  {| asin := Some a; title := Some ("Product " ++ a); link := None; link_clean := None;
     thumbnail := None; rating := r; reviews := n; price := p |}.

Definition candidate (a : string) (r : option Q) (n : option Z) (p : option price_value)
  : Candidate :=
  {| c_asin := Some a; c_title := Some ("Product " ++ a); c_link := None;
     c_link_clean := None; c_thumbnail := None; c_rating := r; c_reviews := n;
     c_price := p; c_position := None |}.

Definition no_filters : ClientFilters := {| min_rating := None; min_reviews := None |}.

(** The scenario of the specification: the second [A] is dropped, [B] goes
    first on its lower price. *)
Example scenario_duplicate_and_price :
  shortlist no_filters
    [candidate "A" (Some 4.5%Q) (Some 200%Z) (Some (PriceStr "$20.00"));
     candidate "B" (Some 4.5%Q) (Some 200%Z) (Some (PriceStr "$15.00"));
     candidate "A" (Some 1%Q) (Some 1%Z) (Some (PriceStr "$1"))]
  = Ok (Some [entry "B" (Some 4.5%Q) (Some 200%Z) (Some (PriceStr "$15.00"));
              entry "A" (Some 4.5%Q) (Some 200%Z) (Some (PriceStr "$20.00"))]).
Proof. vm_compute. reflexivity. Qed.

(** *** The filter (C2) *)

(** The filter predicate in the words of the claim. *)
Definition spec_passes (f : ClientFilters) (c : Candidate) : Prop :=
  (min_rating f = None
   ∨ ∃ m r, min_rating f = Some m ∧ c_rating c = Some r ∧ (m <= r)%Q)
  ∧ (min_reviews f = None
     ∨ ∃ m n, min_reviews f = Some m ∧ c_reviews c = Some n ∧ (m <= n)%Z).

(** C2, counterexample: with [min_reviews] set to 0, a candidate whose review
    count is present and equal to 0 meets the threshold in the words of the
    claim, and the filter drops it. *)
Lemma passes_zero_reviews_counterexample :
  let f := {| min_rating := None; min_reviews := Some 0%Z |} in
  let c := candidate "A" (Some 4.5%Q) (Some 0%Z) (Some (PriceStr "$20.00")) in
  spec_passes f c ∧ passes f c = false ∧ filter_products f [c] = [].
Proof.
  split; [|split; reflexivity].
  split; [by left|]. right. exists 0%Z, 0%Z. by repeat split.
Qed.

Lemma passes_rating_iff (f : ClientFilters) (c : Candidate) :
  passes_rating f c = true <->
  min_rating f = None
  ∨ ∃ m r, min_rating f = Some m ∧ c_rating c = Some r ∧ ¬ (r == 0)%Q ∧ (m <= r)%Q.
Proof.
  unfold passes_rating.
  destruct (min_rating f) as [m|]; [|by split; [left|]].
  destruct (c_rating c) as [r|].
  - rewrite andb_true_iff, negb_true_iff, Qle_bool_iff. split.
    + intros [Hz Hle]. right. exists m, r. repeat split; try done.
      intros Heq%Qeq_bool_iff. congruence.
    + intros [?|(m' & r' & [= <-] & [= <-] & Hz & Hle)]; [done|]. split; [|done].
      destruct (Qeq_bool r 0) eqn:E; [|done]. by apply Qeq_bool_iff in E.
  - split; [done|]. by intros [?|(? & ? & _ & ? & _)].
Qed.

Lemma passes_reviews_iff (f : ClientFilters) (c : Candidate) :
  passes_reviews f c = true <->
  min_reviews f = None
  ∨ ∃ m n, min_reviews f = Some m ∧ c_reviews c = Some n ∧ n ≠ 0%Z ∧ (m <= n)%Z.
Proof.
  unfold passes_reviews.
  destruct (min_reviews f) as [m|]; [|by split; [left|]].
  destruct (c_reviews c) as [n|].
  - rewrite andb_true_iff, negb_true_iff, Z.eqb_neq, Z.leb_le. split.
    + intros [Hz Hle]. right. by exists m, n.
    + by intros [?|(m' & n' & [= <-] & [= <-] & Hz & Hle)].
  - split; [done|]. by intros [?|(? & ? & _ & ? & _)].
Qed.

(** C2, amended: the filter keeps a candidate exactly when (the minimum
    rating is unset, or the rating is present, not zero and at least the
    minimum) and (the minimum review count is unset, or the review count is
    present, not zero and at least the minimum). *)
Theorem passes_iff (f : ClientFilters) (c : Candidate) :
  passes f c = true <->
  (min_rating f = None
   ∨ ∃ m r, min_rating f = Some m ∧ c_rating c = Some r ∧ ¬ (r == 0)%Q ∧ (m <= r)%Q)
  ∧ (min_reviews f = None
     ∨ ∃ m n, min_reviews f = Some m ∧ c_reviews c = Some n ∧ n ≠ 0%Z ∧ (m <= n)%Z).
Proof.
  unfold passes. by rewrite andb_true_iff, passes_rating_iff, passes_reviews_iff.
Qed.

(** A candidate whose identifier was not admitted before is appended exactly
    when it passes. *)
Lemma filter_loop_step f seen c rest :
  c_asin c ∉ seen ->
  filter_loop f seen (c :: rest) =
  if passes f c then project c :: filter_loop f ({[c_asin c]} ∪ seen) rest
  else filter_loop f seen rest.
Proof. intros Hs. simpl. by destruct (decide _). Qed.

(** *** Totality (C3) *)

(** C3, failing inputs: a price that mentions a unit price cleans to
    [19.991.99], on which [float] raises; a record without title passes the
    sort and raises where the selected products are logged.  In both cases
    [select_top_products] raises instead of returning. *)
Theorem select_top_products_raises :
  select_top_products
    [entry "A" (Some 4.5%Q) (Some 200%Z) (Some (PriceStr "$19.99 ($1.99/Count)"))] 10
  = Raise (ValueError "could not convert string to float: 19.991.99")
  ∧ select_top_products
      [{| asin := Some "A"; title := None; link := None; link_clean := None;
          thumbnail := None; rating := Some 4.5%Q; reviews := Some 200%Z;
          price := Some (PriceStr "$20.00") |}] 10
    = Raise (TypeError "'NoneType' object is not subscriptable").
Proof. split; vm_compute; reflexivity. Qed.

(** Where the keys can be computed and the titles are present, the call
    returns. *)
Lemma select_top_products_returns products limit :
  Forall (λ p, ∃ k, sort_key p = Ok k) products ->
  Forall (λ p, is_Some (title p)) products ->
  ∃ keyed, traverse decorate products = Ok keyed
    ∧ select_top_products products limit = Ok (take limit (sort_keyed keyed).*2).
Proof.
  intros [keyed Hk]%traverse_decorate_total Ht. exists keyed. split; [done|].
  apply select_top_products_Ok. exists keyed. repeat split; try done.
  apply Forall_take. destruct (traverse_decorate _ _ Hk) as [<- _] in Ht.
  by rewrite sort_keyed_perm.
Qed.

(** *** Uniqueness and size of the shortlist (C4) *)

(** The claim's reading: every kept entry is the projection of the first
    occurrence of its identifier in the input. *)
Definition kept_from_first_occurrence (raw : list Candidate) (top : list ShortlistEntry)
  : Prop :=
  ∀ e, e ∈ top ->
    ∃ i c, raw !! i = Some c ∧ e = project c
      ∧ (∀ j c', (j < i)%nat -> raw !! j = Some c' -> c_asin c' ≠ c_asin c).

(** C4, counterexample: with a minimum rating of 4, the first occurrence of
    [A] (rating 3) fails the filter and leaves the identifier unseen; the
    second occurrence (rating 5) is the one kept. *)
Lemma first_occurrence_counterexample :
  let f := {| min_rating := Some 4%Q; min_reviews := None |} in
  let raw := [candidate "A" (Some 3%Q) (Some 10%Z) (Some (PriceStr "$20.00"));
              candidate "A" (Some 5%Q) (Some 10%Z) (Some (PriceStr "$30.00"))] in
  let top := [entry "A" (Some 5%Q) (Some 10%Z) (Some (PriceStr "$30.00"))] in
  shortlist f raw = Ok (Some top) ∧ ¬ kept_from_first_occurrence raw top.
Proof.
  split; [vm_compute; reflexivity|].
  intros H. destruct (H _ (list_elem_of_here _ _)) as (i & c & Hi & He & Hfirst).
  destruct i as [|[|i]]; simpl in Hi; [| |done].
  - by inversion Hi; subst.
  - inversion Hi; subst. by eapply (Hfirst 0%nat); [lia|..].
Qed.

(** C4, amended: the selected products carry pairwise distinct identifiers,
    there are at most [limit] of them, and each is the projection of the
    first occurrence of its identifier that passes the filter (an identifier
    is marked as seen only when an occurrence is kept). *)
Theorem shortlist_unique_first_passing f raw limit top :
  select_top_products (filter_products f raw) limit = Ok top ->
  NoDup (asin <$> top)
  ∧ (length top ≤ limit)%nat
  ∧ ∀ e, e ∈ top ->
      ∃ i c, raw !! i = Some c ∧ e = project c ∧ passes f c = true
        ∧ (∀ j c', (j < i)%nat -> raw !! j = Some c' -> c_asin c' = c_asin c ->
             passes f c' = false).
Proof.
  intros (keyed & _ & _ & -> & Hperm)%select_top_products_ranked_take.
  rewrite fmap_take. split; [|split].
  - rewrite fmap_take. eapply sublist_NoDup; [|apply sublist_take].
    rewrite Hperm. apply filter_loop_NoDup.
  - rewrite length_take. lia.
  - intros e He%elem_of_take. destruct He as (n & He%list_elem_of_lookup_2 & _).
    rewrite Hperm in He. apply filter_loop_elem in He as (i & c & ? & ? & ? & _ & ?).
    by exists i, c.
Qed.

Lemma shortlist_unique_first_passing_witness :
  let f := {| min_rating := Some 4%Q; min_reviews := None |} in
  let raw := [candidate "A" (Some 3%Q) (Some 10%Z) (Some (PriceStr "$20.00"));
              candidate "A" (Some 5%Q) (Some 10%Z) (Some (PriceStr "$30.00"))] in
  let top := [entry "A" (Some 5%Q) (Some 10%Z) (Some (PriceStr "$30.00"))] in
  select_top_products (filter_products f raw) 10 = Ok top
  ∧ NoDup (asin <$> top)
  ∧ (length top ≤ 10)%nat
  ∧ ∀ e, e ∈ top ->
      ∃ i c, raw !! i = Some c ∧ e = project c ∧ passes f c = true
        ∧ (∀ j c', (j < i)%nat -> raw !! j = Some c' -> c_asin c' = c_asin c ->
             passes f c' = false).
Proof.
  intros f raw top.
  split; [vm_compute; reflexivity|].
  apply (shortlist_unique_first_passing f raw 10 top). vm_compute; reflexivity.
Defined.


(** *** The ranking (C5) *)

(** An entry without a readable price: the price is [None], or a string in
    which no digit and no decimal point occurs. *)
Definition no_price (p : ShortlistEntry) : Prop :=
  price p = None ∨ ∃ s, price p = Some (PriceStr s) ∧ strip_price s = "".

(** The claim's reading of the sentinel: an entry without price stands after
    every entry with a price that ties with it on rating and reviews. *)
Definition missing_price_last (top : list ShortlistEntry) : Prop :=
  ∀ i j p q, top !! i = Some p -> top !! j = Some q ->
    price p = None -> price q ≠ None ->
    (rating_or_0 p == rating_or_0 q)%Q -> reviews_or_0 p = reviews_or_0 q ->
    (j < i)%nat.


Lemma no_price_sort_key p :
  no_price p ->
  sort_key p = Ok ((- rating_or_0 p)%Q, (- reviews_or_0 p)%Z, sentinel).
Proof.
  unfold sort_key. by intros [->|(s & -> & ->)].
Qed.



(** *** Idempotence (C8) *)

(** C8: ranking and truncating the output of [select_top_products] again,
    with the same limit, returns it unchanged. *)
Theorem select_top_products_idempotent products limit top :
  select_top_products products limit = Ok top ->
  select_top_products top limit = Ok top.
Proof.
  intros Hsel.
  pose proof Hsel as (keyed0 & _ & _ & Ht)%select_top_products_Ok.
  destruct (select_top_products_ranked_take _ _ _ Hsel) as (keyed & _ & Hc & Htop & _).
  subst top. apply select_top_products_Ok. exists (take limit (sort_keyed keyed)).
  split; [|split; [|done]].
  - apply decorate_consistent. by apply consistent_take.
  - rewrite (sort_keyed_id (take limit (sort_keyed keyed)))
      by apply StronglySorted_take, sort_keyed_sorted.
    by rewrite !fmap_take, take_take, Nat.min_id.
Qed.

Lemma select_top_products_idempotent_witness :
  let a := entry "A" (Some 4.5%Q) (Some 200%Z) (Some (PriceStr "$20.00")) in
  let b := entry "B" (Some 4.5%Q) (Some 200%Z) (Some (PriceStr "$15.00")) in
  let c := entry "C" (Some 4.8%Q) (Some 12%Z) None in
  select_top_products [a; b; c] 2 = Ok [c; b]
  ∧ select_top_products [c; b] 2 = Ok [c; b].
Proof.
  intros a b c.
  assert (H : select_top_products [a; b; c] 2 = Ok [c; b]) by (vm_compute; reflexivity).
  split; [exact H|]. exact (select_top_products_idempotent _ _ _ H).
Defined.

End RankFacts.

(** ** Analysis text parser ([report_generator.py]) *)

Module Parser.
Import PyStr.

(** The text matched by [(.*?)] once the opening [**] is read: the shortest
    run of characters other than a newline that a closing [**] follows. *)
Fixpoint bold_body (s : string) : option string :=
  match s with
  | EmptyString => None
  | String c s' =>
      if startswith "**" s then Some EmptyString
      else if Ascii.eqb c newline then None
      else String c <$> bold_body s'
  end.

Definition tail (s : string) : string :=
  match s with
  | EmptyString => EmptyString
  | String _ s' => s'
  end.

(** [re.sub(r'\*\*(.*?)\*\*', r'<strong>\1</strong>', text)]: the matches are
    taken from left to right; [skip] counts the characters of the last match
    that are still to be passed over. *)
Fixpoint sub_bold (skip : nat) (text : string) : string :=
  match text with
  | EmptyString => EmptyString
  | String c text' =>
      match skip with
      | S k => sub_bold k text'
      | O =>
          match (if startswith "**" text then bold_body (tail text') else None) with
          | Some body =>
              "<strong>" ++ body ++ "</strong>" ++ sub_bold (3 + String.length body) text'
          | None => String c (sub_bold 0 text')
          end
      end
  end.

Definition _markdown_to_html (text : string) : string := sub_bold 0 text.

Definition placeholder_patterns : list string :=
  [ "no common concerns identified";
    "no concerns identified";
    "no specific concerns";
    "no major concerns";
    "no common strengths identified";
    "no strengths identified";
    "no specific strengths" ].

Definition _is_placeholder_text (text : string) : bool :=
  let text_lower := lower text in
  existsb (fun pattern => contains pattern text_lower) placeholder_patterns.

(** [line and (line[0].isdigit() or line.startswith('-'))] *)
Definition is_item_line (line : string) : bool :=
  match line with
  | EmptyString => false
  | String c _ => isdigit c || startswith "-" line
  end.

(** The body of the two loops [for line in ..._text.split('\n')], which are
    the same text: [items] and [seen] are [strengths] and [seen_strengths],
    or [concerns] and [seen_concerns]. *)
Fixpoint collect_items (lines : list string) (seen : gset string) (items : list string)
  : list string :=
  match lines with
  | [] => items
  | line :: rest =>
      let line := strip line in
      if is_item_line line then
        let cleaned := strip (lstrip_chars (char_in "0123456789.-) ") line) in
        if negb (String.eqb cleaned "") then
          let html_text := _markdown_to_html cleaned in
          if bool_decide (html_text ∉ seen) && negb (_is_placeholder_text html_text) then
            collect_items rest ({[html_text]} ∪ seen) (items ++ [html_text])
          else collect_items rest seen items
        else collect_items rest seen items
      else collect_items rest seen items
  end.

Definition _parse_analysis_text (analysis_text : string) : list string * list string :=
  if String.eqb analysis_text "" then ([], [])
  else
    match split "**Product Concerns:**" analysis_text with
    | section0 :: section1 :: _ =>
        let strengths_text := strip (replace "**Product Strengths:**" "" section0) in
        let strengths := collect_items (split (String newline "") strengths_text) ∅ [] in
        let concerns_text := strip section1 in
        let concerns := collect_items (split (String newline "") concerns_text) ∅ [] in
        (strengths, concerns)
    | _ => ([], [])
    end.

(** *** The item lines of a section *)

(** The entry that a line contributes when it is an item line with a text:
    after trimming it begins with a digit or a dash, and something is left
    once the enumeration token is removed. *)
Definition item_text (line : string) : option string :=
  let line := strip line in
  if is_item_line line then
    let cleaned := strip (lstrip_chars (char_in "0123456789.-) ") line) in
    if negb (String.eqb cleaned "") then Some (_markdown_to_html cleaned) else None
  else None.

Definition item_texts (section_text : string) : list string :=
  omap item_text (split (String newline "") section_text).

(** The cleaned strength lines and concern lines of a response cut at the
    delimiter. *)
Definition strength_items (section0 : string) : list string :=
  item_texts (strip (replace "**Product Strengths:**" "" section0)).

Definition concern_items (section1 : string) : list string :=
  item_texts (strip section1).

End Parser.

Module ParserFacts.
Import PyStr Parser.

Lemma collect_items_cons line rest seen items :
  collect_items (line :: rest) seen items =
  match item_text line with
  | Some html_text =>
      if bool_decide (html_text ∉ seen) && negb (_is_placeholder_text html_text)
      then collect_items rest ({[html_text]} ∪ seen) (items ++ [html_text])
      else collect_items rest seen items
  | None => collect_items rest seen items
  end.
Proof.
  unfold item_text. simpl.
  destruct (is_item_line (strip line)); [|done].
  by destruct (negb _).
Qed.

(** When the item texts are pairwise distinct, not seen before and not
    placeholders, the loop appends all of them, in order. *)
Lemma collect_items_all lines seen items :
  NoDup (omap item_text lines) ->
  (∀ t, t ∈ omap item_text lines -> t ∉ seen) ->
  Forall (λ t, _is_placeholder_text t = false) (omap item_text lines) ->
  collect_items lines seen items = (items ++ omap item_text lines)%list.
Proof.
  revert seen items. induction lines as [|line rest IH]; intros seen items Hnd Hseen Hph.
  - simpl. by rewrite app_nil_r.
  - rewrite collect_items_cons. simpl in *.
    destruct (item_text line) as [t|]; [|by apply IH].
    apply NoDup_cons in Hnd as [Ht Hnd]. apply Forall_cons in Hph as [Hpt Hph].
    rewrite bool_decide_eq_true_2 by (apply Hseen; left).
    rewrite Hpt. simpl. rewrite IH; [by rewrite <- app_assoc|done| |done].
    intros t' Ht'. apply not_elem_of_union. split.
    + apply not_elem_of_singleton. by intros ->.
    + apply Hseen. by right.
Qed.

(** Whatever the lines, the loop keeps its list free of repetitions and of
    placeholders. *)
Lemma collect_items_invariant lines seen items :
  NoDup items -> (∀ t, t ∈ items -> t ∈ seen) ->
  Forall (λ t, _is_placeholder_text t = false) items ->
  NoDup (collect_items lines seen items)
  ∧ Forall (λ t, _is_placeholder_text t = false) (collect_items lines seen items).
Proof.
  revert seen items. induction lines as [|line rest IH]; intros seen items Hnd Hseen Hph.
  - by split.
  - rewrite collect_items_cons.
    destruct (item_text line) as [t|]; [|by apply IH].
    destruct (bool_decide (t ∉ seen)) eqn:Hd; [|by apply IH].
    destruct (_is_placeholder_text t) eqn:Hpt; [by apply IH|]. simpl.
    apply bool_decide_eq_true in Hd. apply IH.
    + apply NoDup_app. repeat split; [done| |apply NoDup_singleton].
      intros x Hx ->%list_elem_of_singleton. by apply Hd, Hseen.
    + intros x [Hx| ->%list_elem_of_singleton]%elem_of_app; apply elem_of_union.
      * right. by apply Hseen.
      * left. by apply elem_of_singleton.
    + apply Forall_app. split; [done|]. by constructor.
Qed.


Definition nl : string := String newline "".

Definition sample_response : string :=
  "Here is the analysis of the reviews." ++ nl ++
  "**Product Strengths:**" ++ nl ++
  "1. **Sound quality**: clear and loud" ++ nl ++
  "2. Comfortable fit" ++ nl ++
  "3. Long battery life" ++ nl ++ nl ++
  "**Product Concerns:**" ++ nl ++
  "1. Flimsy case" ++ nl ++
  "2. **Pairing** drops at times" ++ nl ++
  "3. Short cable".


(** Placeholder suppression and the missing delimiter, as the specification
    lists them. *)
Example placeholder_section_is_empty :
  _parse_analysis_text
    ("**Product Strengths:**" ++ nl ++ "1. Sturdy" ++ nl ++
     "**Product Concerns:**" ++ nl ++ "- No common concerns identified.")
  = (["Sturdy"], []).
Proof. vm_compute. reflexivity. Qed.

Example missing_delimiter_is_empty :
  _parse_analysis_text ("1. Sturdy" ++ nl ++ "2. Cheap") = ([], []).
Proof. vm_compute. reflexivity. Qed.

End ParserFacts.

(** ** Stage orchestrator and run coordinator ([pipeline.py]) *)

Module Orchestrator.
Import PyStr.

(** *** Records of the providers *)

(** The value of a field of a review record. *)
Inductive value : Type :=
| VNone
| VNum (q : Q)
| VStr (s : string).

Definition value_of (o : option string) : value :=
  match o with
  | Some s => VStr s
  | None => VNone
  end.

(** A review record is a dictionary; the run adds keys to it in place. *)
Abbreviation ReviewDict := (gmap string value).

(** The value under ['feature_bullets']: the list of the provider, or a
    text, or null. *)
Inductive bullets : Type :=
| BulletList (l : list string)
| BulletText (s : string)
| BulletNull.

(** The dictionary under ['product'] of a Rainforest response.  The outer
    [None] of a field is an absent key, [Some None] is a title that is
    null. *)
Record RainforestProduct : Type := mkProduct {
  rf_title : option (option string);
  rf_feature_bullets : option bullets
}.

(** A Rainforest response: the dictionary under ['product'] when the key is
    present, and the names of its other keys. *)
Record DetailRecord : Type := mkDetail {
  d_product : option RainforestProduct;
  d_other_keys : list string
}.

(** [{}] *)
Definition empty_record : DetailRecord := {| d_product := None; d_other_keys := [] |}.

(** What [requests.get] and [response.json()] come to: the request raises,
    or a response arrives with its status and, when it is a JSON object,
    its body. *)
Inductive http_outcome : Type :=
| RequestException (msg : string)
| Response (status_code : Z) (json : option DetailRecord).

(** The result of [GeminiHandler.analyze_reviews]: the generated text, or
    [None]. *)
Abbreviation Analysis := (option string).

(** What is written or shown during a run. *)
Inductive artifact : Type :=
| RawResults (l : list Candidate)
| Filtered (l : list ShortlistEntry)
| ProductData (l : list DetailRecord)
| AllReviews (refs : list nat) (l : list ReviewDict)
| Analyses (l : list (option string * option string * Analysis)).

(** The calls that leave the orchestrator, with their arguments.  A review
    is passed as an object: [refs] are the locations, the dictionaries are
    their contents at the time of the call. *)
Inductive event : Type :=
| SaveJson (filename : string) (data : artifact)
| AnalyzeReviews (product_title : option string) (product_description : string)
    (refs : list nat) (reviews : list ReviewDict)
| GenerateReport (products : list ShortlistEntry) (product_data : list DetailRecord)
    (refs : list (list nat)) (reviews : list (list ReviewDict)) (analyses : list Analysis)
| LaunchBrowser.

(** The request of one analysis. *)
Record AnalysisRequest : Type := mkRequest {
  req_title : option string;
  req_description : string;
  req_reviews : list nat
}.

Inductive run_status : Type :=
| NoProducts      (* "No products found from SERP search" *)
| NoSurvivors     (* "No products passed filters" *)
| Completed.

Section Stages.

(** The state of what lies outside the process: the providers and the
    network. *)
Context {W : Type}.

(** A call of a provider: it returns or raises, and changes the world. *)
Definition call (A : Type) : Type := W -> result A * W.

(** [RainforestHandler.get_product_data]: every failure is logged and turned
    into [{}]; the method does not raise. *)
Definition get_product_data (requests_get : option string -> W -> http_outcome * W)
  (asin : option string) : call DetailRecord :=
  fun w =>
    let '(response, w') := requests_get asin w in
    match response with
    | Response status_code json =>
        if negb (status_code =? 200)%Z then (Ok empty_record, w')
        else
          match json with
          | Some data => (Ok data, w')
          | None => (Ok empty_record, w')       (* except Exception *)
          end
    | RequestException _ => (Ok empty_record, w')  (* except requests.RequestException *)
    end.

(** The collaborators of the run: the three handlers that the stages call,
    and [HTMLReportGenerator.generate], which writes the report from the
    four collections or raises. *)
Record Handlers : Type := mkHandlers {
  rainforest_get_product_data : option string -> call DetailRecord;
  apify_get_product_reviews : option string -> call (list ReviewDict);
  gemini_analyze_reviews : option string -> string -> list ReviewDict -> call Analysis;
  report_generate :
    list ShortlistEntry -> list DetailRecord -> list (list ReviewDict) ->
    list Analysis -> result unit
}.

(** *** The state of a run and its monad *)

(** The world, the review objects of the process (a location is an index),
    and the calls made so far. *)
Record State : Type := mkState {
  world : W;
  heap : list ReviewDict;
  trace : list event
}.

(** A step of the run: it returns or raises, and changes the state. *)
#[local] Abbreviation M A := (State -> result A * State).

Definition retM {A} (a : A) : M A := fun st => (Ok a, st).

Definition bindM {A B} (m : M A) (k : A -> M B) : M B :=
  fun st =>
    match m st with
    | (Ok a, st') => k a st'
    | (Raise e, st') => (Raise e, st')
    end.

Definition liftM {A} (r : result A) : M A := fun st => (r, st).

Definition emit (ev : event) : M unit :=
  fun st => (Ok tt, {| world := world st; heap := heap st; trace := trace st ++ [ev] |}).

Definition deref (h : list ReviewDict) (refs : list nat) : list ReviewDict :=
  omap (fun loc => h !! loc) refs.

End Stages.

Notation "'step' x <- m ; k" := (bindM m (fun x => k))
  (at level 10, x name, m at level 100, k at level 200).

Section StageFunctions.
Context {W : Type}.
#[local] Abbreviation State := (@State W).
#[local] Abbreviation M A := (State -> result A * State).

(** [for x in l: ... await f(x) ...], appending each result. *)
Fixpoint traverseM {A B} (f : A -> M B) (l : list A) : M (list B) :=
  match l with
  | [] => retM []
  | a :: l' => step b <- f a; step bs <- traverseM f l'; retM (b :: bs)
  end.

(** [l[i]] *)
Definition index {A} (l : list A) (i : nat) : result A :=
  match l !! i with
  | Some a => Ok a
  | None => Raise (IndexError "list index out of range")
  end.

(** *** Tasks *)

(** [fetch_product_data_async]: the handler runs in the executor; the task
    returns what the handler returns and raises what it raises. *)
Definition fetch_product_data_async (h : Handlers) (asin : option string)
  : M DetailRecord :=
  fun st =>
    let '(r, w') := rainforest_get_product_data h asin (world st) in
    (r, {| world := w'; heap := heap st; trace := trace st |}).

(** [fetch_reviews_async]: the dictionaries of the response are new objects
    of the process. *)
Definition fetch_reviews_async (h : Handlers) (asin : option string) : M (list nat) :=
  fun st =>
    let '(r, w') := apify_get_product_reviews h asin (world st) in
    match r with
    | Ok reviews =>
        (Ok (seq (length (heap st)) (length reviews)),
         {| world := w'; heap := heap st ++ reviews; trace := trace st |})
    | Raise e => (Raise e, {| world := w'; heap := heap st; trace := trace st |})
    end.

(** [analyze_with_gemini_async]: the handler reads the review objects as
    they are when it runs. *)
Definition analyze_with_gemini_async (h : Handlers) (request : AnalysisRequest)
  : M Analysis :=
  fun st =>
    let reviews := deref (heap st) (req_reviews request) in
    let '(r, w') :=
      gemini_analyze_reviews h (req_title request) (req_description request) reviews
        (world st) in
    (r, {| world := w'; heap := heap st;
           trace := trace st ++ [AnalyzeReviews (req_title request)
                                   (req_description request) (req_reviews request)
                                   reviews] |}).

(** *** [asyncio.gather] over the tasks, with [return_exceptions=True] *)

(** The tasks end in some order: task [i] ends at the time [times !! i]
    (0 when the list is too short), the earlier argument first among tasks
    that end together.  Every order of the tasks is the order of some
    [times]. *)
Fixpoint insert_by_time (time : nat -> nat) (i : nat) (order : list nat) : list nat :=
  match order with
  | [] => [i]
  | j :: order' =>
      if (time j <? time i)%nat then j :: insert_by_time time i order'
      else i :: j :: order'
  end.

Definition completion_order (times : list nat) (n : nat) : list nat :=
  foldr (insert_by_time (fun i => default 0%nat (times !! i))) [] (seq 0 n).

(** Each task has a future; a task that ends stores its outcome, a value or
    an exception, in its own future. *)
Fixpoint run_tasks {A} (tasks : list (M A)) (order : list nat)
  (futures : list (option (result A))) (st : State)
  : list (option (result A)) * State :=
  match order with
  | [] => (futures, st)
  | i :: order' =>
      match tasks !! i with
      | Some task =>
          let '(r, st') := task st in
          run_tasks tasks order' (<[i := Some r]> futures) st'
      | None => run_tasks tasks order' futures st
      end
  end.

(** The result of a future; on a future that is not done it is an
    [InvalidStateError]. *)
Definition future_result {A} (future : option (result A)) : result A :=
  match future with
  | Some r => r
  | None => Raise (InvalidStateError "Result is not set.")
  end.

(** The results are read from the futures in the order of the arguments. *)
Definition gather {A} (tasks : list (M A)) (times : list nat) : M (list (result A)) :=
  fun st =>
    let '(futures, st') :=
      run_tasks tasks (completion_order times (length tasks))
        (replicate (length tasks) None) st in
    (Ok (future_result <$> futures), st').

(** [for i, result in enumerate(results): if isinstance(result, Exception):
    raise result] *)
Definition raise_first_exception {A} (results : list (result A)) : M (list A) :=
  liftM (traverse id results).

(** *** The stages *)

(** [collect_product_data]: the detail stage through [gather], then the
    review stage, one product after the other. *)
Definition collect_product_data (h : Handlers) (times : list nat)
  (products : list ShortlistEntry) : M (list DetailRecord * list (list nat)) :=
  let product_tasks :=
    (fun product => fetch_product_data_async h (asin product)) <$> products in
  step product_data_results <- gather product_tasks times;
  step product_data_results <- raise_first_exception product_data_results;
  step review_results <-
    traverseM (fun product => fetch_reviews_async h (asin product)) products;
  retM (product_data_results, review_results).

(** The title, description and reviews of the request for one product. *)
Definition analysis_request (product : ShortlistEntry) (product_data : DetailRecord)
  (reviews : list nat) : AnalysisRequest :=
  (* product_data_list[i].get('product', {}) *)
  let rf_product :=
    default {| rf_title := None; rf_feature_bullets := None |} (d_product product_data) in
  (* rf_product.get('title', product.get('title', 'Unknown Product')); the
     key 'title' of a shortlist entry is always present *)
  let title := default (title product) (rf_title rf_product) in
  (* rf_product.get('feature_bullets', []) *)
  let feature_bullets := default (BulletList []) (rf_feature_bullets rf_product) in
  let description :=
    match feature_bullets with
    | BulletList l => String.concat (String newline "") ((fun bullet => "- " ++ bullet) <$> l)
    | BulletText s => if String.eqb s "" then "No description available" else s
    | BulletNull => "No description available"
    end in
  {| req_title := title; req_description := description; req_reviews := reviews |}.

(** The loop [for i, product in enumerate(products)] that builds the
    tasks. *)
Fixpoint analysis_requests (i : nat) (products : list ShortlistEntry)
  (product_data_list : list DetailRecord) (reviews_list : list (list nat))
  : result (list AnalysisRequest) :=
  match products with
  | [] => Ok []
  | product :: rest =>
      do product_data <- index product_data_list i;
      do reviews <- index reviews_list i;
      do requests <- analysis_requests (S i) rest product_data_list reviews_list;
      Ok (analysis_request product product_data reviews :: requests)
  end.

Definition analyze_all_products (h : Handlers) (times : list nat)
  (products : list ShortlistEntry) (product_data_list : list DetailRecord)
  (reviews_list : list (list nat)) : M (list Analysis) :=
  step requests <- liftM (analysis_requests 0 products product_data_list reviews_list);
  let analysis_tasks := analyze_with_gemini_async h <$> requests in
  step analysis_results <- gather analysis_tasks times;
  raise_first_exception analysis_results.

(** *** The run coordinator *)

(** [save_to_json]: failures are logged, not raised. *)
Definition save_to_json (data : artifact) (filename : string) : M unit :=
  emit (SaveJson filename data).

(** [review['asin'] = ...; review['product_title'] = ...] *)
Definition tag (product : ShortlistEntry) (review : ReviewDict) : ReviewDict :=
  <["product_title" := value_of (title product)]>
    (<["asin" := value_of (asin product)]> review).

(** [for review in review_list]: the record is changed in place and its
    reference appended to [all_reviews]. *)
Fixpoint tag_review_list (serp_filtered : list ShortlistEntry) (i : nat)
  (review_list : list nat) (all_reviews : list nat) : M (list nat) :=
  match review_list with
  | [] => retM all_reviews
  | review :: rest =>
      step product <- liftM (index serp_filtered i);
      step _ <- (fun st => (Ok tt, {| world := world st;
                                 heap := alter (tag product) review (heap st);
                                 trace := trace st |}));
      tag_review_list serp_filtered i rest (all_reviews ++ [review])
  end.

(** [for i, review_list in enumerate(reviews)] *)
Fixpoint tag_reviews (serp_filtered : list ShortlistEntry) (i : nat)
  (reviews : list (list nat)) (all_reviews : list nat) : M (list nat) :=
  match reviews with
  | [] => retM all_reviews
  | review_list :: rest =>
      step all_reviews <- tag_review_list serp_filtered i review_list all_reviews;
      tag_reviews serp_filtered (S i) rest all_reviews
  end.

(** The reviews are tagged and written to [reviews.json]. *)
Definition save_reviews (serp_filtered : list ShortlistEntry) (reviews : list (list nat))
  : M unit :=
  step all_reviews <- tag_reviews serp_filtered 0 reviews [];
  fun st => save_to_json (AllReviews all_reviews (deref (heap st) all_reviews))
              "reviews.json" st.

(** [analyses_with_context] *)
Fixpoint analyses_with_context (serp_filtered : list ShortlistEntry) (i : nat)
  (analyses : list Analysis) : result (list (option string * option string * Analysis)) :=
  match analyses with
  | [] => Ok []
  | analysis :: rest =>
      do product <- index serp_filtered i;
      do more <- analyses_with_context serp_filtered (S i) rest;
      Ok ((asin product, title product, analysis) :: more)
  end.

Definition save_analyses (serp_filtered : list ShortlistEntry) (analyses : list Analysis)
  : M unit :=
  step with_context <- liftM (analyses_with_context serp_filtered 0 analyses);
  save_to_json (Analyses with_context) "gemini_analysis.json".

Definition save_results (serp_raw : list Candidate) (serp_filtered : list ShortlistEntry)
  (product_data : list DetailRecord) (reviews : list (list nat))
  (analyses : list Analysis) : M unit :=
  step _ <- save_to_json (RawResults serp_raw) "serp_raw.json";
  step _ <- save_to_json (Filtered serp_filtered) "serp_filtered.json";
  step _ <- save_to_json (ProductData product_data) "rainforest_products.json";
  step _ <- save_reviews serp_filtered reviews;
  save_analyses serp_filtered analyses.

(** [generate_html_report]: the generator receives the four collections. *)
Definition generate_html_report (h : @Handlers W) (products : list ShortlistEntry)
  (product_data : list DetailRecord) (reviews : list (list nat))
  (analyses : list Analysis) : M unit :=
  fun st =>
    let dicts := deref (heap st) <$> reviews in
    (step _ <- emit (GenerateReport products product_data reviews dicts analyses);
     liftM (report_generate h products product_data dicts analyses)) st.

(** [run]: [search] is [scraper.search_products_paginated] with the
    parameters of the configuration; the two lists of times are the orders
    in which the tasks of the two [gather] calls end.  An exception is
    logged and raised again. *)
Definition run (h : Handlers) (search : call (list Candidate))
  (client_filters : ClientFilters) (detail_times analysis_times : list nat)
  : M run_status :=
  step raw_results <- (fun st => let '(r, w') := search (world st) in
                            (r, {| world := w'; heap := heap st; trace := trace st |}));
  match raw_results with
  | [] => retM NoProducts
  | _ =>
      step _ <- save_to_json (RawResults raw_results) "serp_raw.json";
      let filtered_products := Rank.filter_products client_filters raw_results in
      match filtered_products with
      | [] => retM NoSurvivors
      | _ =>
          step top_products <- liftM (Rank.select_top_products filtered_products 10);
          step _ <- save_to_json (Filtered top_products) "serp_filtered.json";
          step collected <- collect_product_data h detail_times top_products;
          let '(product_data_list, reviews_list) := collected in
          step _ <- save_to_json (ProductData product_data_list) "rainforest_products.json";
          step _ <- save_reviews top_products reviews_list;
          step analyses <-
            analyze_all_products h analysis_times top_products product_data_list
              reviews_list;
          step _ <- save_analyses top_products analyses;
          step _ <- save_results raw_results top_products product_data_list reviews_list
                 analyses;
          step _ <- generate_html_report h top_products product_data_list reviews_list
                 analyses;
          step _ <- emit LaunchBrowser;
          retM Completed
      end
  end.

End StageFunctions.

End Orchestrator.

(** ** Facts about the stages *)

Module OrchestratorFacts.
Import PyStr Orchestrator.

Section Gather.
Context {W : Type}.
#[local] Abbreviation St := (@State W).
#[local] Abbreviation Task A := (St -> result A * St).

Lemma insert_by_time_perm time i order : insert_by_time time i order ≡ₚ i :: order.
Proof.
  induction order as [|j order IH]; simpl; [done|].
  destruct (time j <? time i)%nat; [|done].
  rewrite IH. apply Permutation_swap.
Qed.

(** Whatever the times, every task ends exactly once. *)
Lemma completion_order_perm times n : completion_order times n ≡ₚ seq 0 n.
Proof.
  unfold completion_order.
  generalize (λ i : nat, default 0%nat (times !! i)) as time. intros time.
  generalize 0%nat as a.
  induction n as [|n IH]; intros a; simpl; [done|].
  by rewrite insert_by_time_perm, IH.
Qed.

(** After the tasks of [order] have ended, each of them has stored in its
    own future the outcome of its run, and the other futures are as
    before. *)
Lemma run_tasks_spec {A} (tasks : list (Task A)) order futures (st : St) :
  NoDup order ->
  (∀ i, i ∈ order -> (i < length tasks)%nat) ->
  length futures = length tasks ->
  length (run_tasks tasks order futures st).1 = length tasks
  ∧ (∀ i, i ∉ order -> (run_tasks tasks order futures st).1 !! i = futures !! i)
  ∧ (∀ i (task : Task A), i ∈ order -> tasks !! i = Some task ->
       ∃ st_i, (run_tasks tasks order futures st).1 !! i = Some (Some (task st_i).1)).
Proof.
  revert futures st. induction order as [|i order IH]; intros futures st Hnd Hlt Hlen;
    cbn [run_tasks].
  - simpl. split; [done|]. split; [done|]. by intros i task ?%elem_of_nil.
  - apply NoDup_cons in Hnd as [Hi Hnd].
    match goal with
    | |- context [match ?x with Some _ => _ | None => _ end] =>
        destruct x as [task|] eqn:Htask
    end.
    2: { apply lookup_ge_None in Htask. specialize (Hlt i (list_elem_of_here _ _)). lia. }
    destruct (task st) as [r st'] eqn:Hrun.
    destruct (IH (<[i := Some r]> futures) st' Hnd) as (Hl & Hout & Hin).
    { intros j Hj. apply Hlt. by right. }
    { by rewrite length_insert. }
    split; [done|]. split.
    + intros j [Hne Hj]%not_elem_of_cons. rewrite Hout by done.
      by rewrite list_lookup_insert_ne.
    + intros j task' [->|Hj]%elem_of_cons Htask'.
      * rewrite Hout by done. exists st.
        pose proof (Hlt i (list_elem_of_here _ _)).
        rewrite list_lookup_insert_eq by lia.
        assert (task' = task) as -> by congruence. by rewrite Hrun.
      * by apply Hin.
Qed.

(** [gather] keeps the positions: result [i] is what the task of argument
    [i] produced, in whatever state it ran. *)
Lemma gather_spec {A} (tasks : list (Task A)) times (st : St) :
  ∃ results st',
    gather tasks times st = (Ok results, st')
    ∧ length results = length tasks
    ∧ ∀ i (task : Task A), tasks !! i = Some task ->
        ∃ st_i, results !! i = Some (task st_i).1.
Proof.
  unfold gather.
  pose proof (completion_order_perm times (length tasks)) as Hperm.
  destruct (run_tasks_spec tasks (completion_order times (length tasks))
              (replicate (length tasks) None) st) as (Hl & _ & Hin).
  { rewrite Hperm. apply NoDup_seq. }
  { intros i. rewrite Hperm, elem_of_seq. lia. }
  { apply length_replicate. }
  destruct (run_tasks _ _ _ st) as [futures st'] eqn:Hrun. simpl in *.
  exists (future_result <$> futures), st'. split; [done|]. split.
  - by rewrite length_fmap.
  - intros i task Htask. destruct (Hin i task) as [st_i Hi]; [|done|].
    + rewrite Hperm, elem_of_seq. apply lookup_lt_Some in Htask. lia.
    + exists st_i. by rewrite list_lookup_fmap, Hi.
Qed.

(** A property of the state that every task keeps is kept by [gather]. *)
Lemma run_tasks_invariant {A} (I : St -> Prop) (tasks : list (Task A)) order futures st :
  (∀ i (task : Task A) st, tasks !! i = Some task -> I st -> I (task st).2) ->
  I st -> I (run_tasks tasks order futures st).2.
Proof.
  intros Hkeep. revert futures st. induction order as [|i order IH]; intros futures st HI;
    cbn [run_tasks]; [done|].
  match goal with
  | |- context [match ?x with Some _ => _ | None => _ end] =>
      destruct x as [task|] eqn:Htask
  end; [|by apply IH].
  pose proof (Hkeep i task st Htask HI) as HI'.
  destruct (task st) as [r st']. by apply IH.
Qed.

Lemma gather_invariant {A} (I : St -> Prop) (tasks : list (Task A)) times st :
  (∀ i (task : Task A) st, tasks !! i = Some task -> I st -> I (task st).2) ->
  I st -> I (gather tasks times st).2.
Proof.
  intros Hkeep HI. unfold gather.
  pose proof (run_tasks_invariant I tasks (completion_order times (length tasks))
                (replicate (length tasks) None) st Hkeep HI) as H.
  by destruct (run_tasks _ _ _ st).
Qed.

(** The loop that raises the first exception. *)
Lemma traverse_id_Ok {A} (results : list (result A)) values :
  traverse id results = Ok values <-> results = Ok <$> values.
Proof.
  revert values. induction results as [|r results IH]; intros values; simpl.
  - split; [by intros [= <-]|]. by destruct values.
  - destruct r as [a|e]; simpl.
    + destruct (traverse id results) as [vs|] eqn:Ht; simpl.
      * split.
        -- intros [= <-]. rewrite fmap_cons. f_equal. by apply IH.
        -- destruct values as [|v values]; [done|]. rewrite fmap_cons.
           intros [= -> Hr]. apply IH in Hr. by inversion Hr.
      * split; [done|]. destruct values as [|v values]; [done|]. rewrite fmap_cons.
        intros [= -> Hr]. by apply IH in Hr.
    + split; [done|]. by destruct values.
Qed.

Lemma traverse_id_Raise {A} (results : list (result A)) i e :
  results !! i = Some (Raise e) -> ∃ e', traverse id results = Raise e'.
Proof.
  revert i. induction results as [|r results IH]; intros i Hi; [done|]. simpl.
  destruct r as [a|e0]; simpl; [|by eexists].
  destruct i as [|i]; [done|]. simpl in Hi.
  destruct (IH i Hi) as [e' ->]. by eexists.
Qed.

(** The loop of awaited calls: element [i] of its result comes from the
    call made for element [i] of the list. *)
Lemma traverseM_spec {A B} (f : A -> Task B) l (st : St) bs st' :
  traverseM f l st = (Ok bs, st') ->
  length bs = length l
  ∧ ∀ i a, l !! i = Some a -> ∃ st_i b, bs !! i = Some b ∧ (f a st_i).1 = Ok b.
Proof.
  revert st bs. induction l as [|a l IH]; intros st bs; simpl.
  - intros [= <- <-]. by split.
  - unfold bindM at 1. destruct (f a st) as [[b|e] st1] eqn:Hf; [|done].
    unfold bindM at 1. destruct (traverseM f l st1) as [[bs'|e] st2] eqn:Ht; [|done].
    intros [= <- <-]. destruct (IH _ _ Ht) as [Hlen Hi].
    split; [simpl; by rewrite Hlen|].
    intros [|i] a' Ha; simpl in *.
    + inversion Ha; subst. exists st, b. by rewrite Hf.
    + by apply Hi.
Qed.


(** *** Monad steps *)

Lemma bindM_Ok {A B} (m : Task A) (k : A -> Task B) (st : St) b st' :
  bindM m k st = (Ok b, st') <-> ∃ a st1, m st = (Ok a, st1) ∧ k a st1 = (Ok b, st').
Proof.
  unfold bindM. split.
  - destruct (m st) as [[a|e] st1]; [|done]. intros H. by exists a, st1.
  - intros (a & st1 & -> & H). done.
Qed.

Lemma bindM_Raise {A B} (m : Task A) (k : A -> Task B) (st : St) e st' :
  m st = (Raise e, st') -> bindM m k st = (Raise e, st').
Proof. unfold bindM. by intros ->. Qed.

Lemma index_Ok {A} (l : list A) i a : index l i = Ok a <-> l !! i = Some a.
Proof. unfold index. destruct (l !! i); split; congruence. Qed.

(** *** The requests of the analysis stage *)

Lemma analysis_requests_spec i products product_data_list reviews_list requests :
  analysis_requests i products product_data_list reviews_list = Ok requests ->
  length requests = length products
  ∧ ∀ k product, products !! k = Some product ->
      ∃ product_data reviews,
        product_data_list !! (i + k)%nat = Some product_data
        ∧ reviews_list !! (i + k)%nat = Some reviews
        ∧ requests !! k = Some (analysis_request product product_data reviews).
Proof.
  revert i requests. induction products as [|product products IH]; intros i requests; simpl.
  - intros [= <-]. by split.
  - destruct (index product_data_list i) as [pd|] eqn:Hpd; [simpl|done].
    destruct (index reviews_list i) as [rv|] eqn:Hrv; [simpl|done].
    destruct (analysis_requests (S i) products _ _) as [reqs|] eqn:Hreqs; [simpl|done].
    intros [= <-]. destruct (IH _ _ Hreqs) as [Hlen Hk].
    split; [simpl; by rewrite Hlen|].
    intros [|k] product' Hp; simpl in *.
    + inversion Hp; subst. exists pd, rv. rewrite Nat.add_0_r.
      by rewrite <- !index_Ok.
    + destruct (Hk k product' Hp) as (pd' & rv' & ? & ? & ?).
      exists pd', rv'. by rewrite <- Nat.add_succ_comm.
Qed.

End Gather.

(** *** The request of an analysis (C7) *)

(** The request in the words of the claim: the title of the entry, or the
    title of the detail stage when the entry has none; the bullets joined,
    or the placeholder when there is no such text. *)
Definition spec_analysis_request (product : ShortlistEntry) (product_data : DetailRecord)
  (reviews : list nat) : AnalysisRequest :=
  {| req_title :=
       match title product with
       | Some t => Some t
       | None => default None (d_product product_data ≫= rf_title)
       end;
     req_description :=
       match d_product product_data ≫= rf_feature_bullets with
       | Some (BulletList (b :: l)) =>
           String.concat (String newline "") ((fun bullet => "- " ++ bullet) <$> (b :: l))
       | Some (BulletText (String c s)) => String c s
       | _ => "No description available"
       end;
     req_reviews := reviews |}.

(** C7, counterexample: when both titles are present the request carries the
    title of the detail stage, not the title of the entry; and a detail
    record without feature bullets gives the empty description, not the
    placeholder. *)
Lemma analysis_request_counterexample :
  let product := RankFacts.entry "A" (Some 4.5%Q) (Some 200%Z) None in
  let product_data :=
    {| d_product := Some {| rf_title := Some (Some "Detail title");
                            rf_feature_bullets := None |};
       d_other_keys := [] |} in
  title product = Some "Product A"
  ∧ req_title (analysis_request product product_data [0%nat]) = Some "Detail title"
  ∧ req_title (spec_analysis_request product product_data [0%nat]) = Some "Product A"
  ∧ req_description (analysis_request product product_data [0%nat]) = ""
  ∧ req_description (spec_analysis_request product product_data [0%nat])
    = "No description available".
Proof. repeat split. Qed.

(** C7, amended: the request built for entry [i] carries the title of the
    detail stage when the detail record has one, and the title of the entry
    otherwise; as description the feature bullets of the detail stage, one
    line [- bullet] each, when that list is not empty, the text itself when
    the bullets are a text that is not empty, and the placeholder when they
    are null or the empty text; and the full list of reviews of the
    entry. *)
Theorem analysis_request_built products product_data_list reviews_list requests i product :
  analysis_requests 0 products product_data_list reviews_list = Ok requests ->
  products !! i = Some product ->
  ∃ product_data reviews request,
    product_data_list !! i = Some product_data
    ∧ reviews_list !! i = Some reviews
    ∧ requests !! i = Some request
    ∧ req_reviews request = reviews
    ∧ (∀ t, d_product product_data ≫= rf_title = Some t -> req_title request = t)
    ∧ (d_product product_data ≫= rf_title = None -> req_title request = title product)
    ∧ (∀ l, d_product product_data ≫= rf_feature_bullets = Some (BulletList l) ->
         l ≠ [] ->
         req_description request
         = String.concat (String newline "") ((fun bullet => "- " ++ bullet) <$> l))
    ∧ (∀ s, d_product product_data ≫= rf_feature_bullets = Some (BulletText s) ->
         s ≠ "" -> req_description request = s)
    ∧ (d_product product_data ≫= rf_feature_bullets = Some BulletNull
       ∨ d_product product_data ≫= rf_feature_bullets = Some (BulletText "") ->
       req_description request = "No description available").
Proof.
  intros Hreqs Hp.
  destruct (analysis_requests_spec _ _ _ _ _ Hreqs) as [_ Hk].
  destruct (Hk i product Hp) as (pd & rv & Hpd & Hrv & Hreq). simpl in *.
  exists pd, rv, (analysis_request product pd rv).
  split; [done|]. split; [done|]. split; [done|]. split; [done|].
  unfold analysis_request; simpl.
  destruct (d_product pd) as [[t b]|]; simpl.
  - split; [by intros ? ->|]. split; [by intros ->|].
    split; [by intros l -> _|]. split.
    + intros s -> Hs. simpl. by destruct (String.eqb_spec s "").
    + by intros [->| ->].
  - split; [done|]. split; [done|]. split; [done|]. split; [done|]. by intros [?|?].
Qed.

Lemma analysis_request_built_witness :
  let product := RankFacts.entry "A" (Some 4.5%Q) (Some 200%Z) None in
  let product_data :=
    {| d_product := Some {| rf_title := Some (Some "Detail title");
                            rf_feature_bullets := Some (BulletList ["Light"; "Cheap"]) |};
       d_other_keys := [] |} in
  ∃ request,
    analysis_requests 0 [product] [product_data] [[0; 1]%nat] = Ok [request]
    ∧ req_title request = Some "Detail title"
    ∧ req_description request = "- Light" ++ String newline "- Cheap"
    ∧ req_reviews request = [0; 1]%nat.
Proof.
  intros product product_data.
  destruct (analysis_request_built [product] [product_data] [[0; 1]%nat]
              [analysis_request product product_data [0; 1]%nat] 0%nat product
              eq_refl eq_refl)
    as (pd & rv & request & Hpd & Hrv & Hreq & Hr & Ht & _ & Hd & _).
  injection Hpd as <-. injection Hrv as <-. injection Hreq as <-.
  exists (analysis_request product product_data [0; 1]%nat).
  split; [reflexivity|]. split; [by apply Ht|]. split; [|done].
  by rewrite (Hd ["Light"; "Cheap"]).
Defined.

Section Stages.
Context {W : Type}.
#[local] Abbreviation St := (@State W).
#[local] Abbreviation Task A := (St -> result A * St).

(** *** Positions of the results (C9) *)

Lemma collect_product_data_Ok (h : @Handlers W) times products (st : St)
    details reviews st' :
  collect_product_data h times products st = (Ok (details, reviews), st') ->
  ∃ st1,
    gather ((fun product => fetch_product_data_async h (asin product)) <$> products)
      times st = (Ok (Ok <$> details), st1)
    ∧ traverseM (fun product => fetch_reviews_async h (asin product)) products st1
      = (Ok reviews, st').
Proof.
  unfold collect_product_data.
  intros (results & st1 & Hg & H)%bindM_Ok.
  apply bindM_Ok in H as (details' & st2 & Hr & H).
  apply bindM_Ok in H as (reviews' & st3 & Ht & H).
  unfold raise_first_exception, liftM in Hr. injection Hr as Hr <-.
  unfold retM in H. injection H as <- <- <-.
  apply traverse_id_Ok in Hr as ->. by exists st1.
Qed.

Lemma analyze_all_products_Ok (h : @Handlers W) times products product_data_list
    reviews_list (st : St) analyses st' :
  analyze_all_products h times products product_data_list reviews_list st
  = (Ok analyses, st') ->
  ∃ requests,
    analysis_requests 0 products product_data_list reviews_list = Ok requests
    ∧ gather (analyze_with_gemini_async h <$> requests) times st
      = (Ok (Ok <$> analyses), st').
Proof.
  unfold analyze_all_products.
  intros (requests & st1 & Hreq & H)%bindM_Ok.
  apply bindM_Ok in H as (results & st2 & Hg & Hr).
  unfold liftM in Hreq. injection Hreq as Hreq <-.
  unfold raise_first_exception, liftM in Hr. injection Hr as Hr <-.
  apply traverse_id_Ok in Hr as ->. by exists requests.
Qed.

(** C9: in the output of each stage, element [i] is the result that the
    fetch (or the analysis) for shortlist entry [i] returned, and the output
    is as long as the shortlist, in whatever order the tasks of a [gather]
    end ([times]) and for the sequential review stage alike. *)
Theorem stage_outputs_positional (h : @Handlers W) (times : list nat)
    (products : list ShortlistEntry) :
  (∀ (st st' : St) details reviews,
     collect_product_data h times products st = (Ok (details, reviews), st') ->
     length details = length products
     ∧ length reviews = length products
     ∧ ∀ i product, products !! i = Some product ->
         (∃ st_i d, details !! i = Some d
            ∧ (fetch_product_data_async h (asin product) st_i).1 = Ok d)
         ∧ (∃ st_i r, reviews !! i = Some r
              ∧ (fetch_reviews_async h (asin product) st_i).1 = Ok r))
  ∧ (∀ (st st' : St) product_data_list reviews_list analyses,
       analyze_all_products h times products product_data_list reviews_list st
       = (Ok analyses, st') ->
       length analyses = length products
       ∧ ∀ i product, products !! i = Some product ->
           ∃ product_data reviews st_i a,
             product_data_list !! i = Some product_data
             ∧ reviews_list !! i = Some reviews
             ∧ analyses !! i = Some a
             ∧ (analyze_with_gemini_async h
                  (analysis_request product product_data reviews) st_i).1 = Ok a).
Proof.
  split.
  - intros st st' details reviews (st1 & Hg & Ht)%collect_product_data_Ok.
    destruct (gather_spec
      ((fun product => fetch_product_data_async h (asin product)) <$> products)
      times st) as (results & st1' & Hg' & Hlen & Hpos).
    rewrite Hg in Hg'. injection Hg' as <- <-.
    rewrite !length_fmap in Hlen.
    destruct (traverseM_spec _ _ _ _ _ Ht) as [Hlen' Hrev].
    split; [done|]. split; [done|].
    intros i product Hp. split.
    + destruct (Hpos i (fetch_product_data_async h (asin product))) as [st_i Hi].
      { by rewrite list_lookup_fmap, Hp. }
      rewrite list_lookup_fmap in Hi.
      destruct (details !! i) as [d|] eqn:Hd; [|done].
      exists st_i, d. split; [done|]. simpl in Hi. by injection Hi as <-.
    + destruct (Hrev i product Hp) as (st_i & r & ? & ?). by exists st_i, r.
  - intros st st' pdl rl analyses (requests & Hreq & Hg)%analyze_all_products_Ok.
    destruct (analysis_requests_spec _ _ _ _ _ Hreq) as [Hlenr Hk].
    destruct (gather_spec (analyze_with_gemini_async h <$> requests) times st)
      as (results & st1' & Hg' & Hlen & Hpos).
    rewrite Hg in Hg'. injection Hg' as <- <-.
    rewrite !length_fmap in Hlen.
    split; [congruence|].
    intros i product Hp.
    destruct (Hk i product Hp) as (pd & rv & Hpd & Hrv & Hri). simpl in *.
    destruct (Hpos i (analyze_with_gemini_async h (analysis_request product pd rv)))
      as [st_i Hi].
    { by rewrite list_lookup_fmap, Hri. }
    rewrite list_lookup_fmap in Hi.
    destruct (analyses !! i) as [a|] eqn:Ha; [|done].
    exists pd, rv, st_i, a. repeat split; try done.
    simpl in Hi. by injection Hi as <-.
Qed.

(** *** Failure of the detail stage (C1) *)

Lemma traverse_id_first_Raise {A} (results : list (result A)) i e :
  results !! i = Some (Raise e) ->
  (∀ j, (j < i)%nat -> ∃ a, results !! j = Some (Ok a)) ->
  traverse id results = Raise e.
Proof.
  revert i. induction results as [|r results IH]; intros i Hi Hbefore; [done|].
  destruct i as [|i]; simpl in *.
  - by injection Hi as ->.
  - destruct (Hbefore 0%nat) as [a Ha]; [lia|]. simpl in Ha. injection Ha as ->. simpl.
    rewrite (IH i Hi); [done|].
    intros j Hj. apply (Hbefore (S j)). lia.
Qed.

Lemma traverseM_invariant {A B} (I : St -> Prop) (f : A -> Task B) l (st : St) :
  (∀ a st, I st -> I (f a st).2) -> I st -> I (traverseM f l st).2.
Proof.
  intros Hkeep. revert st. induction l as [|a l IH]; intros st HI; simpl; [done|].
  unfold bindM at 1. pose proof (Hkeep a st HI) as H1.
  destruct (f a st) as [[b|e] st1]; [|done]. simpl in H1.
  unfold bindM at 1. pose proof (IH st1 H1) as H2.
  by destruct (traverseM f l st1) as [[bs|e] st2].
Qed.

(** The two acquisition stages write nothing and show nothing. *)
Lemma collect_product_data_trace (h : @Handlers W) times products (st : St) :
  trace (collect_product_data h times products st).2 = trace st.
Proof.
  unfold collect_product_data. unfold bindM at 1.
  pose proof (gather_invariant (fun s : St => trace s = trace st)
    ((fun product => fetch_product_data_async h (asin product)) <$> products)
    times st) as Hg.
  destruct (gather _ times st) as [[results|e] st1]; simpl in Hg.
  2: { apply Hg; [|done]. intros i task s [p [-> _]]%list_lookup_fmap_Some.
       unfold fetch_product_data_async. by destruct (rainforest_get_product_data _ _ _). }
  assert (Ht1 : trace st1 = trace st).
  { apply Hg; [|done]. intros i task s [p [-> _]]%list_lookup_fmap_Some.
    unfold fetch_product_data_async. by destruct (rainforest_get_product_data _ _ _). }
  unfold bindM at 1. unfold raise_first_exception, liftM.
  destruct (traverse id results) as [details|e]; [|done].
  unfold bindM at 1.
  pose proof (traverseM_invariant (fun s : St => trace s = trace st)
    (fun product => fetch_reviews_async h (asin product)) products st1) as Hr.
  destruct (traverseM _ products st1) as [[reviews|e] st2]; simpl in Hr |- *;
    apply Hr; try done.
  all: intros p s Hs; unfold fetch_reviews_async;
    by destruct (apify_get_product_reviews _ _ _) as [[?|?] ?].
Qed.

(** X25: what the detail stage does detect: when the fetch task of some entry
    raises, the stage raises that exception (the first one in shortlist
    order) before any review is fetched; the run then raises it too, after
    the two files of the search stage and nothing else: no detail result is
    written, analysed or reported.  A transport failure or a response other
    than 200 inside [get_product_data] is not of that kind: the method
    returns [{}] and does not raise. *)
Theorem detail_stage_fail_fast (h : @Handlers W) :
  (∀ times products (st st1 : St) results i e,
     gather ((fun product => fetch_product_data_async h (asin product)) <$> products)
       times st = (Ok results, st1) ->
     results !! i = Some (Raise e) ->
     (∀ j, (j < i)%nat -> ∃ d, results !! j = Some (Ok d)) ->
     collect_product_data h times products st = (Raise e, st1))
  ∧ (∀ search client_filters detail_times analysis_times (st st2 : St) raw w1 top e,
       search (world st) = (Ok raw, w1) ->
       Rank.shortlist client_filters raw = Ok (Some top) ->
       collect_product_data h detail_times top
         {| world := w1; heap := heap st;
            trace := (trace st ++ [SaveJson "serp_raw.json" (RawResults raw);
                                  SaveJson "serp_filtered.json" (Filtered top)])%list |}
       = (Raise e, st2) ->
       run h search client_filters detail_times analysis_times st = (Raise e, st2)
       ∧ trace st2 = (trace st ++ [SaveJson "serp_raw.json" (RawResults raw);
                                  SaveJson "serp_filtered.json" (Filtered top)])%list)
  ∧ (∀ (requests_get : option string -> W -> http_outcome * W) asin w,
       ∃ d, (get_product_data requests_get asin w).1 = Ok d
         ∧ (∀ msg, (requests_get asin w).1 = RequestException msg -> d = empty_record)
         ∧ (∀ status_code json, (requests_get asin w).1 = Response status_code json ->
              status_code ≠ 200%Z -> d = empty_record)).
Proof.
  split; [|split].
  - intros times products st st1 results i e Hg Hi Hbefore.
    unfold collect_product_data. unfold bindM at 1. rewrite Hg.
    unfold bindM at 1. unfold raise_first_exception, liftM.
    by rewrite (traverse_id_first_Raise results i e).
  - intros search client_filters detail_times analysis_times st st2 raw w1 top e
      Hsearch Hshort Hcollect.
    split.
    + unfold run. unfold bindM at 1. rewrite Hsearch.
      unfold Rank.shortlist in Hshort.
      destruct raw as [|c raw]; [done|].
      unfold bindM at 1; simpl.
      destruct (Rank.filter_products client_filters (c :: raw)) as [|p filtered];
        [done|].
      destruct (Rank.select_top_products (p :: filtered) 10) as [top'|] eqn:Hsel;
        [|done].
      simpl in Hshort. injection Hshort as ->.
      unfold bindM at 1. unfold liftM at 1.
      unfold bindM at 1; simpl.
      unfold bindM at 1. rewrite <- app_assoc. simpl. by rewrite Hcollect.
    + pose proof (collect_product_data_trace h detail_times top
        {| world := w1; heap := heap st;
           trace := (trace st ++ [SaveJson "serp_raw.json" (RawResults raw);
                                 SaveJson "serp_filtered.json" (Filtered top)])%list |}) as Ht.
      by rewrite Hcollect in Ht.
  - intros requests_get asin w. unfold get_product_data.
    destruct (requests_get asin w) as [[msg|status_code json] w']; simpl.
    + exists empty_record. by repeat split.
    + destruct (Z.eqb_spec status_code 200) as [->|Hne]; simpl.
      * destruct json as [data|]; eexists; repeat split; try done;
          by intros ? ? [= <- <-].
      * exists empty_record. by repeat split.
Qed.

(** *** Review objects (C10) *)

(** The reviews that a run fetches are new objects: their references are
    the next free locations, in order. *)
Lemma fetch_reviews_fresh (h : @Handlers W) products (st : St) reviews_list st' :
  traverseM (fun product => fetch_reviews_async h (asin product)) products st
  = (Ok reviews_list, st') ->
  trace st' = trace st
  ∧ ∃ new, heap st' = (heap st ++ new)%list
      ∧ concat reviews_list = seq (length (heap st)) (length new).
Proof.
  revert st reviews_list. induction products as [|p products IH]; intros st rl; simpl.
  - intros [= <- <-]. split; [done|]. exists []. by rewrite app_nil_r.
  - unfold bindM at 1. unfold fetch_reviews_async at 1.
    destruct (apify_get_product_reviews h (asin p) (world st)) as [[reviews|e] w'];
      [|done].
    unfold bindM at 1.
    destruct (traverseM _ products _) as [[rl'|e] st2] eqn:Ht; [|done].
    intros [= <- <-]. destruct (IH _ _ Ht) as (Htr & new & Hheap & Hcat). simpl in *.
    split; [done|]. exists (reviews ++ new)%list.
    rewrite Hheap, Hcat, app_assoc, !length_app. split; [done|].
    by rewrite seq_app.
Qed.

(** The heap after the loops that tag the reviews. *)
Fixpoint tagged_heap (products : list ShortlistEntry) (reviews : list (list nat))
  (objects : list ReviewDict) : list ReviewDict :=
  match products, reviews with
  | product :: products', review_list :: reviews' =>
      tagged_heap products' reviews'
        (foldl (fun objects review => alter (tag product) review objects) objects
           review_list)
  | _, _ => objects
  end.

Lemma tag_review_list_Ok serp_filtered i product review_list all_reviews (st : St) :
  serp_filtered !! i = Some product ->
  tag_review_list serp_filtered i review_list all_reviews st
  = (Ok (all_reviews ++ review_list)%list,
     {| world := world st;
        heap := foldl (fun objects review => alter (tag product) review objects)
                  (heap st) review_list;
        trace := trace st |}).
Proof.
  intros Hp. revert all_reviews st.
  induction review_list as [|review rest IH]; intros all_reviews st; simpl.
  - rewrite app_nil_r. by destruct st.
  - unfold bindM at 1. unfold liftM, index. rewrite Hp.
    unfold bindM at 1. rewrite IH. simpl. by rewrite <- app_assoc.
Qed.

Lemma tag_reviews_Ok serp_filtered i reviews all_reviews (st : St) :
  (i + length reviews ≤ length serp_filtered)%nat ->
  tag_reviews serp_filtered i reviews all_reviews st
  = (Ok (all_reviews ++ concat reviews)%list,
     {| world := world st;
        heap := tagged_heap (drop i serp_filtered) reviews (heap st);
        trace := trace st |}).
Proof.
  revert i all_reviews st.
  induction reviews as [|review_list reviews IH]; intros i all_reviews st Hlen; simpl.
  - rewrite app_nil_r. destruct st. by destruct (drop i serp_filtered).
  - simpl in Hlen.
    destruct (lookup_lt_is_Some_2 serp_filtered i) as [product Hp]; [lia|].
    unfold bindM at 1. rewrite (tag_review_list_Ok _ _ product) by done.
    rewrite IH by (simpl; lia). simpl.
    rewrite (drop_S _ _ _ Hp). by rewrite <- app_assoc.
Qed.

Lemma save_reviews_Ok serp_filtered reviews (st : St) :
  (length reviews ≤ length serp_filtered)%nat ->
  save_reviews serp_filtered reviews st
  = (Ok tt,
     {| world := world st;
        heap := tagged_heap serp_filtered reviews (heap st);
        trace := (trace st ++
                  [SaveJson "reviews.json"
                     (AllReviews (concat reviews)
                        (deref (tagged_heap serp_filtered reviews (heap st))
                           (concat reviews)))])%list |}).
Proof.
  intros Hlen. unfold save_reviews. unfold bindM.
  by rewrite tag_reviews_Ok.
Qed.

Lemma elem_of_concat {A} (x : A) (ls : list (list A)) :
  x ∈ concat ls <-> ∃ l, x ∈ l ∧ l ∈ ls.
Proof.
  rewrite list_elem_of_In, in_concat. split.
  - intros (l & Hl & Hx). exists l. by rewrite !list_elem_of_In.
  - intros (l & Hx & Hl). exists l. by rewrite <- !list_elem_of_In.
Qed.

(** Tagging changes the objects of the lists and no other. *)
Lemma foldl_alter_length (f : ReviewDict -> ReviewDict) refs (objects : list ReviewDict) :
  length (foldl (fun objects review => alter f review objects) objects refs)
  = length objects.
Proof.
  revert objects. induction refs as [|loc refs IH]; intros objects; simpl; [done|].
  by rewrite IH, length_alter.
Qed.

Lemma foldl_alter_notin (f : ReviewDict -> ReviewDict) refs (objects : list ReviewDict) loc :
  loc ∉ refs ->
  foldl (fun objects review => alter f review objects) objects refs !! loc
  = objects !! loc.
Proof.
  revert objects. induction refs as [|loc' refs IH]; intros objects Hn; simpl; [done|].
  apply not_elem_of_cons in Hn as [Hne Hn].
  rewrite IH by done. by rewrite list_lookup_alter_ne.
Qed.

Lemma foldl_alter_in (f : ReviewDict -> ReviewDict) refs (objects : list ReviewDict) loc :
  NoDup refs -> loc ∈ refs ->
  foldl (fun objects review => alter f review objects) objects refs !! loc
  = f <$> objects !! loc.
Proof.
  revert objects. induction refs as [|loc' refs IH]; intros objects Hnd Hin; simpl.
  - by apply elem_of_nil in Hin.
  - apply NoDup_cons in Hnd as [Hloc' Hnd].
    apply elem_of_cons in Hin as [->|Hin].
    + rewrite foldl_alter_notin by done. by rewrite list_lookup_alter_eq.
    + rewrite IH by done. rewrite list_lookup_alter_ne; [done|].
      by intros ->.
Qed.

Lemma tagged_heap_length products reviews (objects : list ReviewDict) :
  length (tagged_heap products reviews objects) = length objects.
Proof.
  revert reviews objects. induction products as [|p products IH];
    intros [|review_list reviews] objects; simpl; try done.
  by rewrite IH, foldl_alter_length.
Qed.

Lemma tagged_heap_notin products reviews (objects : list ReviewDict) loc :
  loc ∉ concat reviews -> tagged_heap products reviews objects !! loc = objects !! loc.
Proof.
  revert reviews objects. induction products as [|p products IH];
    intros [|review_list reviews] objects Hn; simpl; try done.
  simpl in Hn. apply not_elem_of_app in Hn as [Hn1 Hn2].
  rewrite IH by done. by apply foldl_alter_notin.
Qed.

Lemma tagged_heap_in products reviews (objects : list ReviewDict) i product review_list loc :
  NoDup (concat reviews) ->
  products !! i = Some product -> reviews !! i = Some review_list -> loc ∈ review_list ->
  tagged_heap products reviews objects !! loc = tag product <$> objects !! loc.
Proof.
  revert reviews objects i. induction products as [|p products IH];
    intros [|rl reviews] objects i Hnd Hp Hr Hin; try done.
  simpl in Hnd. apply NoDup_app in Hnd as (Hnd1 & Hdisj & Hnd2).
  destruct i as [|i]; simpl in *.
  - injection Hp as ->. injection Hr as ->.
    rewrite tagged_heap_notin by (by apply Hdisj).
    by apply foldl_alter_in.
  - rewrite (IH _ _ i) by done.
    rewrite foldl_alter_notin; [done|].
    intros Hin'. apply (Hdisj loc Hin').
    apply elem_of_concat. exists review_list. split; [done|].
    by eapply list_elem_of_lookup_2.
Qed.

(** A review carries the two keys with the values of [product]. *)
Definition tagged_by (product : ShortlistEntry) (review : ReviewDict) : Prop :=
  review !! "asin" = Some (value_of (asin product))
  ∧ review !! "product_title" = Some (value_of (title product)).

Lemma tag_tagged_by product review : tagged_by product (tag product review).
Proof.
  unfold tagged_by, tag. split.
  - rewrite lookup_insert_ne by done. by rewrite lookup_insert_eq.
  - by rewrite lookup_insert_eq.
Qed.

Lemma deref_Forall (P : ReviewDict -> Prop) (objects : list ReviewDict) refs :
  (∀ loc, loc ∈ refs -> ∃ r, objects !! loc = Some r ∧ P r) ->
  length (deref objects refs) = length refs ∧ Forall P (deref objects refs).
Proof.
  induction refs as [|loc refs IH]; intros H; [by split|].
  destruct (H loc) as (r & Hr & HPr); [left|].
  destruct IH as [Hlen HP]; [intros loc' Hloc'; apply H; by right|].
  change (deref objects (loc :: refs))
    with (match objects !! loc with
          | Some r => r :: deref objects refs
          | None => deref objects refs
          end).
  rewrite Hr. split; [simpl; by rewrite Hlen|by constructor].
Qed.

(** Once tagged, the objects of entry [i] carry the values of entry [i]. *)
Lemma tagged_heap_tagged_by products reviews (objects : list ReviewDict)
    i product review_list loc :
  NoDup (concat reviews) ->
  (∀ loc, loc ∈ concat reviews -> (loc < length objects)%nat) ->
  products !! i = Some product -> reviews !! i = Some review_list -> loc ∈ review_list ->
  ∃ r, tagged_heap products reviews objects !! loc = Some r ∧ tagged_by product r.
Proof.
  intros Hnd Hvalid Hp Hr Hin.
  destruct (lookup_lt_is_Some_2 objects loc) as [r0 Hr0].
  { apply Hvalid, elem_of_concat. exists review_list. split; [done|].
    by eapply list_elem_of_lookup_2. }
  exists (tag product r0). split; [|apply tag_tagged_by].
  by rewrite (tagged_heap_in _ _ _ i product review_list), Hr0.
Qed.

(** What an event says about the reviews it carries: they are the objects
    of the per-entry lists [reviews_list], each with the two keys of its
    entry. *)
Definition carries_tagged_reviews (top_products : list ShortlistEntry)
  (reviews_list : list (list nat)) (ev : event) : Prop :=
  match ev with
  | SaveJson _ (AllReviews refs reviews) =>
      refs = concat reviews_list
      ∧ length reviews = length refs
      ∧ Forall (fun review => ∃ product, product ∈ top_products ∧ tagged_by product review)
          reviews
  | AnalyzeReviews _ _ refs reviews =>
      ∃ i product,
        top_products !! i = Some product
        ∧ reviews_list !! i = Some refs
        ∧ length reviews = length refs
        ∧ Forall (tagged_by product) reviews
  | GenerateReport products _ refs reviews _ =>
      products = top_products
      ∧ refs = reviews_list
      ∧ Forall2 (fun review_list dicts => length dicts = length review_list)
          reviews_list reviews
      ∧ Forall2 (fun product dicts => Forall (tagged_by product) dicts)
          top_products reviews
  | _ => True
  end.

(** The heap that [tagged] describes: the objects of the lists exist, and
    those of entry [i] carry the keys of entry [i]. *)
Definition tagged (top_products : list ShortlistEntry) (reviews_list : list (list nat))
  (objects : list ReviewDict) : Prop :=
  ∀ i product review_list loc,
    top_products !! i = Some product -> reviews_list !! i = Some review_list ->
    loc ∈ review_list ->
    ∃ r, objects !! loc = Some r ∧ tagged_by product r.

Lemma tagged_save top_products reviews_list objects filename :
  length reviews_list = length top_products ->
  tagged top_products reviews_list objects ->
  carries_tagged_reviews top_products reviews_list
    (SaveJson filename
       (AllReviews (concat reviews_list) (deref objects (concat reviews_list)))).
Proof.
  intros Hlen Ht. simpl. split; [done|].
  apply (deref_Forall
    (fun review => ∃ product, product ∈ top_products ∧ tagged_by product review)).
  intros loc (review_list & Hloc & [i Hi]%list_elem_of_lookup_1)%elem_of_concat.
  destruct (lookup_lt_is_Some_2 top_products i) as [product Hp].
  { rewrite <- Hlen. by eapply lookup_lt_Some. }
  destruct (Ht i product review_list loc Hp Hi Hloc) as (r & Hr & Hby).
  exists r. split; [done|]. exists product. split; [|done].
  by eapply list_elem_of_lookup_2.
Qed.

Lemma tagged_report top_products reviews_list objects product_data analyses :
  length reviews_list = length top_products ->
  tagged top_products reviews_list objects ->
  carries_tagged_reviews top_products reviews_list
    (GenerateReport top_products product_data reviews_list
       (deref objects <$> reviews_list) analyses).
Proof.
  intros Hlen Ht. simpl. split; [done|]. split; [done|]. split.
  - apply Forall2_fmap_r, Forall_Forall2_diag, Forall_forall.
    intros review_list [i Hi]%list_elem_of_lookup_1.
    destruct (lookup_lt_is_Some_2 top_products i) as [product Hp].
    { rewrite <- Hlen. by eapply lookup_lt_Some. }
    apply (deref_Forall (tagged_by product)).
    intros loc Hloc. by eapply Ht.
  - apply Forall2_fmap_r. apply Forall2_same_length_lookup_2.
    { done. }
    intros i product review_list Hp Hi.
    apply (deref_Forall (tagged_by product)).
    intros loc Hloc. by eapply Ht.
Qed.

Lemma tagged_analysis top_products reviews_list objects i product product_data
    review_list :
  tagged top_products reviews_list objects ->
  top_products !! i = Some product -> reviews_list !! i = Some review_list ->
  let request := analysis_request product product_data review_list in
  carries_tagged_reviews top_products reviews_list
    (AnalyzeReviews (req_title request) (req_description request) (req_reviews request)
       (deref objects (req_reviews request))).
Proof.
  intros Ht Hp Hi. simpl. exists i, product. split; [done|]. split; [done|].
  apply (deref_Forall (tagged_by product)). intros loc Hloc. by eapply Ht.
Qed.

(** What holds of index [i] once its task has run, and from then on. *)
Lemma run_tasks_ran {A} (I : St -> Prop) (R : nat -> St -> Prop)
    (tasks : list (Task A)) order futures (st : St) :
  (∀ j (task : Task A) s, tasks !! j = Some task -> I s -> I (task s).2) ->
  (∀ i (task : Task A) s, tasks !! i = Some task -> I s -> R i (task s).2) ->
  (∀ i j (task : Task A) s, tasks !! j = Some task -> I s -> R i s -> R i (task s).2) ->
  I st ->
  ∀ i, i ∈ order -> (i < length tasks)%nat -> R i (run_tasks tasks order futures st).2.
Proof.
  intros HI Hrun Hkeep. revert futures st.
  induction order as [|j order IH]; intros futures st Hst i Hin Hlt.
  - by apply elem_of_nil in Hin.
  - cbn [run_tasks].
    match goal with
    | |- context [match ?x with Some _ => _ | None => _ end] =>
        destruct x as [task|] eqn:Htask
    end.
    + pose proof (HI j task st Htask Hst) as Hst'.
      pose proof (Hrun j task st Htask Hst) as Hj.
      destruct (task st) as [r st'] eqn:Ht. simpl in *.
      apply elem_of_cons in Hin as [->|Hin]; [|by apply IH].
      pose proof (run_tasks_invariant (fun s => I s ∧ R j s) tasks order
                    (<[j:=Some r]> futures) st') as Hinv.
      apply Hinv; [|done].
      intros k task' s Hk [Hs HR]. split; [by eapply HI|by eapply Hkeep].
    + apply elem_of_cons in Hin as [->|Hin]; [|by apply IH].
      apply lookup_ge_None in Htask. lia.
Qed.

(** The analysis stage leaves the objects as they are and calls the handler
    once per request, with the objects of that request. *)
Lemma analyze_all_products_effect (h : @Handlers W) times products product_data_list
    reviews_list (st : St) analyses st' :
  analyze_all_products h times products product_data_list reviews_list st
  = (Ok analyses, st') ->
  ∃ requests evs,
    analysis_requests 0 products product_data_list reviews_list = Ok requests
    ∧ heap st' = heap st
    ∧ trace st' = (trace st ++ evs)%list
    ∧ Forall (fun ev => ∃ request, request ∈ requests
                ∧ ev = AnalyzeReviews (req_title request) (req_description request)
                         (req_reviews request)
                         (deref (heap st) (req_reviews request))) evs
    ∧ ∀ request, request ∈ requests ->
        AnalyzeReviews (req_title request) (req_description request)
          (req_reviews request) (deref (heap st) (req_reviews request)) ∈ evs.
Proof.
  intros (requests & Hreq & Hg)%analyze_all_products_Ok.
  exists requests.
  set (I := fun s : St => heap s = heap st
       ∧ ∃ evs, trace s = (trace st ++ evs)%list
           ∧ Forall (fun ev => ∃ request, request ∈ requests
                       ∧ ev = AnalyzeReviews (req_title request)
                                (req_description request) (req_reviews request)
                                (deref (heap st) (req_reviews request))) evs).
  assert (HI : ∀ j (task : Task Analysis) s,
             (analyze_with_gemini_async h <$> requests) !! j = Some task ->
             I s -> I (task s).2).
  { intros i task s [request [-> Hr]]%list_lookup_fmap_Some (Hh & evs & Ht & Hevs).
    unfold analyze_with_gemini_async.
    destruct (gemini_analyze_reviews _ _ _ _ _) as [r w']. simpl.
    split; [done|].
    exists (evs ++ [AnalyzeReviews (req_title request) (req_description request)
                      (req_reviews request) (deref (heap s) (req_reviews request))])%list.
    split; [by rewrite Ht, app_assoc|].
    apply Forall_app. split; [done|]. constructor; [|done].
    exists request. split; [by eapply list_elem_of_lookup_2|]. by rewrite Hh. }
  assert (Hst : I st).
  { split; [done|]. exists []. by rewrite app_nil_r. }
  pose proof (gather_invariant I (analyze_with_gemini_async h <$> requests) times st
                HI Hst) as Hinv.
  rewrite Hg in Hinv. simpl in Hinv.
  destruct Hinv as (Hheap & evs & Htrace & Hevs).
  exists evs. repeat split; try done.
  intros request [i Hi]%list_elem_of_lookup_1.
  set (ev := AnalyzeReviews (req_title request) (req_description request)
               (req_reviews request) (deref (heap st) (req_reviews request))).
  set (R := fun (i : nat) (s : St) => ∀ request', requests !! i = Some request' ->
       AnalyzeReviews (req_title request') (req_description request')
         (req_reviews request') (deref (heap st) (req_reviews request'))
       ∈ drop (length (trace st)) (trace s)).
  assert (Hrun : ∀ k (task : Task Analysis) s,
             (analyze_with_gemini_async h <$> requests) !! k = Some task ->
             I s -> R k (task s).2).
  { intros k task s [request' [-> Hr]]%list_lookup_fmap_Some (Hh & evs' & Ht & _)
      request'' Hr''.
    assert (request'' = request') as -> by congruence.
    unfold analyze_with_gemini_async.
    destruct (gemini_analyze_reviews _ _ _ _ _) as [r w']. simpl.
    rewrite Ht, <- app_assoc, drop_app_length, Hh.
    apply elem_of_app. right. left. }
  assert (Hkeep : ∀ k j (task : Task Analysis) s,
             (analyze_with_gemini_async h <$> requests) !! j = Some task ->
             I s -> R k s -> R k (task s).2).
  { intros k j task s [request' [-> Hr]]%list_lookup_fmap_Some (Hh & evs' & Ht & _)
      HR request'' Hr''.
    specialize (HR request'' Hr'').
    unfold analyze_with_gemini_async.
    destruct (gemini_analyze_reviews _ _ _ _ _) as [r w']. simpl.
    rewrite Ht, <- app_assoc, drop_app_length.
    rewrite Ht, drop_app_length in HR.
    apply elem_of_app. by left. }
  pose proof (run_tasks_ran I R (analyze_with_gemini_async h <$> requests)
    (completion_order times (length (analyze_with_gemini_async h <$> requests)))
    (replicate (length (analyze_with_gemini_async h <$> requests)) None) st
    HI Hrun Hkeep Hst i) as Hran.
  unfold gather in Hg.
  destruct (run_tasks _ _ _ st) as [futures st''] eqn:Hrt.
  injection Hg as _ <-. simpl in Hran. unfold R in Hran.
  rewrite Htrace, drop_app_length in Hran.
  apply Hran; [| |done].
  - rewrite completion_order_perm, elem_of_seq, length_fmap.
    apply lookup_lt_Some in Hi. lia.
  - rewrite length_fmap. by eapply lookup_lt_Some.
Qed.

Lemma collect_product_data_objects (h : @Handlers W) times products (st : St)
    details reviews_list st' :
  collect_product_data h times products st = (Ok (details, reviews_list), st') ->
  length reviews_list = length products
  ∧ NoDup (concat reviews_list)
  ∧ (∀ loc, loc ∈ concat reviews_list -> (loc < length (heap st'))%nat).
Proof.
  intros (st1 & Hg & Ht)%collect_product_data_Ok.
  destruct (traverseM_spec _ _ _ _ _ Ht) as [Hlen _].
  destruct (fetch_reviews_fresh _ _ _ _ _ Ht) as (_ & new & Hheap & Hcat).
  split; [done|]. rewrite Hcat, Hheap. split; [apply NoDup_seq|].
  intros loc [_ Hloc]%elem_of_seq. rewrite length_app. lia.
Qed.

Lemma tagged_heap_tagged products reviews_list (objects : list ReviewDict) :
  NoDup (concat reviews_list) ->
  (∀ loc, loc ∈ concat reviews_list -> (loc < length objects)%nat) ->
  tagged products reviews_list (tagged_heap products reviews_list objects).
Proof. intros Hnd Hvalid i product review_list loc. by apply tagged_heap_tagged_by. Qed.

(** C10: in a run that completes, the review-saving step changes the review
    objects in place: from then on every object of the per-entry review
    lists carries the keys [asin] and [product_title] with the values of its
    shortlist entry; what is written to [reviews.json], every call of the
    analysis handler and the report generator receive these same objects
    (the references of the per-entry lists), with the two keys. *)
Theorem reviews_tagged_in_place (h : @Handlers W) search client_filters detail_times
    analysis_times (st st' : St) :
  run h search client_filters detail_times analysis_times st = (Ok Completed, st') ->
  ∃ top_products product_data_list reviews_list analyses evs,
    length reviews_list = length top_products
    ∧ trace st' = (trace st ++ evs)%list
    ∧ tagged top_products reviews_list (heap st')
    ∧ Forall (carries_tagged_reviews top_products reviews_list) evs
    ∧ (∃ reviews, SaveJson "reviews.json" (AllReviews (concat reviews_list) reviews) ∈ evs)
    ∧ (∀ i product refs,
         top_products !! i = Some product -> reviews_list !! i = Some refs ->
         ∃ product_title product_description reviews,
           AnalyzeReviews product_title product_description refs reviews ∈ evs)
    ∧ (∃ reviews, GenerateReport top_products product_data_list reviews_list reviews
                    analyses ∈ evs).
Proof.
  unfold run. intros H.
  apply bindM_Ok in H as (raw & s1 & Hsearch & H).
  destruct (search (world st)) as [r w1]. injection Hsearch as -> <-.
  destruct raw as [|c raw]; [done|].
  apply bindM_Ok in H as ([] & s2 & Hsave & H).
  unfold save_to_json, emit in Hsave. injection Hsave as <-. simpl in H.
  destruct (Rank.filter_products client_filters (c :: raw)) as [|p filtered]; [done|].
  apply bindM_Ok in H as (top & s3 & Hsel & H).
  unfold liftM in Hsel. injection Hsel as Hsel <-.
  apply bindM_Ok in H as ([] & s4 & Hsave & H).
  unfold save_to_json, emit in Hsave. injection Hsave as <-. simpl in H.
  apply bindM_Ok in H as ([pdl rl] & st2 & Hcollect & H).
  match type of Hcollect with
  | collect_product_data _ _ _ ?s = _ =>
      pose proof (collect_product_data_trace h detail_times top s) as Htrace2
  end.
  rewrite Hcollect in Htrace2. simpl in Htrace2.
  destruct (collect_product_data_objects _ _ _ _ _ _ _ Hcollect) as (Hlen & Hnd & Hvalid).
  apply bindM_Ok in H as ([] & s5 & Hsave & H).
  unfold save_to_json, emit in Hsave. injection Hsave as <-.
  apply bindM_Ok in H as ([] & s6 & Hsave & H).
  rewrite save_reviews_Ok in Hsave by (simpl; lia). injection Hsave as <-. simpl in H.
  apply bindM_Ok in H as (analyses & st3 & Han & H).
  destruct (analyze_all_products_effect _ _ _ _ _ _ _ _ Han)
    as (requests & evs & Hreq & Hheap3 & Htrace3 & Hevs & Hcalled).
  simpl in Hheap3, Htrace3.
  apply bindM_Ok in H as ([] & s7 & Hsave & H).
  unfold save_analyses in Hsave.
  apply bindM_Ok in Hsave as (with_context & s7' & Hctx & Hsave).
  unfold liftM in Hctx. injection Hctx as Hctx <-.
  unfold save_to_json, emit in Hsave. injection Hsave as <-.
  apply bindM_Ok in H as ([] & s8 & Hsave & H).
  unfold save_results in Hsave.
  unfold bindM at 1 2 3 in Hsave. unfold save_to_json at 1 2 3, emit in Hsave.
  simpl in Hsave.
  apply bindM_Ok in Hsave as ([] & s8' & Hsr & Hsave).
  rewrite save_reviews_Ok in Hsr by (simpl; lia). injection Hsr as <-.
  unfold save_analyses in Hsave. unfold bindM, liftM in Hsave. rewrite Hctx in Hsave.
  unfold save_to_json, emit in Hsave. injection Hsave as <-. simpl in H.
  apply bindM_Ok in H as ([] & s9 & Hrep & H).
  unfold generate_html_report in Hrep.
  apply bindM_Ok in Hrep as ([] & s9' & Hemit & Hrep).
  unfold emit in Hemit. injection Hemit as <-.
  unfold liftM in Hrep. injection Hrep as _ <-. simpl in H.
  apply bindM_Ok in H as ([] & s10 & Hlaunch & H).
  unfold emit in Hlaunch. injection Hlaunch as <-.
  unfold retM in H. injection H as <-. simpl.
  (* the heap after the first tagging, and after the second *)
  assert (Htag1 : tagged top rl (tagged_heap top rl (heap st2))).
  { by apply tagged_heap_tagged. }
  assert (Htag2 : tagged top rl (tagged_heap top rl (heap st3))).
  { apply tagged_heap_tagged; [done|]. intros loc Hloc.
    rewrite Hheap3, tagged_heap_length. by apply Hvalid. }
  exists top, pdl, rl, analyses. eexists. split; [done|].
  rewrite Htrace3, Htrace2. simpl.
  split.
  { rewrite <- !app_assoc. simpl. reflexivity. }
  split; [done|]. split; [|split; [|split]].
  - repeat first [ apply Forall_cons; split | apply Forall_app; split
                 | apply Forall_nil_2 ];
      try exact I; try (by apply tagged_save); try (by apply tagged_report).
    eapply Forall_impl; [exact Hevs|]. intros ev (request & Hin & ->).
    apply list_elem_of_lookup_1 in Hin as [i Hi].
    destruct (analysis_requests_spec _ _ _ _ _ Hreq) as [Hlenr Hk].
    destruct (lookup_lt_is_Some_2 top i) as [product Hp].
    { rewrite <- Hlenr. by eapply lookup_lt_Some. }
    destruct (Hk i product Hp) as (pd & rv & Hpd & Hrv & Hri). simpl in *.
    rewrite Hi in Hri. injection Hri as ->.
    by apply (tagged_analysis top rl _ i product pd rv).
  - eexists. do 3 right. left.
  - intros i product refs Hp Hrefs.
    destruct (analysis_requests_spec _ _ _ _ _ Hreq) as [Hlenr Hk].
    destruct (Hk i product Hp) as (pd & rv & Hpd & Hrv & Hri). simpl in *.
    assert (rv = refs) as -> by congruence.
    do 3 eexists. do 4 right. apply elem_of_app. left.
    apply (Hcalled (analysis_request product pd refs)).
    by eapply list_elem_of_lookup_2.
  - eexists. rewrite !elem_of_cons, !elem_of_app, !elem_of_cons.
    do 4 right. right. do 6 right. left. reflexivity.
Qed.

End Stages.

(** *** A sample world *)

(** The world counts the calls made to the providers. *)
Definition sample_detail (a : string) : DetailRecord :=
  {| d_product := Some {| rf_title := Some (Some ("Detail " ++ a));
                          rf_feature_bullets := Some (BulletList ["Light"; "Cheap"]) |};
     d_other_keys := ["request_info"] |}.

(** The request for [B] times out, a request without identifier is answered
    with 404, every other request with a product. *)
Definition sample_requests_get (asin : option string) (w : nat) : http_outcome * nat :=
  (match asin with
   | Some "B" => RequestException "timed out"
   | Some a => Response 200 (Some (sample_detail a))
   | None => Response 404 None
   end, S w).

Definition sample_review (text : string) : gmap string value :=
  {[ "reviewDescription" := VStr text ]}.

Definition sample_handlers : @Handlers nat :=
  {| rainforest_get_product_data := get_product_data sample_requests_get;
     apify_get_product_reviews :=
       fun asin w => (Ok [sample_review "good"; sample_review "bad"], S w);
     gemini_analyze_reviews := fun title description reviews w => (Ok (Some "text"), S w);
     report_generate := fun products product_data reviews analyses => Ok tt |}.

(** Handlers whose detail call raises for [B]. *)
Definition raising_handlers : @Handlers nat :=
  {| rainforest_get_product_data :=
       fun asin w =>
         match asin with
         | Some "B" => (Raise (ProviderError "executor is shut down"), S w)
         | _ => get_product_data sample_requests_get asin w
         end;
     apify_get_product_reviews := apify_get_product_reviews sample_handlers;
     gemini_analyze_reviews := gemini_analyze_reviews sample_handlers;
     report_generate := report_generate sample_handlers |}.

Definition sample_state : @State nat := {| world := 0%nat; heap := []; trace := [] |}.

Definition sample_raw : list Candidate :=
  [RankFacts.candidate "A" (Some 4.5%Q) (Some 200%Z) (Some (PriceStr "$20.00"));
   RankFacts.candidate "B" (Some 4.5%Q) (Some 200%Z) (Some (PriceStr "$15.00"));
   RankFacts.candidate "C" (Some 4%Q) (Some 12%Z) (Some (PriceStr "$9.50"))].

Definition sample_search : @call nat (list Candidate) := fun w => (Ok sample_raw, S w).

Definition sample_shortlist : list ShortlistEntry :=
  [RankFacts.entry "B" (Some 4.5%Q) (Some 200%Z) (Some (PriceStr "$15.00"));
   RankFacts.entry "A" (Some 4.5%Q) (Some 200%Z) (Some (PriceStr "$20.00"));
   RankFacts.entry "C" (Some 4%Q) (Some 12%Z) (Some (PriceStr "$9.50"))].

Lemma pair_with_snd {A B} (p : A * B) a : p.1 = a -> p = (a, p.2).
Proof. destruct p. simpl. by intros ->. Qed.

(** C1, failing input: the request for the first shortlist entry fails in
    transport.  [get_product_data] returns [{}] for it, so no task of the
    detail stage raises: the stage returns, with [{}] in that position
    beside the results of the other entries, and the run completes and
    writes this list, where the claim has the stage fail and the run
    abort. *)
Theorem transport_failure_not_detected :
  let outcome := run sample_handlers sample_search RankFacts.no_filters
                   [2; 0; 1]%nat [0; 0; 0]%nat sample_state in
  (sample_requests_get (Some "B") 1%nat).1 = RequestException "timed out"
  ∧ Rank.shortlist RankFacts.no_filters sample_raw = Ok (Some sample_shortlist)
  ∧ (collect_product_data sample_handlers [2; 0; 1]%nat sample_shortlist sample_state).1
    = Ok ([empty_record; sample_detail "A"; sample_detail "C"],
          [[0; 1]; [2; 3]; [4; 5]]%nat)
  ∧ outcome.1 = Ok Completed
  ∧ trace outcome.2 !! 2%nat
    = Some (SaveJson "rainforest_products.json"
              (ProductData [empty_record; sample_detail "A"; sample_detail "C"])).
Proof. repeat split; vm_compute; reflexivity. Qed.

Lemma detail_stage_fail_fast_witness :
  collect_product_data raising_handlers [2; 0; 1]%nat sample_shortlist sample_state
  = (Raise (ProviderError "executor is shut down"),
     {| world := 3%nat; heap := []; trace := [] |}).
Proof.
  eapply (proj1 (detail_stage_fail_fast raising_handlers)) with (i := 0%nat).
  - vm_compute. reflexivity.
  - reflexivity.
  - intros j Hj. lia.
Defined.

Lemma stage_outputs_positional_witness :
  let outcome :=
    collect_product_data sample_handlers [2; 0; 1]%nat sample_shortlist sample_state in
  ∃ details reviews,
    outcome.1 = Ok (details, reviews)
    ∧ length details = 3%nat ∧ length reviews = 3%nat
    ∧ ∀ i product, sample_shortlist !! i = Some product ->
        (∃ st_i d, details !! i = Some d
           ∧ (fetch_product_data_async sample_handlers (asin product) st_i).1 = Ok d)
        ∧ (∃ st_i r, reviews !! i = Some r
             ∧ (fetch_reviews_async sample_handlers (asin product) st_i).1 = Ok r).
Proof.
  intros outcome.
  exists [empty_record; sample_detail "A"; sample_detail "C"],
         [[0; 1]; [2; 3]; [4; 5]]%nat.
  split; [vm_compute; reflexivity|].
  apply (proj1 (stage_outputs_positional sample_handlers [2; 0; 1]%nat sample_shortlist)
           sample_state outcome.2).
  apply pair_with_snd. vm_compute. reflexivity.
Defined.

Lemma reviews_tagged_in_place_witness :
  let outcome := run sample_handlers sample_search RankFacts.no_filters
                   [2; 0; 1]%nat [0; 0; 0]%nat sample_state in
  ∃ top_products product_data_list reviews_list analyses evs,
    length reviews_list = length top_products
    ∧ trace outcome.2 = (trace sample_state ++ evs)%list
    ∧ tagged top_products reviews_list (heap outcome.2)
    ∧ Forall (carries_tagged_reviews top_products reviews_list) evs
    ∧ (∃ reviews, SaveJson "reviews.json" (AllReviews (concat reviews_list) reviews) ∈ evs)
    ∧ (∀ i product refs,
         top_products !! i = Some product -> reviews_list !! i = Some refs ->
         ∃ product_title product_description reviews,
           AnalyzeReviews product_title product_description refs reviews ∈ evs)
    ∧ (∃ reviews, GenerateReport top_products product_data_list reviews_list reviews
                    analyses ∈ evs).
Proof.
  intros outcome.
  apply (reviews_tagged_in_place sample_handlers sample_search RankFacts.no_filters
           [2; 0; 1]%nat [0; 0; 0]%nat sample_state outcome.2).
  apply pair_with_snd. vm_compute. reflexivity.
Defined.

(** The review objects of the sample run, as the report generator gets
    them. *)
Example sample_run_report :
  let outcome := run sample_handlers sample_search RankFacts.no_filters
                   [2; 0; 1]%nat [0; 0; 0]%nat sample_state in
  heap outcome.2 !! 0%nat
  = Some (<["product_title" := VStr "Product B"]>
            (<["asin" := VStr "B"]> (sample_review "good"))).
Proof. vm_compute. reflexivity. Qed.

End OrchestratorFacts.

(** ** More on the filter and the ranking *)

Module ShortlistFacts.
Import PyStr Rank RankFacts.

(** *** The filter loop: nothing that passes is lost *)

Lemma filter_loop_complete f seen raw c :
  c ∈ raw -> passes f c = true -> c_asin c ∉ seen ->
  ∃ e, e ∈ filter_loop f seen raw ∧ asin e = c_asin c.
Proof.
  revert seen. induction raw as [|product rest IH]; intros seen Hin Hp Hs.
  - by apply elem_of_nil in Hin.
  - simpl. destruct (decide (c_asin product ∈ seen)) as [Hseen|Hnew].
    + apply elem_of_cons in Hin as [->|Hin]; [done|]. by apply IH.
    + destruct (passes f product) eqn:Hpp.
      * destruct (decide (c_asin c = c_asin product)) as [Heq|Hne].
        -- exists (project product). split; [left|done].
        -- apply elem_of_cons in Hin as [->|Hin]; [done|].
           destruct (IH ({[c_asin product]} ∪ seen) Hin Hp) as (e & He & Ha).
           { apply not_elem_of_union. split; [|done]. by apply not_elem_of_singleton. }
           exists e. split; [by right|done].
      * apply elem_of_cons in Hin as [->|Hin]; [congruence|]. by apply IH.
Qed.

Lemma filter_loop_sublist f seen raw :
  filter_loop f seen raw `sublist_of` project <$> filter (λ c, passes f c) raw.
Proof.
  revert seen. induction raw as [|product rest IH]; intros seen; simpl; [done|].
  rewrite filter_cons.
  destruct (decide (c_asin product ∈ seen)) as [Hseen|Hnew].
  - destruct (decide (passes f product)); [|apply IH].
    rewrite fmap_cons. apply sublist_cons, IH.
  - destruct (passes f product) eqn:Hpp.
    + rewrite decide_True by done. rewrite fmap_cons. apply sublist_skip, IH.
    + rewrite decide_False by (by intros []). apply IH.
Qed.

Lemma filter_loop_all f seen raw :
  Forall (λ c, passes f c = true) raw -> NoDup (c_asin <$> raw) ->
  (∀ c, c ∈ raw -> c_asin c ∉ seen) ->
  filter_loop f seen raw = project <$> raw.
Proof.
  revert seen. induction raw as [|product rest IH]; intros seen Hp Hnd Hs; [done|].
  apply Forall_cons in Hp as [Hpp Hp]. rewrite fmap_cons in Hnd.
  apply NoDup_cons in Hnd as [Hfresh Hnd].
  rewrite filter_loop_step by (apply Hs; left). rewrite Hpp, fmap_cons. f_equal.
  apply IH; [done..|]. intros c Hc. apply not_elem_of_union. split.
  - apply not_elem_of_singleton. intros Heq. apply Hfresh. rewrite <- Heq.
    apply list_elem_of_fmap. by exists c.
  - apply Hs. by right.
Qed.

(** The filter keeps nothing exactly when no candidate passes. *)
Lemma filter_products_nil f raw :
  filter_products f raw = [] <-> Forall (λ c, passes f c = false) raw.
Proof.
  split.
  - intros Hnil. apply Forall_forall. intros c Hc.
    destruct (passes f c) eqn:Hp; [|done].
    destruct (filter_loop_complete f ∅ raw c Hc Hp) as (e & He & _); [set_solver|].
    unfold filter_products in Hnil. rewrite Hnil in He. by apply elem_of_nil in He.
  - intros Hall. unfold filter_products. generalize (∅ : gset (option string)).
    induction Hall as [|c raw Hc _ IH]; intros seen; simpl; [done|].
    destruct (decide _); [done|]. by rewrite Hc.
Qed.

(** X1: the filter loses no identifier and keeps the order of the input.
    Every candidate that passes is represented in the output by an entry with
    its identifier; the output is a subsequence of the projections of the
    passing candidates, in input order; and when every candidate passes and
    the identifiers are pairwise distinct, the output is the projection of
    the whole input. *)
Theorem filter_products_complete f raw :
  (∀ c, c ∈ raw -> passes f c = true ->
     ∃ e, e ∈ filter_products f raw ∧ asin e = c_asin c)
  ∧ filter_products f raw `sublist_of` project <$> filter (λ c, passes f c) raw
  ∧ (Forall (λ c, passes f c = true) raw -> NoDup (c_asin <$> raw) ->
     filter_products f raw = project <$> raw).
Proof.
  split; [|split].
  - intros c Hc Hp. apply filter_loop_complete; [done..|set_solver].
  - apply filter_loop_sublist.
  - intros Hp Hnd. apply filter_loop_all; [done..|set_solver].
Qed.

(** *** The size of the selection *)

Lemma shortlist_NoDup f raw limit top :
  select_top_products (filter_products f raw) limit = Ok top ->
  NoDup (asin <$> top)
  ∧ length top = (limit `min` length (filter_products f raw))%nat.
Proof.
  intros (keyed & _ & _ & -> & Hperm)%select_top_products_ranked_take.
  rewrite fmap_take. split.
  - rewrite fmap_take. eapply sublist_NoDup; [|apply sublist_take].
    rewrite Hperm. apply filter_loop_NoDup.
  - by rewrite length_take, Hperm.
Qed.

(** X2: a selection that returns has [min limit n] entries for [n] products,
    all of them entries of the input, none taken more often than it occurs
    there; when the limit is not below [n] it is a rearrangement of the
    input. *)
Theorem select_top_products_size products limit top :
  select_top_products products limit = Ok top ->
  length top = (limit `min` length products)%nat
  ∧ top ⊆+ products
  ∧ ((length products ≤ limit)%nat -> top ≡ₚ products).
Proof.
  intros (keyed & _ & _ & -> & Hperm)%select_top_products_ranked_take.
  rewrite fmap_take. split; [|split].
  - by rewrite length_take, Hperm.
  - rewrite <- Hperm. apply sublist_submseteq, sublist_take.
  - intros Hle. rewrite take_ge; [done|]. by rewrite Hperm.
Qed.

Lemma select_top_products_size_witness :
  let a := entry "A" (Some 4.5%Q) (Some 200%Z) (Some (PriceStr "$20.00")) in
  let b := entry "B" (Some 4.5%Q) (Some 200%Z) (Some (PriceStr "$15.00")) in
  let c := entry "C" (Some 4.8%Q) (Some 12%Z) None in
  select_top_products [a; b; c] 2 = Ok [c; b]
  ∧ length [c; b] = (2 `min` length [a; b; c])%nat
  ∧ [c; b] ⊆+ [a; b; c].
Proof.
  intros a b c.
  assert (H : select_top_products [a; b; c] 2 = Ok [c; b]) by (vm_compute; reflexivity).
  split; [exact H|].
  destruct (select_top_products_size _ _ _ H) as (Hlen & Hsub & _). by split.
Defined.

(** *** The order of the input *)

Lemma consistent_determined keyed keyed' :
  consistent keyed -> consistent keyed' -> keyed.*2 = keyed'.*2 -> keyed = keyed'.
Proof.
  intros Hc. revert keyed'. induction Hc as [|[k p] keyed Hk _ IH]; intros keyed' Hc' Heq.
  - by destruct keyed'.
  - destruct Hc' as [|[k' p'] keyed' Hk' Hc']; [done|].
    rewrite !fmap_cons in Heq. simpl in *. injection Heq as -> Heq.
    rewrite Hk in Hk'. injection Hk' as ->. f_equal. by apply IH.
Qed.

Lemma consistent_filter (P : key * ShortlistEntry -> Prop) `{∀ y, Decision (P y)} keyed :
  consistent keyed -> consistent (filter P keyed).
Proof.
  unfold consistent. induction 1 as [|y keyed Hy _ IH]; [constructor|].
  rewrite filter_cons. destruct (decide (P y)); [by constructor|done].
Qed.



(** *** Prices that the ranking can read *)

(** The number of characters of [s] that [keep] accepts. *)
Fixpoint count_chars (keep : ascii -> bool) (s : string) : nat :=
  match s with
  | EmptyString => 0
  | String c s' => if keep c then S (count_chars keep s') else count_chars keep s'
  end.

Definition dots (s : string) : nat := count_chars (fun c => Ascii.eqb c ".") s.
Definition digits (s : string) : nat := count_chars isdigit s.

(** A price that [sort_key] can turn into a number: [None], a number, or a
    string with no decimal point, or with one decimal point and a digit. *)
Definition readable_price (p : ShortlistEntry) : Prop :=
  ∀ s, price p = Some (PriceStr s) -> dots s = 0%nat ∨ (dots s = 1%nat ∧ (1 ≤ digits s)%nat).

Lemma isdigit_not_dot c : isdigit c = true -> Ascii.eqb c "." = false.
Proof. destruct (Ascii.eqb_spec c ".") as [->|]; [by vm_compute|done]. Qed.

Lemma decimal_digits_strip_price s (dot : bool) num den count :
  let seen := ((if dot then 1 else 0) + dots s)%nat in
  ((seen ≤ 1)%nat ->
   ∃ num' den', decimal_digits (strip_price s) dot num den count
                = Some (num', den', (count + digits s)%nat))
  ∧ ((2 ≤ seen)%nat -> decimal_digits (strip_price s) dot num den count = None).
Proof.
  revert dot num den count.
  induction s as [|c s IH]; intros dot num den count; unfold dots, digits in *; simpl.
  - split.
    + intros _. exists num, den. by rewrite Nat.add_0_r.
    + destruct dot; simpl; lia.
  - unfold strip_price in *. simpl.
    destruct (isdigit c) eqn:Hd; simpl.
    + rewrite (isdigit_not_dot c Hd), Hd.
      destruct (IH dot (10 * num + digit_value c)%Z
                  (if dot then (10 * den)%positive else den) (S count)) as [IH1 IH2].
      split.
      * intros Hle. destruct (IH1 Hle) as (num' & den' & ->).
        exists num', den'. do 2 f_equal. lia.
      * done.
    + destruct (Ascii.eqb c ".") eqn:Hdot; simpl.
      * rewrite Hd, Hdot. destruct dot.
        -- split; [lia|done].
        -- destruct (IH true num den count) as [IH1 IH2]. split.
           ++ intros Hle. apply IH1. simpl in *. lia.
           ++ intros Hge. apply IH2. simpl in *. lia.
      * apply IH.
Qed.

Lemma strip_price_empty s :
  strip_price s = "" <-> dots s = 0%nat ∧ digits s = 0%nat.
Proof.
  unfold strip_price, dots, digits. induction s as [|c s IH]; simpl; [done|].
  destruct (isdigit c) eqn:Hd; simpl.
  - rewrite (isdigit_not_dot c Hd). split; [done|lia].
  - destruct (Ascii.eqb c "."); simpl; [split; [done|lia]|done].
Qed.

Lemma float_strip_price s :
  (∃ q, float (strip_price s) = Ok q)
  <-> (dots s ≤ 1)%nat ∧ (1 ≤ digits s)%nat.
Proof.
  unfold float.
  destruct (decimal_digits_strip_price s false 0 1 0) as [H1 H2]. simpl in H1, H2.
  destruct (decide (dots s ≤ 1)%nat) as [Hle|Hgt].
  - destruct (H1 Hle) as (num & den & ->).
    destruct (digits s) as [|n]; simpl.
    + split; [by intros [q ?]|lia].
    + split; [intros _; split; [done|lia]|intros _; by eexists].
  - rewrite H2 by lia. split; [by intros [q ?]|lia].
Qed.

Lemma sort_key_Ok_readable p :
  ((∃ k, sort_key p = Ok k) <-> readable_price p)
  ∧ (∀ e, sort_key p = Raise e ->
       ∃ s, price p = Some (PriceStr s)
         ∧ e = ValueError ("could not convert string to float: " ++ strip_price s)).
Proof.
  unfold sort_key, readable_price.
  destruct (price p) as [[s|q]|]; simpl.
  2,3: split; [split; [done|by eexists]|done].
  destruct (String.eqb_spec (strip_price s) "") as [He|Hne].
  { split; [|done]. split; [|by eexists].
    intros _ s' [= <-]. left. by apply strip_price_empty in He as [? _]. }
  pose proof (float_strip_price s) as Hf.
  assert (Hnz : ¬ (dots s = 0%nat ∧ digits s = 0%nat)) by by rewrite <- strip_price_empty.
  destruct (float (strip_price s)) as [q|e] eqn:Hq; simpl.
  - split; [|done]. split; [|by eexists].
    intros _ s' [= <-]. destruct Hf as [Hf _]. destruct Hf as [Hd Hn]; [by eexists|]. lia.
  - split.
    + split; [by intros [k ?]|]. intros Hr. destruct (Hr s eq_refl) as [Hz|[Ho Hn]].
      * destruct Hf as [_ [q ?]]; [lia|done].
      * destruct Hf as [_ [q ?]]; [lia|done].
    + intros e' [= <-]. exists s. split; [done|].
      unfold float in Hq.
      destruct (decimal_digits _ _ _ _ _) as [[[num den] [|n]]|]; by inversion Hq.
Qed.

Lemma traverse_decorate_Raise ps p :
  p ∈ ps -> ¬ readable_price p -> ∃ msg, traverse decorate ps = Raise (ValueError msg).
Proof.
  intros Hin Hbad. induction ps as [|p' ps IH]; [by apply elem_of_nil in Hin|].
  simpl. unfold decorate at 1.
  destruct (sort_key p') as [k|e] eqn:Hk; simpl.
  - apply elem_of_cons in Hin as [->|Hin].
    + exfalso. apply Hbad. apply (proj1 (sort_key_Ok_readable p')). by eexists.
    + destruct (IH Hin) as [msg ->]. by exists msg.
  - destruct (proj2 (sort_key_Ok_readable p') e Hk) as (s & _ & ->). by eexists.
Qed.


(** X5: one unreadable price anywhere in the input makes the whole selection
    raise a [ValueError], whatever the limit and wherever the entry would
    have been ranked: the keys of all products are computed before the list
    is cut. *)
Theorem unreadable_price_aborts_ranking products limit p :
  p ∈ products -> ¬ readable_price p ->
  ∃ msg, select_top_products products limit = Raise (ValueError msg).
Proof.
  intros Hin Hbad. destruct (traverse_decorate_Raise products p Hin Hbad) as [msg Hm].
  exists msg. unfold select_top_products. by rewrite Hm.
Qed.

Lemma unreadable_price_aborts_ranking_witness :
  let a := entry "A" (Some 4.5%Q) (Some 200%Z) (Some (PriceStr "$20.00")) in
  let b := entry "B" (Some 1%Q) (Some 1%Z) (Some (PriceStr "$19.99 ($1.99/Count)")) in
  ∃ msg, select_top_products [a; b] 1 = Raise (ValueError msg).
Proof.
  intros a b. apply (unreadable_price_aborts_ranking [a; b] 1 b).
  - right. left.
  - intros Hr. destruct (Hr _ eq_refl) as [Hz|[Ho _]]; vm_compute in *; lia.
Defined.

Lemma filter_products_complete_witness :
  let a := candidate "A" (Some 4.5%Q) (Some 200%Z) (Some (PriceStr "$20.00")) in
  let b := candidate "B" (Some 4%Q) (Some 12%Z) None in
  filter_products no_filters [a; b] = project <$> [a; b].
Proof.
  intros a b. apply (proj2 (proj2 (filter_products_complete no_filters [a; b]))).
  - by repeat constructor.
  - apply (bool_decide_unpack _). vm_compute. exact I.
Defined.

End ShortlistFacts.

(** ** More on the text primitives and the analysis parser *)

Module TextFacts.
Import PyStr.

Lemma startswith_nil s : startswith "" s = true.
Proof. by destruct s. Qed.

Lemma startswith_cons a p c s :
  startswith (String a p) (String c s)
  = if Ascii.ascii_dec a c then startswith p s else false.
Proof. reflexivity. Qed.

Lemma startswith_app p s : startswith p (p ++ s) = true.
Proof.
  induction p as [|c p IH]; [apply startswith_nil|].
  change (String c p ++ s) with (String c (p ++ s)). rewrite startswith_cons.
  by destruct (Ascii.ascii_dec c c).
Qed.

(** A text that does not contain the character [a] does not begin with
    it. *)
Lemma not_contains_char a c s :
  contains (String a "") (String c s) = false ->
  a ≠ c ∧ contains (String a "") s = false.
Proof.
  cbn [contains]. intros [Hp Hc]%orb_false_iff. split; [|done].
  intros ->. rewrite startswith_cons, startswith_nil in Hp.
  by destruct (Ascii.ascii_dec c c).
Qed.

Lemma contains_here p s : startswith p s = true -> contains p s = true.
Proof. intros H. destruct s; cbn [contains]; by rewrite H. Qed.

Lemma contains_app_r p pre s : contains p s = true -> contains p (pre ++ s) = true.
Proof.
  intros H. induction pre as [|c pre IH]; [done|].
  change (String c pre ++ s) with (String c (pre ++ s)). cbn [contains].
  rewrite IH. apply orb_true_r.
Qed.

(** A text in which the pattern stands between any two texts contains it. *)
Lemma contains_middle p pre post : contains p (pre ++ p ++ post) = true.
Proof. apply contains_app_r, contains_here, startswith_app. Qed.

Lemma contains_cons p c s :
  contains p (String c s) = false ->
  startswith p (String c s) = false ∧ contains p s = false.
Proof. cbn [contains]. by intros [? ?]%orb_false_iff. Qed.

Lemma lower_app s t : lower (s ++ t) = lower s ++ lower t.
Proof. induction s as [|c s IH]; simpl; [done|]. by rewrite IH. Qed.

(** [s.split(sep)] where [sep] does not occur in [s] is [[s]]. *)
Lemma split_absent sep s : contains sep s = false -> split sep s = [s].
Proof.
  unfold split. intros H.
  assert (Hs : split_from sep 0 s = (s, [])).
  { induction s as [|c s IH]; [done|].
    apply contains_cons in H as [Hp Hc]. cbn [split_from].
    rewrite Hp, (IH Hc). done. }
  by rewrite Hs.
Qed.

End TextFacts.

Module ReportTextFacts.
Import PyStr Parser ParserFacts TextFacts.

(** *** Bold markers *)

Lemma sub_bold_plain text : contains "**" text = false -> sub_bold 0 text = text.
Proof.
  induction text as [|c text IH]; [done|].
  intros [Hp Hc]%contains_cons. cbn [sub_bold]. rewrite Hp. by rewrite (IH Hc).
Qed.

Lemma startswith_bold_cons c s :
  contains "*" (String c s) = false -> ∀ rest, startswith "**" (String c rest) = false.
Proof.
  intros [Hne _]%not_contains_char rest. rewrite startswith_cons.
  by destruct (Ascii.ascii_dec "*" c).
Qed.

Lemma sub_bold_prefix pre text :
  contains "*" pre = false -> sub_bold 0 (pre ++ text) = pre ++ sub_bold 0 text.
Proof.
  induction pre as [|c pre IH]; [done|]. intros H.
  pose proof (startswith_bold_cons c pre H (pre ++ text)) as Hb.
  apply contains_cons in H as [_ Hc].
  change (String c pre ++ text) with (String c (pre ++ text)).
  cbn [sub_bold]. rewrite Hb. by rewrite (IH Hc).
Qed.

Lemma startswith_bold rest : startswith "**" (String "*" (String "*" rest)) = true.
Proof. by destruct rest. Qed.

Lemma bold_body_closed body rest :
  contains "*" body = false -> contains (String newline "") body = false ->
  bold_body (body ++ "**" ++ rest) = Some body.
Proof.
  induction body as [|c body IH]; intros Hs Hn.
  { change ("" ++ "**" ++ rest) with (String "*" (String "*" rest)).
    cbn [bold_body]. by rewrite startswith_bold. }
  pose proof (startswith_bold_cons c body Hs (body ++ "**" ++ rest)) as Hb.
  apply contains_cons in Hs as [_ Hs]. apply contains_cons in Hn as [Hnl Hn].
  change (String c body ++ "**" ++ rest) with (String c (body ++ "**" ++ rest)).
  cbn [bold_body]. rewrite Hb.
  assert (Hc : Ascii.eqb c newline = false).
  { destruct (Ascii.eqb_spec c newline) as [->|]; [|done].
    rewrite startswith_cons, startswith_nil in Hnl.
    by destruct (Ascii.ascii_dec newline newline). }
  rewrite Hc. by rewrite (IH Hs Hn).
Qed.

Lemma sub_bold_skip pre n text :
  sub_bold (String.length pre + n) (pre ++ text) = sub_bold n text.
Proof. induction pre as [|c pre IH]; [done|]. simpl. apply IH. Qed.

(** X6: what [_markdown_to_html] does to a text, piece by piece: a text
    without two asterisks in a row is returned as it is; a piece without
    asterisk in front of a text is kept and the rest converted; and a bold
    span, two asterisks around a body that has neither asterisk nor newline,
    becomes the body between [<strong>] and [</strong>], the conversion going
    on behind the closing asterisks. *)
Theorem markdown_to_html_pieces :
  (∀ text, contains "**" text = false -> _markdown_to_html text = text)
  ∧ (∀ pre text, contains "*" pre = false ->
       _markdown_to_html (pre ++ text) = pre ++ _markdown_to_html text)
  ∧ (∀ body rest,
       contains "*" body = false -> contains (String newline "") body = false ->
       _markdown_to_html ("**" ++ body ++ "**" ++ rest)
       = "<strong>" ++ body ++ "</strong>" ++ _markdown_to_html rest).
Proof.
  unfold _markdown_to_html. split; [|split].
  - apply sub_bold_plain.
  - apply sub_bold_prefix.
  - intros body rest Hs Hn.
    change ("**" ++ body ++ "**" ++ rest)
      with (String "*" (String "*" (body ++ "**" ++ rest))).
    cbn [sub_bold]. rewrite startswith_bold. cbn [tail]. rewrite (bold_body_closed body rest Hs Hn).
    do 3 f_equal.
    replace (3 + String.length body)%nat with (S (String.length body + 2)) by lia.
    cbn [sub_bold]. by rewrite sub_bold_skip.
Qed.

Lemma markdown_to_html_pieces_witness :
  _markdown_to_html "**Sound quality**: clear and loud"
  = "<strong>Sound quality</strong>: clear and loud".
Proof.
  destruct markdown_to_html_pieces as (Hplain & _ & Hbold).
  change (_markdown_to_html ("**" ++ "Sound quality" ++ "**" ++ ": clear and loud")
          = "<strong>" ++ "Sound quality" ++ "</strong>" ++ ": clear and loud").
  rewrite (Hbold "Sound quality" ": clear and loud") by (vm_compute; reflexivity).
  by rewrite (Hplain ": clear and loud") by (vm_compute; reflexivity).
Defined.

(** *** Placeholders *)

(** X7: a text in which one of the seven placeholder phrases occurs, in any
    mix of upper and lower case and with any text before and after it, is a
    placeholder: the test looks for the phrase anywhere in the lowered
    text, so an item that only mentions the phrase is suppressed with
    it. *)
Theorem placeholder_phrase_anywhere pattern phrase pre post :
  pattern ∈ placeholder_patterns -> lower phrase = pattern ->
  _is_placeholder_text (pre ++ phrase ++ post) = true.
Proof.
  intros Hin Hl. unfold _is_placeholder_text.
  apply existsb_exists. exists pattern. split; [by apply list_elem_of_In|].
  rewrite !lower_app, Hl. apply contains_middle.
Qed.

Lemma placeholder_phrase_anywhere_witness :
  _is_placeholder_text "A few buyers had No Major Concerns, most did" = true.
Proof.
  apply (placeholder_phrase_anywhere "no major concerns" "No Major Concerns"
           "A few buyers had " ", most did").
  - apply (bool_decide_unpack _). vm_compute. exact I.
  - vm_compute. reflexivity.
Defined.

(** *** The delimiter *)

(** X8: a response in which the text [**Product Concerns:**] does not occur
    gives two empty lists, whatever else it holds: without the delimiter
    the strengths are not read either. *)
Theorem parse_without_delimiter analysis_text :
  contains "**Product Concerns:**" analysis_text = false ->
  _parse_analysis_text analysis_text = ([], []).
Proof.
  intros H. unfold _parse_analysis_text.
  destruct (String.eqb analysis_text ""); [done|].
  by rewrite (split_absent _ _ H).
Qed.

Lemma parse_without_delimiter_witness :
  _parse_analysis_text
    ("**Product Strengths:**" ++ nl ++ "1. Sturdy" ++ nl ++ "2. Cheap" ++ nl ++
     "**Concerns:**" ++ nl ++ "1. Heavy")
  = ([], []).
Proof. apply parse_without_delimiter. vm_compute. reflexivity. Defined.

(** *** The items that the parser keeps *)

Lemma collect_items_elem lines seen items t :
  (∀ x, x ∈ seen <-> x ∈ items) ->
  t ∈ collect_items lines seen items <->
  t ∈ items ∨ (t ∈ omap item_text lines ∧ _is_placeholder_text t = false).
Proof.
  revert seen items. induction lines as [|line rest IH]; intros seen items Hseen.
  - simpl. split; [by left|]. by intros [?|[?%elem_of_nil _]].
  - rewrite collect_items_cons. cbn [omap list_omap].
    destruct (item_text line) as [h|]; [|by apply IH].
    destruct (bool_decide (h ∉ seen)) eqn:Hd; simpl.
    + apply bool_decide_eq_true in Hd.
      destruct (_is_placeholder_text h) eqn:Hph; simpl.
      * rewrite (IH _ _ Hseen), elem_of_cons. split; [tauto|].
        intros [?|[[->|?] ?]]; [tauto|congruence|tauto].
      * rewrite IH.
        -- rewrite elem_of_app, list_elem_of_singleton, elem_of_cons. split.
           ++ intros [[? | ->] | [? ?]]; [by left|right; split; [by left|done]|tauto].
           ++ intros [?|[[->|?] ?]]; tauto.
        -- intros x. rewrite elem_of_union, elem_of_singleton, elem_of_app,
             list_elem_of_singleton, Hseen. tauto.
    + apply bool_decide_eq_false in Hd. apply dec_stable in Hd.
      rewrite (IH _ _ Hseen), elem_of_cons. split; [tauto|].
      intros [?|[[->|?] ?]]; [tauto| |tauto]. left. by apply Hseen.
Qed.

Lemma collect_items_sublist lines seen items :
  ∃ kept, collect_items lines seen items = (items ++ kept)%list
    ∧ kept `sublist_of` omap item_text lines.
Proof.
  revert seen items. induction lines as [|line rest IH]; intros seen items.
  - exists []. by rewrite app_nil_r.
  - rewrite collect_items_cons. cbn [omap list_omap].
    destruct (item_text line) as [h|]; [|apply IH].
    destruct (bool_decide (h ∉ seen) && negb (_is_placeholder_text h)).
    + destruct (IH ({[h]} ∪ seen) (items ++ [h])%list) as (kept & -> & Hsub).
      exists (h :: kept). split; [by rewrite <- app_assoc|by apply sublist_skip].
    + destruct (IH seen items) as (kept & -> & Hsub).
      exists kept. split; [done|by apply sublist_cons].
Qed.

(** X9: of a response cut at the delimiter the parser keeps every item that
    is not a placeholder: a text is in the list of strengths exactly when it
    is the cleaned text of an item line of the strengths section and is not
    a placeholder, repetitions or not, and the list is a subsequence of the
    cleaned item texts, in line order; the same for the concerns. *)
Theorem parse_analysis_text_keeps analysis_text section0 section1 more :
  split "**Product Concerns:**" analysis_text = section0 :: section1 :: more ->
  (∀ t, t ∈ (_parse_analysis_text analysis_text).1
        <-> t ∈ strength_items section0 ∧ _is_placeholder_text t = false)
  ∧ (∀ t, t ∈ (_parse_analysis_text analysis_text).2
          <-> t ∈ concern_items section1 ∧ _is_placeholder_text t = false)
  ∧ (_parse_analysis_text analysis_text).1 `sublist_of` strength_items section0
  ∧ (_parse_analysis_text analysis_text).2 `sublist_of` concern_items section1.
Proof.
  intros Hsplit. unfold _parse_analysis_text.
  destruct (String.eqb_spec analysis_text "") as [->|_]; [by vm_compute in Hsplit|].
  rewrite Hsplit. cbn [fst snd].
  assert (Hempty : ∀ x : string, x ∈ (∅ : gset string) <-> x ∈ @nil string).
  { intros x. split; [by intros ?%not_elem_of_empty|by intros ?%elem_of_nil]. }
  split; [|split; [|split]].
  - intros t. rewrite (collect_items_elem _ ∅ [] t Hempty).
    split; [by intros [?%elem_of_nil|?]|by right].
  - intros t. rewrite (collect_items_elem _ ∅ [] t Hempty).
    split; [by intros [?%elem_of_nil|?]|by right].
  - match goal with |- collect_items ?l ∅ [] `sublist_of` _ =>
      destruct (collect_items_sublist l ∅ []) as (kept & -> & Hsub) end. done.
  - match goal with |- collect_items ?l ∅ [] `sublist_of` _ =>
      destruct (collect_items_sublist l ∅ []) as (kept & -> & Hsub) end. done.
Qed.

(** A response with a repeated strength and a placeholder concern. *)
Definition repetitive_response : string :=
  "**Product Strengths:**" ++ nl ++
  "1. Sturdy" ++ nl ++
  "- Sturdy" ++ nl ++
  "2. Cheap" ++ nl ++
  "**Product Concerns:**" ++ nl ++
  "1. No major concerns" ++ nl ++
  "2. Heavy".

Lemma parse_analysis_text_keeps_witness :
  _parse_analysis_text repetitive_response = (["Sturdy"; "Cheap"], ["Heavy"])
  ∧ ∀ t, t ∈ ["Sturdy"; "Cheap"]
         <-> t ∈ ["Sturdy"; "Sturdy"; "Cheap"] ∧ _is_placeholder_text t = false.
Proof.
  pose (sections := split "**Product Concerns:**" repetitive_response).
  pose (section0 := hd "" sections).
  pose (section1 := hd "" (List.tl sections)).
  destruct (parse_analysis_text_keeps repetitive_response section0 section1 [])
    as (Hs & _).
  - vm_compute. reflexivity.
  - split; [vm_compute; reflexivity|].
    intros t. specialize (Hs t).
    replace (_parse_analysis_text repetitive_response).1 with ["Sturdy"; "Cheap"] in Hs
      by (vm_compute; reflexivity).
    replace (strength_items section0) with ["Sturdy"; "Sturdy"; "Cheap"] in Hs
      by (vm_compute; reflexivity).
    exact Hs.
Defined.

End ReportTextFacts.

(** ** Facts about a whole run *)

Module RunFacts.
Import PyStr Orchestrator OrchestratorFacts ShortlistFacts.

Section Run.
Context {W : Type}.
#[local] Abbreviation St := (@State W).
#[local] Abbreviation Task A := (St -> result A * St).

(** *** Tagging twice *)

Lemma tag_tag product review : tag product (tag product review) = tag product review.
Proof.
  unfold tag. apply map_eq. intros k.
  destruct (decide (k = "product_title")) as [->|Ht];
    [|destruct (decide (k = "asin")) as [->|Ha]];
    repeat first [ rewrite lookup_insert_eq | rewrite lookup_insert_ne by congruence ];
    done.
Qed.

(** The second pass of the loops that tag the reviews changes nothing. *)
Lemma tagged_heap_idempotent products reviews (objects : list ReviewDict) :
  length reviews = length products -> NoDup (concat reviews) ->
  tagged_heap products reviews (tagged_heap products reviews objects)
  = tagged_heap products reviews objects.
Proof.
  intros Hlen Hnd. apply list_eq. intros loc.
  destruct (decide (loc ∈ concat reviews)) as [Hin|Hout].
  - apply elem_of_concat in Hin as (review_list & Hloc & [i Hi]%list_elem_of_lookup_1).
    destruct (lookup_lt_is_Some_2 products i) as [product Hp].
    { rewrite <- Hlen. by eapply lookup_lt_Some. }
    rewrite !(tagged_heap_in _ _ _ i product review_list) by done.
    destruct (objects !! loc) as [r|]; [|done]. simpl. by rewrite tag_tag.
  - by rewrite !tagged_heap_notin.
Qed.

(** *** The steps of a run that completes *)

Definition saved_raw (raw : list Candidate) : event :=
  SaveJson "serp_raw.json" (RawResults raw).
Definition saved_filtered (top : list ShortlistEntry) : event :=
  SaveJson "serp_filtered.json" (Filtered top).
Definition saved_products (product_data_list : list DetailRecord) : event :=
  SaveJson "rainforest_products.json" (ProductData product_data_list).
Definition saved_reviews (reviews_list : list (list nat)) (objects : list ReviewDict)
  : event :=
  SaveJson "reviews.json"
    (AllReviews (concat reviews_list) (deref objects (concat reviews_list))).
Definition saved_analyses (with_context : list (option string * option string * Analysis))
  : event :=
  SaveJson "gemini_analysis.json" (Analyses with_context).

Lemma run_Completed (h : @Handlers W) search client_filters detail_times analysis_times
    (st st' : St) :
  run h search client_filters detail_times analysis_times st = (Ok Completed, st') ->
  ∃ raw w1 top product_data_list reviews_list st2 analyses st3 with_context,
    search (world st) = (Ok raw, w1)
    ∧ raw ≠ []
    ∧ Rank.filter_products client_filters raw ≠ []
    ∧ Rank.select_top_products (Rank.filter_products client_filters raw) 10 = Ok top
    ∧ collect_product_data h detail_times top
        {| world := w1; heap := heap st;
           trace := (trace st ++ [saved_raw raw; saved_filtered top])%list |}
      = (Ok (product_data_list, reviews_list), st2)
    ∧ analyze_all_products h analysis_times top product_data_list reviews_list
        {| world := world st2; heap := tagged_heap top reviews_list (heap st2);
           trace := (trace st2 ++ [saved_products product_data_list;
                                   saved_reviews reviews_list
                                     (tagged_heap top reviews_list (heap st2))])%list |}
      = (Ok analyses, st3)
    ∧ heap st3 = tagged_heap top reviews_list (heap st2)
    ∧ analyses_with_context top 0 analyses = Ok with_context
    ∧ report_generate h top product_data_list
        (deref (tagged_heap top reviews_list (heap st3)) <$> reviews_list) analyses
      = Ok tt
    ∧ st' = {| world := world st3;
               heap := tagged_heap top reviews_list (heap st3);
               trace := (trace st3 ++
                         [saved_analyses with_context;
                          saved_raw raw; saved_filtered top;
                          saved_products product_data_list;
                          saved_reviews reviews_list
                            (tagged_heap top reviews_list (heap st3));
                          saved_analyses with_context;
                          GenerateReport top product_data_list reviews_list
                            (deref (tagged_heap top reviews_list (heap st3))
                               <$> reviews_list) analyses;
                          LaunchBrowser])%list |}.
Proof.
  unfold run. intros H.
  apply bindM_Ok in H as (raw & s1 & Hsearch & H).
  destruct (search (world st)) as [r w1] eqn:Hs. injection Hsearch as -> <-.
  destruct raw as [|c raw]; [done|].
  apply bindM_Ok in H as ([] & s2 & Hsave & H).
  unfold save_to_json, emit in Hsave. injection Hsave as <-. simpl in H.
  destruct (Rank.filter_products client_filters (c :: raw)) as [|p filtered] eqn:Hf;
    [done|].
  apply bindM_Ok in H as (top & s3 & Hsel & H).
  unfold liftM in Hsel. injection Hsel as Hsel <-.
  apply bindM_Ok in H as ([] & s4 & Hsave & H).
  unfold save_to_json, emit in Hsave. injection Hsave as <-. simpl in H.
  apply bindM_Ok in H as ([pdl rl] & st2 & Hcollect & H).
  destruct (collect_product_data_objects _ _ _ _ _ _ _ Hcollect) as (Hlen & Hnd & Hvalid).
  apply bindM_Ok in H as ([] & s5 & Hsave & H).
  unfold save_to_json, emit in Hsave. injection Hsave as <-.
  apply bindM_Ok in H as ([] & s6 & Hsave & H).
  rewrite save_reviews_Ok in Hsave by (simpl; lia). injection Hsave as <-. simpl in H.
  apply bindM_Ok in H as (analyses & st3 & Han & H).
  apply bindM_Ok in H as ([] & s7 & Hsave & H).
  unfold save_analyses in Hsave.
  apply bindM_Ok in Hsave as (with_context & s7' & Hctx & Hsave).
  unfold liftM in Hctx. injection Hctx as Hctx <-.
  unfold save_to_json, emit in Hsave. injection Hsave as <-.
  apply bindM_Ok in H as ([] & s8 & Hsave & H).
  unfold save_results in Hsave.
  unfold bindM at 1 2 3 in Hsave. unfold save_to_json at 1 2 3, emit in Hsave.
  simpl in Hsave.
  apply bindM_Ok in Hsave as ([] & s8' & Hsr & Hsave).
  rewrite save_reviews_Ok in Hsr by (simpl; lia). injection Hsr as <-.
  unfold save_analyses in Hsave. unfold bindM, liftM in Hsave. rewrite Hctx in Hsave.
  unfold save_to_json, emit in Hsave. injection Hsave as <-. simpl in H.
  apply bindM_Ok in H as ([] & s9 & Hrep & H).
  unfold generate_html_report in Hrep.
  apply bindM_Ok in Hrep as ([] & s9' & Hemit & Hrep).
  unfold emit in Hemit. injection Hemit as <-.
  unfold liftM in Hrep. injection Hrep as Hrep <-. simpl in H, Hrep.
  apply bindM_Ok in H as ([] & s10 & Hlaunch & H).
  unfold emit in Hlaunch. injection Hlaunch as <-.
  unfold retM in H. injection H as <-. simpl.
  destruct (analyze_all_products_effect _ _ _ _ _ _ _ _ Han)
    as (requests & evs & Hreq & Hheap3 & _). simpl in Hheap3.
  exists (c :: raw), w1, top, pdl, rl, st2, analyses, st3, with_context.
  unfold saved_raw, saved_filtered, saved_products, saved_reviews, saved_analyses.
  rewrite <- !app_assoc in *. simpl in *.
  repeat split; try done.
  - by rewrite Hf.
  - by rewrite Hf.
Qed.

(** *** The collections of a run that completes *)

Lemma collect_product_data_lengths (h : @Handlers W) times products (st : St)
    details reviews_list st' :
  collect_product_data h times products st = (Ok (details, reviews_list), st') ->
  length details = length products ∧ length reviews_list = length products.
Proof.
  intros (st1 & Hg & Ht)%collect_product_data_Ok.
  destruct (gather_spec
    ((fun product => fetch_product_data_async h (asin product)) <$> products)
    times st) as (results & st1' & Hg' & Hlen & _).
  rewrite Hg in Hg'. injection Hg' as <- <-. rewrite !length_fmap in Hlen.
  by destruct (traverseM_spec _ _ _ _ _ Ht) as [Hlen' _].
Qed.

Lemma analyze_all_products_length (h : @Handlers W) times products product_data_list
    reviews_list (st : St) analyses st' :
  analyze_all_products h times products product_data_list reviews_list st
  = (Ok analyses, st') ->
  length analyses = length products.
Proof.
  intros (requests & Hreq & Hg)%analyze_all_products_Ok.
  destruct (analysis_requests_spec _ _ _ _ _ Hreq) as [Hlenr _].
  destruct (gather_spec (analyze_with_gemini_async h <$> requests) times st)
    as (results & st1' & Hg' & Hlen & _).
  rewrite Hg in Hg'. injection Hg' as <- <-. rewrite !length_fmap in Hlen. congruence.
Qed.

Definition is_report (ev : event) : bool :=
  match ev with
  | GenerateReport _ _ _ _ _ => true
  | _ => false
  end.

(** X10: a run that completes hands the report generator, once, four
    collections of the same length: between one and ten shortlist entries
    with pairwise distinct identifiers, and for each of them a detail
    record, a list of reviews and an analysis; and the generator has
    returned. *)
Theorem run_report_aligned (h : @Handlers W) search client_filters detail_times
    analysis_times (st st' : St) :
  run h search client_filters detail_times analysis_times st = (Ok Completed, st') ->
  ∃ evs top product_data_list refs reviews analyses,
    trace st' = (trace st ++ evs)%list
    ∧ filter (λ ev, is_report ev) evs
      = [GenerateReport top product_data_list refs reviews analyses]
    ∧ (1 ≤ length top ≤ 10)%nat
    ∧ NoDup (asin <$> top)
    ∧ length product_data_list = length top
    ∧ length refs = length top
    ∧ length reviews = length top
    ∧ length analyses = length top
    ∧ report_generate h top product_data_list reviews analyses = Ok tt.
Proof.
  intros (raw & w1 & top & pdl & rl & st2 & analyses & st3 & ctx & Hsearch & Hraw & Hf
          & Hsel & Hcollect & Han & Hheap & Hctx & Hrep & ->)%run_Completed.
  destruct (collect_product_data_lengths _ _ _ _ _ _ _ Hcollect) as [Hlen1 Hlen2].
  pose proof (analyze_all_products_length _ _ _ _ _ _ _ _ Han) as Hlen3.
  pose proof (collect_product_data_trace h detail_times top
    {| world := w1; heap := heap st;
       trace := (trace st ++ [saved_raw raw; saved_filtered top])%list |}) as Htr2.
  rewrite Hcollect in Htr2. simpl in Htr2.
  destruct (analyze_all_products_effect _ _ _ _ _ _ _ _ Han)
    as (requests & evsA & _ & _ & Htr3 & HevsA & _). simpl in Htr3.
  destruct (shortlist_NoDup _ _ _ _ Hsel) as [Hnd Hlen].
  exists ([saved_raw raw; saved_filtered top; saved_products pdl;
           saved_reviews rl (tagged_heap top rl (heap st2))] ++ evsA ++
          [saved_analyses ctx; saved_raw raw; saved_filtered top; saved_products pdl;
           saved_reviews rl (tagged_heap top rl (heap st3)); saved_analyses ctx;
           GenerateReport top pdl rl (deref (tagged_heap top rl (heap st3)) <$> rl)
             analyses;
           LaunchBrowser])%list.
  eexists top, pdl, rl, _, analyses. cbn [trace].
  split; [|split; [|repeat split]].
  - rewrite Htr3, Htr2, <- !app_assoc. reflexivity.
  - rewrite (filter_app _ [_; _; _; _]), filter_app.
    assert (HA : filter (λ ev, is_report ev) evsA = []).
    { clear -HevsA. induction HevsA as [|ev evs (r & _ & ->) _ IH]; [done|].
      rewrite filter_cons. simpl. exact IH. }
    rewrite HA. reflexivity.
  - rewrite Hlen. destruct (Rank.filter_products client_filters raw); [done|]. simpl. lia.
  - rewrite Hlen. lia.
  - done.
  - done.
  - done.
  - by rewrite length_fmap.
  - done.
  - done.
Qed.

(** *** Runs that stop early *)

(** X11: when the search returns its list, the run completes unless no
    candidate passes the filter.  On an empty list it stops with nothing
    written; on a list of which no candidate passes it stops after
    [serp_raw.json]; in both cases no provider other than the search is
    called and no review object is made.  And a run that returns without
    completing is one of these two. *)
Theorem run_stops_early (h : @Handlers W) search client_filters detail_times
    analysis_times (st : St) raw w1 :
  search (world st) = (Ok raw, w1) ->
  (Forall (λ c, Rank.passes client_filters c = false) raw ->
   run h search client_filters detail_times analysis_times st
   = (Ok (match raw with [] => NoProducts | _ => NoSurvivors end),
      {| world := w1; heap := heap st;
         trace := (trace st ++ match raw with [] => [] | _ => [saved_raw raw] end)%list |}))
  ∧ (∀ status st',
       run h search client_filters detail_times analysis_times st = (Ok status, st') ->
       status ≠ Completed ->
       Forall (λ c, Rank.passes client_filters c = false) raw).
Proof.
  intros Hsearch. split.
  - intros Hnone%filter_products_nil. unfold run. unfold bindM at 1. rewrite Hsearch.
    destruct raw as [|c raw].
    + unfold retM. by rewrite app_nil_r.
    + unfold bindM at 1. unfold save_to_json, emit. cbn [world heap trace].
      by rewrite Hnone.
  - intros status st' H Hstatus. apply filter_products_nil.
    unfold run in H. unfold bindM at 1 in H. rewrite Hsearch in H.
    destruct raw as [|c raw]; [done|].
    unfold bindM at 1 in H. unfold save_to_json at 1, emit in H. cbn [world heap trace] in H.
    destruct (Rank.filter_products client_filters (c :: raw)) as [|p filtered]; [done|].
    exfalso. apply Hstatus.
    apply bindM_Ok in H as (top & s3 & _ & H).
    apply bindM_Ok in H as ([] & s4 & _ & H).
    apply bindM_Ok in H as ([pdl rl] & s5 & _ & H).
    apply bindM_Ok in H as ([] & s6 & _ & H).
    apply bindM_Ok in H as ([] & s7 & _ & H).
    apply bindM_Ok in H as (analyses & s8 & _ & H).
    apply bindM_Ok in H as ([] & s9 & _ & H).
    apply bindM_Ok in H as ([] & s10 & _ & H).
    apply bindM_Ok in H as ([] & s11 & _ & H).
    apply bindM_Ok in H as ([] & s12 & _ & H).
    unfold retM in H. by injection H as <- _.
Qed.

(** *** The browser *)

(** A step that may write and call, and does not launch the browser. *)
Definition quiet {A} (m : Task A) : Prop :=
  ∀ st : St, ∃ evs, trace (m st).2 = (trace st ++ evs)%list ∧ LaunchBrowser ∉ evs.

(** A run, or the rest of one: the browser is launched exactly when it
    completes. *)
Definition launches_iff_completed (m : Task run_status) : Prop :=
  ∀ st : St, ∃ evs, trace (m st).2 = (trace st ++ evs)%list
    ∧ (LaunchBrowser ∈ evs <-> (m st).1 = Ok Completed).

Lemma quiet_same {A} (m : Task A) : (∀ st : St, trace (m st).2 = trace st) -> quiet m.
Proof.
  intros H st. exists []. rewrite app_nil_r. split; [done|]. apply not_elem_of_nil.
Qed.

Lemma quiet_bind {A B} (m : Task A) (k : A -> Task B) :
  quiet m -> (∀ a, quiet (k a)) -> quiet (bindM m k).
Proof.
  intros Hm Hk st. unfold bindM. destruct (Hm st) as (evs & Ht & Hq).
  destruct (m st) as [[a|e] st1]; simpl in *; [|by exists evs].
  destruct (Hk a st1) as (evs' & Ht' & Hq'). exists (evs ++ evs')%list.
  rewrite Ht', Ht, app_assoc. split; [done|]. by apply not_elem_of_app.
Qed.

Lemma quiet_emit ev : ev ≠ LaunchBrowser -> quiet (emit ev).
Proof.
  intros Hne st. exists [ev]. split; [done|].
  intros Heq%list_elem_of_singleton. congruence.
Qed.

Lemma quiet_save data filename : quiet (save_to_json data filename).
Proof. by apply quiet_emit. Qed.

Lemma quiet_liftM {A} (r : result A) : quiet (liftM r).
Proof. by apply quiet_same. Qed.

Lemma quiet_retM {A} (a : A) : quiet (retM a).
Proof. by apply quiet_same. Qed.

Lemma tag_review_list_trace serp_filtered i review_list all_reviews (st : St) :
  trace (tag_review_list serp_filtered i review_list all_reviews st).2 = trace st.
Proof.
  revert all_reviews st. induction review_list as [|review rest IH]; intros all_reviews st;
    simpl; [done|].
  unfold bindM at 1. unfold liftM. destruct (index serp_filtered i); [|done].
  unfold bindM at 1. by rewrite IH.
Qed.

Lemma tag_reviews_trace serp_filtered i reviews all_reviews (st : St) :
  trace (tag_reviews serp_filtered i reviews all_reviews st).2 = trace st.
Proof.
  revert i all_reviews st. induction reviews as [|review_list reviews IH];
    intros i all_reviews st; simpl; [done|].
  unfold bindM at 1.
  pose proof (tag_review_list_trace serp_filtered i review_list all_reviews st) as Ht.
  destruct (tag_review_list _ _ _ _ st) as [[all|e] st1]; simpl in Ht; [|done].
  by rewrite IH.
Qed.

Lemma quiet_save_reviews serp_filtered reviews : quiet (save_reviews serp_filtered reviews).
Proof.
  unfold save_reviews. apply quiet_bind.
  - apply quiet_same. apply tag_reviews_trace.
  - intros all_reviews st. exists [SaveJson "reviews.json"
      (AllReviews all_reviews (deref (heap st) all_reviews))].
    split; [done|]. by intros [=]%list_elem_of_singleton.
Qed.

Lemma quiet_save_analyses serp_filtered analyses :
  quiet (save_analyses serp_filtered analyses).
Proof.
  unfold save_analyses. apply quiet_bind; [apply quiet_liftM|].
  intros with_context. apply quiet_save.
Qed.

Lemma quiet_gather {A} (tasks : list (Task A)) times :
  (∀ i (task : Task A), tasks !! i = Some task -> quiet task) -> quiet (gather tasks times).
Proof.
  intros Hq st.
  pose proof (gather_invariant
    (fun s : St => ∃ evs, trace s = (trace st ++ evs)%list ∧ LaunchBrowser ∉ evs)
    tasks times st) as Hg.
  apply Hg.
  - intros i task s Htask (evs & Ht & Hn).
    destruct (Hq i task Htask s) as (evs' & Ht' & Hn').
    exists (evs ++ evs')%list. rewrite Ht', Ht, app_assoc. split; [done|].
    by apply not_elem_of_app.
  - exists []. rewrite app_nil_r. split; [done|]. apply not_elem_of_nil.
Qed.

Lemma quiet_analyze_all_products (h : @Handlers W) times products product_data_list
    reviews_list :
  quiet (analyze_all_products h times products product_data_list reviews_list).
Proof.
  unfold analyze_all_products. apply quiet_bind; [apply quiet_liftM|].
  intros requests. apply quiet_bind; [|intros results; apply quiet_liftM].
  apply quiet_gather. intros i task [request [-> _]]%list_lookup_fmap_Some st.
  unfold analyze_with_gemini_async.
  destruct (gemini_analyze_reviews _ _ _ _ _) as [r w']. simpl.
  eexists [_]. split; [done|]. by intros [=]%list_elem_of_singleton.
Qed.

Lemma quiet_generate_html_report (h : @Handlers W) products product_data reviews analyses :
  quiet (generate_html_report h products product_data reviews analyses).
Proof.
  intros st. unfold generate_html_report.
  apply (quiet_bind (emit _) (fun _ => liftM _)); [by apply quiet_emit|].
  intros _. apply quiet_liftM.
Qed.

Lemma launches_bind {A} (m : Task A) (k : A -> Task run_status) :
  quiet m -> (∀ a, launches_iff_completed (k a)) -> launches_iff_completed (bindM m k).
Proof.
  intros Hm Hk st. unfold bindM. destruct (Hm st) as (evs & Ht & Hq).
  destruct (m st) as [[a|e] st1]; simpl in *.
  - destruct (Hk a st1) as (evs' & Ht' & Hl). exists (evs ++ evs')%list.
    rewrite Ht', Ht, app_assoc. split; [done|].
    rewrite elem_of_app. split; [intros [?|?]; [done|by apply Hl]|].
    intros ?. right. by apply Hl.
  - exists evs. split; [done|]. split; [done|discriminate].
Qed.

Lemma launches_ret status : status ≠ Completed -> launches_iff_completed (retM status).
Proof.
  intros Hne st. exists []. rewrite app_nil_r. split; [done|].
  split; [by intros ?%elem_of_nil|]. intros [= ->]. done.
Qed.

(** X12: whatever the providers do, the browser is launched exactly in the
    runs that complete: a run that stops early or raises, at any step, does
    not open a report. *)
Theorem run_launches_iff_completed (h : @Handlers W) search client_filters detail_times
    analysis_times (st : St) :
  ∃ evs,
    trace (run h search client_filters detail_times analysis_times st).2
    = (trace st ++ evs)%list
    ∧ (LaunchBrowser ∈ evs
       <-> (run h search client_filters detail_times analysis_times st).1 = Ok Completed).
Proof.
  revert st. change (launches_iff_completed
    (run h search client_filters detail_times analysis_times)).
  unfold run. apply launches_bind.
  { apply quiet_same. intros st. by destruct (search (world st)). }
  intros [|c raw]; [by apply launches_ret|].
  apply launches_bind; [apply quiet_save|]. intros _.
  destruct (Rank.filter_products client_filters (c :: raw)) as [|p filtered];
    [by apply launches_ret|].
  apply launches_bind; [apply quiet_liftM|]. intros top.
  apply launches_bind; [apply quiet_save|]. intros _.
  apply launches_bind.
  { apply quiet_same. apply collect_product_data_trace. }
  intros [pdl rl].
  apply launches_bind; [apply quiet_save|]. intros _.
  apply launches_bind; [apply quiet_save_reviews|]. intros _.
  apply launches_bind; [apply quiet_analyze_all_products|]. intros analyses.
  apply launches_bind; [apply quiet_save_analyses|]. intros _.
  apply launches_bind.
  { unfold save_results. repeat (apply quiet_bind; [apply quiet_save|intros _]).
    apply quiet_bind; [apply quiet_save_reviews|intros _]. apply quiet_save_analyses. }
  intros _.
  apply launches_bind; [apply quiet_generate_html_report|]. intros _.
  intros st. exists [LaunchBrowser]. split; [done|]. split; [done|]. intros _. left.
Qed.

(** *** The review stage *)

Lemma traverseM_stops {A B} (f : A -> Task B) before a after (st st1 st2 : St) bs e :
  traverseM f before st = (Ok bs, st1) -> f a st1 = (Raise e, st2) ->
  traverseM f (before ++ a :: after) st = (Raise e, st2).
Proof.
  revert st bs. induction before as [|a' before IH]; intros st bs Hb Ha.
  - injection Hb as <- <-. simpl. unfold bindM at 1. by rewrite Ha.
  - simpl in Hb. apply bindM_Ok in Hb as (b & s1 & Hf & Hb).
    apply bindM_Ok in Hb as (bs' & s2 & Ht & Hb). injection Hb as <- <-.
    change ((a' :: before) ++ a :: after)%list with (a' :: (before ++ a :: after))%list.
    cbn [traverseM]. unfold bindM at 1. rewrite Hf.
    unfold bindM at 1. by rewrite (IH _ _ Ht Ha).
Qed.

(** X13: the review stage asks for the reviews of one entry after the
    other and stops at the first call that raises: when the detail stage
    has returned, the reviews of the entries [before] have been fetched and
    the call for [product] raises, the stage raises that exception in the
    state that this call left, whatever entries come [after]: no review of
    a later entry is requested, and the details and reviews fetched so far
    are not returned. *)
Theorem review_stage_stops_at_first_failure (h : @Handlers W) times before product
    after (st st1 st2 st3 : St) details reviews e :
  gather ((fun product => fetch_product_data_async h (asin product))
            <$> (before ++ product :: after)%list) times st
  = (Ok (Ok <$> details), st1) ->
  traverseM (fun product => fetch_reviews_async h (asin product)) before st1
  = (Ok reviews, st2) ->
  fetch_reviews_async h (asin product) st2 = (Raise e, st3) ->
  collect_product_data h times (before ++ product :: after)%list st = (Raise e, st3)
  ∧ world st3 = (apify_get_product_reviews h (asin product) (world st2)).2
  ∧ heap st3 = heap st2
  ∧ trace st3 = trace st.
Proof.
  intros Hg Hb Hf.
  assert (Hc : collect_product_data h times (before ++ product :: after)%list st
               = (Raise e, st3)).
  { unfold collect_product_data. unfold bindM at 1. rewrite Hg.
    unfold bindM at 1. unfold raise_first_exception, liftM.
    rewrite (proj2 (traverse_id_Ok _ details) eq_refl).
    unfold bindM at 1.
    by rewrite (traverseM_stops _ before product after st1 st2 st3 reviews e). }
  split; [done|].
  pose proof (collect_product_data_trace h times (before ++ product :: after)%list st) as Ht.
  rewrite Hc in Ht. simpl in Ht.
  unfold fetch_reviews_async in Hf.
  destruct (apify_get_product_reviews h (asin product) (world st2)) as [[rs|e'] w'];
    [done|].
  by injection Hf as _ <-.
Qed.

(** *** The analysis stage *)

Lemma analysis_requests_total i products product_data_list reviews_list :
  (i + length products ≤ length product_data_list)%nat ->
  (i + length products ≤ length reviews_list)%nat ->
  ∃ requests,
    analysis_requests i products product_data_list reviews_list = Ok requests.
Proof.
  revert i. induction products as [|product products IH]; intros i Hd Hr; simpl in *.
  - by eexists.
  - destruct (lookup_lt_is_Some_2 product_data_list i) as [pd Hpd]; [lia|].
    destruct (lookup_lt_is_Some_2 reviews_list i) as [rv Hrv]; [lia|].
    unfold index. rewrite Hpd, Hrv. simpl.
    destruct (IH (S i)) as [requests ->]; [lia..|]. by eexists.
Qed.

Lemma analysis_requests_IndexError i products product_data_list reviews_list e :
  analysis_requests i products product_data_list reviews_list = Raise e ->
  e = IndexError "list index out of range".
Proof.
  revert i. induction products as [|product products IH]; intros i; simpl; [done|].
  unfold index.
  destruct (product_data_list !! i); simpl; [|by intros [= <-]].
  destruct (reviews_list !! i); simpl; [|by intros [= <-]].
  destruct (analysis_requests (S i) products _ _) eqn:Hreq; simpl; [done|].
  intros [= <-]. by eapply IH.
Qed.


(** The call of the analysis handler for a request, with the review objects
    as they are in [objects]. *)
Definition analysis_event (objects : list ReviewDict) (request : AnalysisRequest) : event :=
  AnalyzeReviews (req_title request) (req_description request) (req_reviews request)
    (deref objects (req_reviews request)).

Lemma run_tasks_analysis_trace (h : @Handlers W) requests order futures (st : St) :
  heap (run_tasks (analyze_with_gemini_async h <$> requests) order futures st).2 = heap st
  ∧ trace (run_tasks (analyze_with_gemini_async h <$> requests) order futures st).2
    = (trace st ++ omap (fun i => analysis_event (heap st) <$> requests !! i) order)%list.
Proof.
  revert futures st. induction order as [|i order IH]; intros futures st; cbn [run_tasks].
  - simpl. by rewrite app_nil_r.
  - rewrite list_lookup_fmap. cbn [omap list_omap].
    destruct (requests !! i) as [request|]; simpl; [|apply IH].
    unfold analyze_with_gemini_async at 1 3.
    destruct (gemini_analyze_reviews _ _ _ _ _) as [r w'].
    match goal with |- context [run_tasks ?t ?o ?f ?s] =>
      destruct (IH f s) as [Hh Ht] end.
    simpl in *. rewrite Hh, Ht. split; [done|]. by rewrite <- app_assoc.
Qed.

Lemma omap_lookup_seq {A B} (f : A -> B) (l1 l2 : list A) :
  omap (fun i => f <$> (l1 ++ l2)%list !! i) (seq (length l1) (length l2)) = f <$> l2.
Proof.
  revert l1. induction l2 as [|a l2 IH]; intros l1; [done|].
  cbn [length seq omap list_omap].
  rewrite lookup_app_r by lia. rewrite Nat.sub_diag. simpl. f_equal.
  specialize (IH (l1 ++ [a])%list). rewrite length_app, <- app_assoc in IH. simpl in IH.
  by rewrite Nat.add_1_r in IH.
Qed.

Lemma omap_lookup_all {A B} (f : A -> B) (l : list A) :
  omap (fun i => f <$> l !! i) (seq 0 (length l)) = f <$> l.
Proof. exact (omap_lookup_seq f [] l). Qed.

Lemma analyze_all_products_calls (h : @Handlers W) times products product_data_list
    reviews_list (st : St) requests :
  analysis_requests 0 products product_data_list reviews_list = Ok requests ->
  heap (analyze_all_products h times products product_data_list reviews_list st).2
  = heap st
  ∧ ∃ evs,
      trace (analyze_all_products h times products product_data_list reviews_list st).2
      = (trace st ++ evs)%list
      ∧ evs ≡ₚ analysis_event (heap st) <$> requests.
Proof.
  intros Hreq.
  assert (Hout : (analyze_all_products h times products product_data_list reviews_list st).2
          = (run_tasks (analyze_with_gemini_async h <$> requests)
            (completion_order times (length (analyze_with_gemini_async h <$> requests)))
            (replicate (length (analyze_with_gemini_async h <$> requests)) None) st).2).
  { unfold analyze_all_products, bindM, liftM, gather, raise_first_exception.
    rewrite Hreq. by destruct (run_tasks _ _ _ st). }
  rewrite Hout.
  destruct (run_tasks_analysis_trace h requests
    (completion_order times (length (analyze_with_gemini_async h <$> requests)))
    (replicate (length (analyze_with_gemini_async h <$> requests)) None) st) as [Hh Ht].
  split; [done|]. eexists. split; [exact Ht|].
  rewrite completion_order_perm, length_fmap. by rewrite omap_lookup_all.
Qed.

(** X15: when its requests can be built, the analysis stage calls the
    handler exactly once for each of them, so once per product, in whatever
    order the tasks end and whether or not a call raises: the calls it makes
    are a rearrangement of the requests, each with the review objects as
    they are when the stage starts, and the stage changes no review
    object. *)
Theorem analysis_called_once_per_request (h : @Handlers W) times products
    product_data_list reviews_list (st : St) requests :
  analysis_requests 0 products product_data_list reviews_list = Ok requests ->
  heap (analyze_all_products h times products product_data_list reviews_list st).2
  = heap st
  ∧ ∃ evs,
      trace (analyze_all_products h times products product_data_list reviews_list st).2
      = (trace st ++ evs)%list
      ∧ evs ≡ₚ analysis_event (heap st) <$> requests
      ∧ length evs = length products.
Proof.
  intros Hreq.
  destruct (analyze_all_products_calls h times products product_data_list reviews_list st
              requests Hreq) as (Hheap & evs & Htrace & Hevs).
  destruct (analysis_requests_spec _ _ _ _ _ Hreq) as [Hlen _].
  split; [done|]. exists evs. split; [done|]. split; [done|].
  by rewrite Hevs, length_fmap.
Qed.

(** *** The calls of a run that completes, in order *)

Definition completed_events (raw : list Candidate) (top : list ShortlistEntry)
  (product_data_list : list DetailRecord) (reviews_list : list (list nat))
  (objects : list ReviewDict) (analysis_events : list event)
  (with_context : list (option string * option string * Analysis))
  (analyses : list Analysis) : list event :=
  ([saved_raw raw; saved_filtered top; saved_products product_data_list;
    saved_reviews reviews_list objects] ++
   analysis_events ++
   [saved_analyses with_context;
    saved_raw raw; saved_filtered top; saved_products product_data_list;
    saved_reviews reviews_list objects; saved_analyses with_context;
    GenerateReport top product_data_list reviews_list (deref objects <$> reviews_list)
      analyses;
    LaunchBrowser])%list.

Lemma run_Completed_events (h : @Handlers W) search client_filters detail_times
    analysis_times (st st' : St) :
  run h search client_filters detail_times analysis_times st = (Ok Completed, st') ->
  ∃ raw top product_data_list reviews_list analysis_events with_context analyses requests,
    trace st' = (trace st ++ completed_events raw top product_data_list reviews_list
                               (heap st') analysis_events with_context analyses)%list
    ∧ Rank.select_top_products (Rank.filter_products client_filters raw) 10 = Ok top
    ∧ length reviews_list = length top
    ∧ tagged top reviews_list (heap st')
    ∧ analysis_requests 0 top product_data_list reviews_list = Ok requests
    ∧ analysis_events ≡ₚ analysis_event (heap st') <$> requests
    ∧ analyses_with_context top 0 analyses = Ok with_context.
Proof.
  intros (raw & w1 & top & pdl & rl & st2 & analyses & st3 & ctx & Hsearch & Hraw & Hf
          & Hsel & Hcollect & Han & Hheap & Hctx & Hrep & ->)%run_Completed.
  destruct (collect_product_data_objects _ _ _ _ _ _ _ Hcollect) as (Hlen & Hnd & Hvalid).
  pose proof (collect_product_data_trace h detail_times top
    {| world := w1; heap := heap st;
       trace := (trace st ++ [saved_raw raw; saved_filtered top])%list |}) as Htr2.
  rewrite Hcollect in Htr2. simpl in Htr2.
  destruct (analyze_all_products_Ok _ _ _ _ _ _ _ _ Han) as (requests & Hreq & _).
  match type of Han with analyze_all_products _ _ _ _ _ ?s = _ =>
    destruct (analyze_all_products_calls h analysis_times top pdl rl s requests Hreq)
      as (_ & evsA & Htr3 & HevsA) end.
  rewrite Han in Htr3. simpl in Htr3, HevsA.
  cbn [heap trace].
  rewrite Hheap, tagged_heap_idempotent by done.
  exists raw, top, pdl, rl, evsA, ctx, analyses, requests.
  split; [|split; [done|split; [done|split; [|split; [done|split; [done|done]]]]]].
  - rewrite Htr3, Htr2. unfold completed_events. by rewrite <- !app_assoc.
  - by apply tagged_heap_tagged.
Qed.

(** *** A price that cannot be read *)

(** X16: one entry with an unreadable price among those that pass the
    filter makes the run raise the [ValueError] of [float], after
    [serp_raw.json] has been written and before any detail, review or
    analysis is asked for: nothing else is written and no review object is
    made. *)
Theorem run_aborts_on_unreadable_price (h : @Handlers W) search client_filters
    detail_times analysis_times (st : St) raw w1 p :
  search (world st) = (Ok raw, w1) ->
  p ∈ Rank.filter_products client_filters raw -> ¬ readable_price p ->
  ∃ msg,
    run h search client_filters detail_times analysis_times st
    = (Raise (ValueError msg),
       {| world := w1; heap := heap st;
          trace := (trace st ++ [saved_raw raw])%list |}).
Proof.
  intros Hsearch Hin Hbad.
  destruct (traverse_decorate_Raise _ p Hin Hbad) as [msg Hm].
  exists msg. unfold run. unfold bindM at 1. rewrite Hsearch.
  destruct raw as [|c raw]; [by apply elem_of_nil in Hin|].
  unfold bindM at 1. unfold save_to_json at 1, emit. cbn [world heap trace].
  destruct (Rank.filter_products client_filters (c :: raw)) as [|p0 filtered] eqn:Hf;
    [by apply elem_of_nil in Hin|].
  unfold bindM at 1. unfold liftM at 1. unfold Rank.select_top_products.
  by rewrite Hm.
Qed.

(** *** The order in which the tasks end *)

Lemma run_tasks_spec_inv {A} (I : St -> Prop) (tasks : list (Task A)) order futures
    (st : St) :
  (∀ i (task : Task A) s, tasks !! i = Some task -> I s -> I (task s).2) ->
  I st -> NoDup order -> (∀ i, i ∈ order -> (i < length tasks)%nat) ->
  length futures = length tasks ->
  ∀ i (task : Task A), i ∈ order -> tasks !! i = Some task ->
    ∃ st_i, I st_i
      ∧ (run_tasks tasks order futures st).1 !! i = Some (Some (task st_i).1).
Proof.
  intros Hkeep. revert futures st.
  induction order as [|j order IH]; intros futures st HI Hnd Hlt Hlen i task Hin Htask.
  - by apply elem_of_nil in Hin.
  - cbn [run_tasks]. apply NoDup_cons in Hnd as [Hj Hnd].
    destruct (tasks !! j) as [task_j|] eqn:Htj.
    2: { apply lookup_ge_None in Htj. specialize (Hlt j (list_elem_of_here _ _)). lia. }
    pose proof (Hkeep j task_j st Htj HI) as HI'.
    destruct (task_j st) as [r st'] eqn:Hrun. simpl in HI'.
    apply elem_of_cons in Hin as [->|Hin].
    + exists st. split; [done|].
      destruct (run_tasks_spec tasks order (<[j := Some r]> futures) st' Hnd)
        as (_ & Hout & _).
      { intros k Hk. apply Hlt. by right. }
      { by rewrite length_insert. }
      rewrite Hout by done.
      pose proof (Hlt j (list_elem_of_here _ _)).
      rewrite list_lookup_insert_eq by lia.
      assert (task = task_j) as -> by congruence. by rewrite Hrun.
    + apply (IH (<[j := Some r]> futures) st' HI' Hnd); [|by rewrite length_insert|done..].
      intros k Hk. apply Hlt. by right.
Qed.

Lemma gather_spec_inv {A} (I : St -> Prop) (tasks : list (Task A)) times (st : St) :
  (∀ i (task : Task A) s, tasks !! i = Some task -> I s -> I (task s).2) ->
  I st ->
  ∃ results st',
    gather tasks times st = (Ok results, st')
    ∧ length results = length tasks
    ∧ ∀ i (task : Task A), tasks !! i = Some task ->
        ∃ st_i, I st_i ∧ results !! i = Some (task st_i).1.
Proof.
  intros Hkeep HI. unfold gather.
  pose proof (completion_order_perm times (length tasks)) as Hperm.
  assert (Hnd : NoDup (completion_order times (length tasks))).
  { rewrite Hperm. apply NoDup_seq. }
  assert (Hlt : ∀ i, i ∈ completion_order times (length tasks) -> (i < length tasks)%nat).
  { intros i. rewrite Hperm, elem_of_seq. lia. }
  pose proof (run_tasks_spec_inv I tasks (completion_order times (length tasks))
                (replicate (length tasks) None) st Hkeep HI Hnd Hlt
                (length_replicate _ _)) as Hin.
  destruct (run_tasks_spec tasks (completion_order times (length tasks))
              (replicate (length tasks) None) st Hnd Hlt (length_replicate _ _))
    as (Hl & _ & _).
  destruct (run_tasks _ _ _ st) as [futures st'] eqn:Hrun. simpl in *.
  exists (future_result <$> futures), st'. split; [done|]. split.
  - by rewrite length_fmap.
  - intros i task Htask. destruct (Hin i task) as (st_i & HIi & Hi); [|done|].
    + rewrite Hperm, elem_of_seq. apply lookup_lt_Some in Htask. lia.
    + exists st_i. split; [done|]. by rewrite list_lookup_fmap, Hi.
Qed.

(** The results of [gather] when every task answers by its arguments and
    the review objects alone. *)
Lemma gather_results_determined {A} (tasks : list (Task A)) (answers : list (result A))
    times (st : St) :
  length answers = length tasks ->
  (∀ i (task : Task A) answer s, tasks !! i = Some task -> answers !! i = Some answer ->
     heap s = heap st -> (task s).1 = answer ∧ heap (task s).2 = heap st) ->
  (gather tasks times st).1 = Ok answers ∧ heap (gather tasks times st).2 = heap st.
Proof.
  intros Hlen Hans.
  destruct (gather_spec_inv (fun s : St => heap s = heap st) tasks times st)
    as (results & st' & Hg & Hl & Hpos); [|done|].
  { intros i task s Htask Hs.
    destruct (lookup_lt_is_Some_2 answers i) as [answer Ha].
    { rewrite Hlen. by eapply lookup_lt_Some. }
    by destruct (Hans i task answer s Htask Ha Hs). }
  pose proof (gather_invariant (fun s : St => heap s = heap st) tasks times st) as Hinv.
  rewrite Hg in Hinv |- *. simpl in *. split.
  - f_equal. apply list_eq_same_length with (length tasks); [done..|].
    intros i r answer Hi Hr Ha.
    destruct (lookup_lt_is_Some_2 tasks i) as [task Htask]; [done|].
    destruct (Hpos i task Htask) as (st_i & Hsi & Hri).
    destruct (Hans i task answer st_i Htask Ha Hsi) as [Hanswer _]. congruence.
  - apply Hinv; [|done]. intros i task s Htask Hs.
    destruct (lookup_lt_is_Some_2 answers i) as [answer Ha].
    { rewrite Hlen. by eapply lookup_lt_Some. }
    by destruct (Hans i task answer s Htask Ha Hs).
Qed.

(** A handler whose answer does not depend on the state of the world. *)
Definition answers_by_arguments {A} (handler : @call W A) : Prop :=
  ∀ w w', (handler w).1 = (handler w').1.

(** X17: the order in which the tasks of a [gather] end has no influence on
    what the two parallel stages return, when the handlers answer by their
    arguments alone: the detail stage and the analysis stage then give the
    same list of results, task by task, for any two orders of completion. *)
Theorem stage_results_independent_of_schedule (h : @Handlers W) :
  (∀ asin, answers_by_arguments (rainforest_get_product_data h asin)) ->
  (∀ title description reviews,
     answers_by_arguments (gemini_analyze_reviews h title description reviews)) ->
  ∀ times times' products (st : St),
    (gather ((fun product => fetch_product_data_async h (asin product)) <$> products)
       times st).1
    = (gather ((fun product => fetch_product_data_async h (asin product)) <$> products)
         times' st).1
    ∧ ∀ product_data_list reviews_list,
        (analyze_all_products h times products product_data_list reviews_list st).1
        = (analyze_all_products h times' products product_data_list reviews_list st).1.
Proof.
  intros Hdetail Hanalysis times times' products st. split.
  - set (tasks := (fun product => fetch_product_data_async h (asin product)) <$> products).
    set (answers := (fun product =>
           (rainforest_get_product_data h (asin product) (world st)).1) <$> products).
    assert (Hans : ∀ i (task : Task DetailRecord) answer s,
              tasks !! i = Some task -> answers !! i = Some answer ->
              heap s = heap st -> (task s).1 = answer ∧ heap (task s).2 = heap st).
    { intros i task answer s [p [-> Hp]]%list_lookup_fmap_Some Ha Hs.
      unfold answers in Ha. rewrite list_lookup_fmap, Hp in Ha. injection Ha as <-.
      unfold fetch_product_data_async.
      pose proof (Hdetail (asin p) (world s) (world st)) as Hw.
      destruct (rainforest_get_product_data h (asin p) (world s)) as [r w']. by split. }
    assert (Hlen : length answers = length tasks).
    { unfold answers, tasks. by rewrite !length_fmap. }
    destruct (gather_results_determined tasks answers times st Hlen Hans) as [-> _].
    by destruct (gather_results_determined tasks answers times' st Hlen Hans) as [-> _].
  - intros pdl rl. unfold analyze_all_products, bindM, liftM, raise_first_exception.
    destruct (analysis_requests 0 products pdl rl) as [requests|e]; [|done].
    set (tasks := analyze_with_gemini_async h <$> requests).
    set (answers := (fun request =>
           (gemini_analyze_reviews h (req_title request) (req_description request)
              (deref (heap st) (req_reviews request)) (world st)).1) <$> requests).
    assert (Hans : ∀ i (task : Task Analysis) answer s,
              tasks !! i = Some task -> answers !! i = Some answer ->
              heap s = heap st -> (task s).1 = answer ∧ heap (task s).2 = heap st).
    { intros i task answer s [request [-> Hr]]%list_lookup_fmap_Some Ha Hs.
      unfold answers in Ha. rewrite list_lookup_fmap, Hr in Ha. injection Ha as <-.
      unfold analyze_with_gemini_async. rewrite Hs.
      pose proof (Hanalysis (req_title request) (req_description request)
                    (deref (heap st) (req_reviews request)) (world s) (world st)) as Hw.
      destruct (gemini_analyze_reviews h _ _ _ (world s)) as [r w']. by split. }
    assert (Hlen : length answers = length tasks).
    { unfold answers, tasks. by rewrite !length_fmap. }
    pose proof (gather_results_determined tasks answers times st Hlen Hans) as [H1 _].
    pose proof (gather_results_determined tasks answers times' st Hlen Hans) as [H2 _].
    destruct (gather tasks times st) as [[results|e] s1];
      destruct (gather tasks times' st) as [[results'|e'] s2]; simpl in *; try done.
    injection H1 as ->. injection H2 as ->. done.
Qed.

End Run.

(** *** The sample run *)

Lemma run_report_aligned_witness :
  let outcome := run sample_handlers sample_search RankFacts.no_filters
                   [2; 0; 1]%nat [0; 0; 0]%nat sample_state in
  ∃ evs top product_data_list refs reviews analyses,
    trace outcome.2 = (trace sample_state ++ evs)%list
    ∧ filter (λ ev, is_report ev) evs
      = [GenerateReport top product_data_list refs reviews analyses]
    ∧ (1 ≤ length top ≤ 10)%nat
    ∧ NoDup (asin <$> top)
    ∧ length product_data_list = length top
    ∧ length refs = length top
    ∧ length reviews = length top
    ∧ length analyses = length top
    ∧ report_generate sample_handlers top product_data_list reviews analyses = Ok tt.
Proof.
  intros outcome.
  apply (run_report_aligned sample_handlers sample_search RankFacts.no_filters
           [2; 0; 1]%nat [0; 0; 0]%nat sample_state outcome.2).
  apply pair_with_snd. vm_compute. reflexivity.
Defined.

Lemma run_stops_early_witness :
  let strict := {| min_rating := Some 5%Q; min_reviews := None |} in
  run sample_handlers sample_search strict [] [] sample_state
  = (Ok NoSurvivors,
     {| world := 1%nat; heap := []; trace := [saved_raw sample_raw] |}).
Proof.
  intros strict.
  apply (proj1 (run_stops_early sample_handlers sample_search strict [] [] sample_state
                  sample_raw 1%nat eq_refl)).
  by repeat constructor.
Defined.

(** Handlers whose review call raises for [A]. *)
Definition review_failing_handlers : @Handlers nat :=
  {| rainforest_get_product_data := rainforest_get_product_data sample_handlers;
     apify_get_product_reviews :=
       fun asin w =>
         match asin with
         | Some "A" => (Raise (ProviderError "executor is shut down"), S w)
         | _ => apify_get_product_reviews sample_handlers asin w
         end;
     gemini_analyze_reviews := gemini_analyze_reviews sample_handlers;
     report_generate := report_generate sample_handlers |}.

Lemma review_stage_stops_at_first_failure_witness :
  collect_product_data review_failing_handlers [2; 0; 1]%nat sample_shortlist sample_state
  = (Raise (ProviderError "executor is shut down"),
     {| world := 5%nat; heap := [sample_review "good"; sample_review "bad"];
        trace := [] |}).
Proof.
  eapply (proj1 (review_stage_stops_at_first_failure review_failing_handlers
                   [2; 0; 1]%nat
                   [RankFacts.entry "B" (Some 4.5%Q) (Some 200%Z) (Some (PriceStr "$15.00"))]
                   (RankFacts.entry "A" (Some 4.5%Q) (Some 200%Z) (Some (PriceStr "$20.00")))
                   [RankFacts.entry "C" (Some 4%Q) (Some 12%Z) (Some (PriceStr "$9.50"))]
                   sample_state
                   {| world := 3%nat; heap := []; trace := [] |}
                   {| world := 4%nat; heap := [sample_review "good"; sample_review "bad"];
                      trace := [] |}
                   _
                   [empty_record; sample_detail "A"; sample_detail "C"]
                   [[0; 1]%nat] _ _ _ _)).
  Unshelve.
  - vm_compute. reflexivity.
  - vm_compute. reflexivity.
  - vm_compute. reflexivity.
Defined.


(** A search whose one result has a unit price beside its price. *)
Definition unit_price_search : @call nat (list Candidate) :=
  fun w => (Ok [RankFacts.candidate "A" (Some 4.5%Q) (Some 200%Z)
                  (Some (PriceStr "$19.99 ($1.99/Count)"))], S w).

Lemma run_aborts_on_unreadable_price_witness :
  ∃ msg,
    run sample_handlers unit_price_search RankFacts.no_filters [] [] sample_state
    = (Raise (ValueError msg),
       {| world := 1%nat; heap := [];
          trace := [saved_raw [RankFacts.candidate "A" (Some 4.5%Q) (Some 200%Z)
                                 (Some (PriceStr "$19.99 ($1.99/Count)"))]] |}).
Proof.
  apply (run_aborts_on_unreadable_price sample_handlers unit_price_search
           RankFacts.no_filters [] [] sample_state _ 1%nat
           (RankFacts.entry "A" (Some 4.5%Q) (Some 200%Z)
              (Some (PriceStr "$19.99 ($1.99/Count)"))) eq_refl).
  - left.
  - intros Hr. destruct (Hr _ eq_refl) as [Hz|[Ho _]]; vm_compute in *; lia.
Defined.

Lemma stage_results_independent_of_schedule_witness :
  (gather ((fun product => fetch_product_data_async sample_handlers (asin product))
             <$> sample_shortlist) [2; 0; 1]%nat sample_state).1
  = (gather ((fun product => fetch_product_data_async sample_handlers (asin product))
               <$> sample_shortlist) [0; 0; 0]%nat sample_state).1.
Proof.
  apply (stage_results_independent_of_schedule sample_handlers).
  - intros asin w w'. cbn [sample_handlers rainforest_get_product_data].
    assert (Hw : ∀ n, sample_requests_get asin n
                      = ((sample_requests_get asin 0%nat).1, S n)) by done.
    unfold get_product_data. rewrite (Hw w), (Hw w').
    destruct (sample_requests_get asin 0%nat).1 as [msg|status_code json]; [done|].
    destruct (negb _); [done|]. by destruct json.
  - by intros title description reviews w w'.
Defined.

Lemma analysis_called_once_per_request_witness :
  let details := [empty_record; sample_detail "A"; sample_detail "C"] in
  let reviews := [[0; 1]; [2; 3]; [4; 5]]%nat in
  let st := {| world := 6%nat; heap := replicate 6 (sample_review "good"); trace := [] |} in
  ∃ requests,
    analysis_requests 0 sample_shortlist details reviews = Ok requests
    ∧ heap (analyze_all_products sample_handlers [1; 0; 2]%nat sample_shortlist details
              reviews st).2 = heap st
    ∧ ∃ evs,
        trace (analyze_all_products sample_handlers [1; 0; 2]%nat sample_shortlist details
                 reviews st).2 = (trace st ++ evs)%list
        ∧ evs ≡ₚ analysis_event (heap st) <$> requests
        ∧ length evs = length sample_shortlist.
Proof.
  intros details reviews st.
  destruct (analysis_requests 0 sample_shortlist details reviews) as [requests|e] eqn:Hreq;
    [|by vm_compute in Hreq].
  exists requests. split; [done|].
  exact (analysis_called_once_per_request sample_handlers [1; 0; 2]%nat sample_shortlist
           details reviews st requests Hreq).
Defined.

End RunFacts.

(** ** Regenerating the report from the files of a run ([regenerate_html.py]) *)

Module Regenerate.
Import PyStr Orchestrator.

(** What [json.load] returns for the four files that the script opens. *)
Record RunFolder : Type := mkFolder {
  serp_filtered_json : list ShortlistEntry;
  rainforest_products_json : list DetailRecord;
  reviews_json : list ReviewDict;
  gemini_analysis_json : list (option string * option string * Analysis)
}.

(** [r.get('asin') == asin]: a missing key reads as [None]; a number is not
    equal to a string. *)
Definition asin_matches (asin : option string) (r : ReviewDict) : bool :=
  match default VNone (r !! "asin"), asin with
  | VNone, None => true
  | VStr s, Some a => String.eqb s a
  | _, _ => false
  end.

(** [regenerate_html], from the loaded files on: the reviews are regrouped
    by product, the analyses unwrapped, and the generator called. *)
Definition regenerate_html {R : Type}
  (generate : list ShortlistEntry -> list DetailRecord -> list (list ReviewDict) ->
              list Analysis -> R)
  (folder : RunFolder) : R :=
  let products := serp_filtered_json folder in
  let product_data_list := rainforest_products_json folder in
  let all_reviews := reviews_json folder in
  let analyses_with_context := gemini_analysis_json folder in
  let reviews_list :=
    (fun product => filter (fun r => asin_matches (asin product) r) all_reviews)
      <$> products in
  let analyses := (fun item => item.2) <$> analyses_with_context in
  generate products product_data_list reviews_list analyses.

(** *** The files that a run leaves *)

(** The data given to [save_to_json] under [filename], call after call. *)
Definition written (filename : string) (evs : list event) : list artifact :=
  omap (fun ev => match ev with
                  | SaveJson f data => if String.eqb f filename then Some data else None
                  | _ => None
                  end) evs.

(** The file holds what the last call wrote; [json.load] gives it back. *)
Definition file_content (filename : string) (evs : list event) : option artifact :=
  last (written filename evs).

Definition run_folder (evs : list event) : option RunFolder :=
  match file_content "serp_filtered.json" evs,
        file_content "rainforest_products.json" evs,
        file_content "reviews.json" evs,
        file_content "gemini_analysis.json" evs with
  | Some (Filtered products), Some (ProductData product_data_list),
    Some (AllReviews _ all_reviews), Some (Analyses analyses_with_context) =>
      Some {| serp_filtered_json := products;
              rainforest_products_json := product_data_list;
              reviews_json := all_reviews;
              gemini_analysis_json := analyses_with_context |}
  | _, _, _, _ => None
  end.

End Regenerate.

Module RegenerateFacts.
Import PyStr Orchestrator OrchestratorFacts ShortlistFacts RunFacts Regenerate.

Lemma asin_matches_tagged product a review :
  tagged_by product review -> asin_matches a review = bool_decide (asin product = a).
Proof.
  intros [Ha _]. unfold asin_matches. rewrite Ha. simpl.
  destruct (asin product) as [s|], a as [a'|]; simpl; try done.
  destruct (String.eqb_spec s a') as [->|Hne].
  - by rewrite bool_decide_eq_true_2.
  - rewrite bool_decide_eq_false_2; [done|]. by intros [= ->].
Qed.

Lemma filter_tagged_all product dicts :
  Forall (tagged_by product) dicts ->
  filter (fun r => asin_matches (asin product) r) dicts = dicts.
Proof.
  induction 1 as [|r dicts Hr _ IH]; [done|].
  rewrite filter_cons, (asin_matches_tagged product _ r Hr).
  rewrite bool_decide_eq_true_2 by done. simpl. by rewrite IH.
Qed.

Lemma filter_tagged_none product a dicts :
  asin product ≠ a -> Forall (tagged_by product) dicts ->
  filter (fun r => asin_matches a r) dicts = [].
Proof.
  intros Hne. induction 1 as [|r dicts Hr _ IH]; [done|].
  rewrite filter_cons, (asin_matches_tagged product _ r Hr).
  by rewrite bool_decide_eq_false_2 by done.
Qed.

Lemma filter_concat_others products dictss a :
  a ∉ asin <$> products ->
  Forall2 (fun product dicts => Forall (tagged_by product) dicts) products dictss ->
  filter (fun r => asin_matches a r) (concat dictss) = [].
Proof.
  intros Hn. induction 1 as [|p d products dictss Hd _ IH]; [done|].
  rewrite fmap_cons in Hn. apply not_elem_of_cons in Hn as [Hne Hn].
  simpl. rewrite filter_app, (filter_tagged_none p a d) by done. by apply IH.
Qed.

(** Grouping by identifier undoes the concatenation, when the identifiers
    are pairwise distinct. *)
Lemma regroup_tagged products dictss :
  NoDup (asin <$> products) ->
  Forall2 (fun product dicts => Forall (tagged_by product) dicts) products dictss ->
  (fun product => filter (fun r => asin_matches (asin product) r) (concat dictss))
    <$> products = dictss.
Proof.
  intros Hnd H. induction H as [|p d products dictss Hd HF IH]; [done|].
  rewrite fmap_cons in Hnd. apply NoDup_cons in Hnd as [Hp Hnd].
  rewrite fmap_cons. simpl. f_equal.
  - rewrite filter_app, (filter_tagged_all p d Hd).
    rewrite (filter_concat_others products dictss (asin p)) by done.
    by rewrite app_nil_r.
  - etransitivity; [|exact (IH Hnd)]. apply list_fmap_ext. intros i q Hq.
    rewrite filter_app, (filter_tagged_none p (asin q) d); [done| |done].
    intros Heq. apply Hp. rewrite Heq. apply list_elem_of_fmap. exists q.
    split; [done|]. by eapply list_elem_of_lookup_2.
Qed.

Lemma deref_concat (objects : list ReviewDict) reviews_list :
  deref objects (concat reviews_list) = concat (deref objects <$> reviews_list).
Proof.
  unfold deref. induction reviews_list as [|refs reviews_list IH]; [done|].
  simpl. by rewrite omap_app, IH.
Qed.

Lemma analyses_with_context_unwrap serp_filtered i analyses with_context :
  analyses_with_context serp_filtered i analyses = Ok with_context ->
  (fun item => item.2) <$> with_context = analyses
  ∧ Forall (fun item => ∃ product, product ∈ serp_filtered
               ∧ item.1 = (asin product, title product)) with_context.
Proof.
  revert i with_context. induction analyses as [|a analyses IH]; intros i ctx; simpl.
  - intros [= <-]. by split.
  - destruct (index serp_filtered i) as [p|] eqn:Hp; simpl; [|done].
    destruct (analyses_with_context serp_filtered (S i) analyses) as [more|] eqn:Hm;
      simpl; [|done].
    intros [= <-]. destruct (IH _ _ Hm) as [<- HF]. split; [done|].
    constructor; [|done]. exists p. split; [|done].
    apply index_Ok in Hp. by eapply list_elem_of_lookup_2.
Qed.

Section Files.
Context {W : Type}.
#[local] Abbreviation St := (@State W).

Lemma written_app filename evs1 evs2 :
  written filename (evs1 ++ evs2) = (written filename evs1 ++ written filename evs2)%list.
Proof. apply omap_app. Qed.

Lemma written_analysis_events filename (objects : list ReviewDict) requests evs :
  evs ≡ₚ analysis_event objects <$> requests -> written filename evs = [].
Proof.
  intros Hp. assert (HF : Forall (fun ev => ∃ r, ev = analysis_event objects r) evs).
  { rewrite Hp. apply Forall_fmap, Forall_forall. intros r _. by exists r. }
  clear Hp. induction HF as [|ev evs [r ->] _ IH]; [done|]. exact IH.
Qed.

Lemma written_completed filename raw top pdl rl (objects : list ReviewDict) requests evsA
    ctx analyses :
  evsA ≡ₚ analysis_event objects <$> requests ->
  written filename (completed_events raw top pdl rl objects evsA ctx analyses)
  = (let data :=
       written filename
         [saved_raw raw; saved_filtered top; saved_products pdl; saved_reviews rl objects;
          saved_analyses ctx] in
     data ++ data)%list.
Proof.
  intros HA. unfold completed_events.
  rewrite !written_app, (written_analysis_events _ _ _ _ HA).
  unfold written, saved_raw, saved_filtered, saved_products, saved_reviews, saved_analyses.
  cbn [omap list_omap app].
  repeat match goal with |- context [String.eqb ?a filename] =>
    destruct (String.eqb_spec a filename) as [<-|?] end; try done.
Qed.

(** X18: a run that completes writes five files, each of them twice, with
    the same content both times: the second pass over the reviews, in
    [save_results], tags objects that carry their tags already, so
    [reviews.json] is rewritten as it was; nothing else is written. *)
Theorem run_writes_each_file_twice (h : @Handlers W) search client_filters detail_times
    analysis_times (st st' : St) :
  run h search client_filters detail_times analysis_times st = (Ok Completed, st') ->
  ∃ evs raw top product_data_list refs with_context,
    trace st' = (trace st ++ evs)%list
    ∧ written "serp_raw.json" evs = [RawResults raw; RawResults raw]
    ∧ written "serp_filtered.json" evs = [Filtered top; Filtered top]
    ∧ written "rainforest_products.json" evs
      = [ProductData product_data_list; ProductData product_data_list]
    ∧ written "reviews.json" evs
      = [AllReviews refs (deref (heap st') refs); AllReviews refs (deref (heap st') refs)]
    ∧ written "gemini_analysis.json" evs = [Analyses with_context; Analyses with_context]
    ∧ ∀ filename data, SaveJson filename data ∈ evs ->
        filename ∈ ["serp_raw.json"; "serp_filtered.json"; "rainforest_products.json";
                    "reviews.json"; "gemini_analysis.json"].
Proof.
  intros (raw & top & pdl & rl & evsA & ctx & analyses & requests & Htrace & _ & _ & _ & _
          & HA & _)%run_Completed_events.
  exists (completed_events raw top pdl rl (heap st') evsA ctx analyses),
    raw, top, pdl, (concat rl), ctx.
  split; [done|].
  rewrite !(written_completed _ _ _ _ _ _ _ _ _ _ HA).
  do 5 (split; [reflexivity|]).
  intros filename data. unfold completed_events.
  rewrite !elem_of_app. intros [Hin|[Hin|Hin]].
  - unfold saved_raw, saved_filtered, saved_products, saved_reviews in Hin.
    repeat (apply elem_of_cons in Hin as [[= -> _]|Hin]; [set_solver|]).
    by apply elem_of_nil in Hin.
  - rewrite HA in Hin. by apply list_elem_of_fmap in Hin as (r & [=] & _).
  - unfold saved_raw, saved_filtered, saved_products, saved_reviews, saved_analyses in Hin.
    repeat (apply elem_of_cons in Hin as [Heq|Hin];
            [try discriminate; injection Heq as -> _; set_solver|]).
    by apply elem_of_nil in Hin.
Qed.

(** X19: regenerating the report from the folder of a run that completed
    calls the generator with the arguments of the run's own call: the
    shortlist and the detail records as written, the analyses unwrapped,
    and the reviews of [reviews.json] regrouped by identifier into the lists
    that the run held, each review with its entry, in order.  The
    identifiers of the shortlist are pairwise distinct and every review
    carries the identifier of its entry, which is what the regrouping
    needs. *)
Theorem regenerate_reproduces_report (h : @Handlers W) search client_filters detail_times
    analysis_times (st st' : St) :
  run h search client_filters detail_times analysis_times st = (Ok Completed, st') ->
  ∃ evs folder top product_data_list refs reviews analyses,
    trace st' = (trace st ++ evs)%list
    ∧ run_folder evs = Some folder
    ∧ GenerateReport top product_data_list refs reviews analyses ∈ evs
    ∧ ∀ (R : Type) (generate : list ShortlistEntry -> list DetailRecord ->
                               list (list ReviewDict) -> list Analysis -> R),
        regenerate_html generate folder
        = generate top product_data_list reviews analyses.
Proof.
  intros (raw & top & pdl & rl & evsA & ctx & analyses & requests & Htrace & Hsel & Hlen
          & Htagged & _ & HA & Hctx)%run_Completed_events.
  destruct (shortlist_NoDup _ _ _ _ Hsel) as [Hnd _].
  destruct (analyses_with_context_unwrap _ _ _ _ Hctx) as [Hunwrap _].
  pose proof (tagged_report top rl (heap st') pdl analyses Hlen Htagged)
    as (_ & _ & _ & HF).
  exists (completed_events raw top pdl rl (heap st') evsA ctx analyses).
  exists {| serp_filtered_json := top; rainforest_products_json := pdl;
            reviews_json := deref (heap st') (concat rl);
            gemini_analysis_json := ctx |}.
  exists top, pdl, rl, (deref (heap st') <$> rl), analyses.
  split; [done|]. split; [|split].
  - unfold run_folder, file_content.
    by rewrite !(written_completed _ _ _ _ _ _ _ _ _ _ HA).
  - unfold completed_events. rewrite !elem_of_app. right. right.
    do 6 right. left.
  - intros R generate. unfold regenerate_html. cbn [serp_filtered_json
      rainforest_products_json reviews_json gemini_analysis_json].
    by rewrite Hunwrap, deref_concat, (regroup_tagged top _ Hnd HF).
Qed.

End Files.

Lemma run_writes_each_file_twice_witness :
  let outcome := run sample_handlers sample_search RankFacts.no_filters
                   [2; 0; 1]%nat [0; 0; 0]%nat sample_state in
  ∃ evs raw top product_data_list refs with_context,
    trace outcome.2 = (trace sample_state ++ evs)%list
    ∧ written "serp_raw.json" evs = [RawResults raw; RawResults raw]
    ∧ written "serp_filtered.json" evs = [Filtered top; Filtered top]
    ∧ written "rainforest_products.json" evs
      = [ProductData product_data_list; ProductData product_data_list]
    ∧ written "reviews.json" evs
      = [AllReviews refs (deref (heap outcome.2) refs);
         AllReviews refs (deref (heap outcome.2) refs)]
    ∧ written "gemini_analysis.json" evs = [Analyses with_context; Analyses with_context]
    ∧ ∀ filename data, SaveJson filename data ∈ evs ->
        filename ∈ ["serp_raw.json"; "serp_filtered.json"; "rainforest_products.json";
                    "reviews.json"; "gemini_analysis.json"].
Proof.
  intros outcome.
  apply (run_writes_each_file_twice sample_handlers sample_search RankFacts.no_filters
           [2; 0; 1]%nat [0; 0; 0]%nat sample_state outcome.2).
  apply pair_with_snd. vm_compute. reflexivity.
Defined.

Lemma regenerate_reproduces_report_witness :
  let outcome := run sample_handlers sample_search RankFacts.no_filters
                   [2; 0; 1]%nat [0; 0; 0]%nat sample_state in
  ∃ evs folder top product_data_list refs reviews analyses,
    trace outcome.2 = (trace sample_state ++ evs)%list
    ∧ run_folder evs = Some folder
    ∧ GenerateReport top product_data_list refs reviews analyses ∈ evs
    ∧ ∀ (R : Type) (generate : list ShortlistEntry -> list DetailRecord ->
                               list (list ReviewDict) -> list Analysis -> R),
        regenerate_html generate folder
        = generate top product_data_list reviews analyses.
Proof.
  intros outcome.
  apply (regenerate_reproduces_report sample_handlers sample_search RankFacts.no_filters
           [2; 0; 1]%nat [0; 0; 0]%nat sample_state outcome.2).
  apply pair_with_snd. vm_compute. reflexivity.
Defined.

(** The folder of the sample run, regrouped: the reviews of [B], of [A] and
    of [C], as the run held them. *)
Example sample_run_regrouped :
  let outcome := run sample_handlers sample_search RankFacts.no_filters
                   [2; 0; 1]%nat [0; 0; 0]%nat sample_state in
  (fun folder => regenerate_html (fun _ _ reviews _ => length <$> reviews) folder)
    <$> run_folder (trace outcome.2)
  = Some [2; 2; 2]%nat.
Proof. vm_compute. reflexivity. Qed.

End RegenerateFacts.

(** ** The paginated search ([serp_handler.py]) *)

Module Serp.
Import PyStr.

(** What the loop reads of the JSON object of a page: the values under
    ['products'] and ['organic_results'] ([None]: the key is absent or
    null), and whether [serpapi_pagination] holds a ['next'] that is true. *)
Record SerpPage : Type := mkPage {
  p_products : option (list Candidate);
  p_organic_results : option (list Candidate);
  p_next : bool
}.

(** What [requests.get] and [response.json()] come to for a page: the request
    raises, or a response arrives with its status and, when its body is a
    JSON object, the page. *)
Inductive page_outcome : Type :=
| PageException (msg : string)
| PageResponse (status_code : Z) (json : option SerpPage).

(** [products = data.get("products", []); if not products: products =
    data.get("organic_results", [])]; a value that is still empty or null
    ends the loop. *)
Definition products_of (data : SerpPage) : list Candidate :=
  match p_products data with
  | Some (product :: products) => product :: products
  | _ => default [] (p_organic_results data)
  end.

Section Paginated.
Context {W : Type}.

(** The request for page [page_num], the other parameters being those of
    the call; and [time.sleep(delay)]. *)
Variable requests_get : nat -> W -> page_outcome * W.
Variable sleep : W -> W.

(** The loop [for page_num in range(1, pages + 1)], from page [page_num] on
    with [remaining] pages to go: every [break] returns what has been
    collected. *)
Fixpoint pages_loop (pages remaining page_num : nat) (all_products : list Candidate)
  (w : W) : list Candidate * W :=
  match remaining with
  | O => (all_products, w)
  | S remaining' =>
      let '(response, w) := requests_get page_num w in
      match response with
      | PageResponse status_code json =>
          if negb (status_code =? 200)%Z then (all_products, w)
          else
            match json with
            | Some data =>
                match products_of data with
                | [] => (all_products, w)
                | products =>
                    let all_products := (all_products ++ products)%list in
                    if negb (p_next data) then (all_products, w)
                    else
                      let w := if (page_num <? pages)%nat then sleep w else w in
                      pages_loop pages remaining' (S page_num) all_products w
                end
            | None => (all_products, w)              (* except Exception *)
            end
      | PageException _ => (all_products, w)   (* except requests.RequestException *)
      end
  end.

(** [search_products_paginated]: it does not raise. *)
Definition search_products_paginated (pages : nat) (w : W) : list Candidate * W :=
  pages_loop pages pages 1 [] w.

End Paginated.

(** *** The requests of a search *)

(** The same provider, with a record of the pages asked for and of what
    came back. *)
Definition recorded {W : Type} (requests_get : nat -> W -> page_outcome * W)
  (page_num : nat) (w : W * list (nat * page_outcome))
  : page_outcome * (W * list (nat * page_outcome)) :=
  let '(response, w') := requests_get page_num w.1 in
  (response, (w', (w.2 ++ [(page_num, response)])%list)).

(** The products that a response adds to the result. *)
Definition products_in (response : page_outcome) : list Candidate :=
  match response with
  | PageResponse 200 (Some data) => products_of data
  | _ => []
  end.

(** The loop goes on after a response: it has status 200, products, and a
    next page. *)
Definition goes_on (response : page_outcome) : bool :=
  match response with
  | PageResponse 200 (Some data) =>
      match products_of data with
      | [] => false
      | _ => p_next data
      end
  | _ => false
  end.

End Serp.

Module SerpFacts.
Import PyStr Serp.

Section Paginated.
Context {W : Type}.
Variable requests_get : nat -> W -> page_outcome * W.
Variable sleep : W -> W.

#[local] Abbreviation Log := (list (nat * page_outcome)).

Lemma not_200 status_code json :
  status_code ≠ 200%Z ->
  products_in (PageResponse status_code json) = []
  ∧ goes_on (PageResponse status_code json) = false.
Proof.
  intros Hne. simpl. destruct status_code as [|p|p]; try done.
  do 8 (destruct p as [p|p|]; try done).
Qed.

Lemma goes_on_products response : goes_on response = true -> products_in response ≠ [].
Proof.
  destruct response as [msg|status_code json]; [done|].
  destruct (Z.eq_dec status_code 200%Z) as [->|Hne].
  - destruct json as [data|]; [|done]. simpl. by destruct (products_of data).
  - by rewrite (proj2 (not_200 status_code json Hne)).
Qed.

(** What the record says once the loop has ended. *)
Definition search_record (remaining page_num : nat) (all_products result : list Candidate)
  (new : Log) : Prop :=
  new.*1 = seq page_num (length new)
  ∧ (length new ≤ remaining)%nat
  ∧ result = (all_products ++ concat (products_in <$> new.*2))%list
  ∧ (∀ i response, new.*2 !! i = Some response -> (S i < length new)%nat ->
       goes_on response = true)
  ∧ ((length new < remaining)%nat ->
     ∃ response, last new.*2 = Some response ∧ goes_on response = false).

Lemma search_record_stop remaining page_num all_products response :
  goes_on response = false ->
  search_record (S remaining) page_num all_products
    (all_products ++ products_in response) [(page_num, response)].
Proof.
  intros Hg. unfold search_record. simpl. rewrite app_nil_r.
  split; [done|]. split; [lia|]. split; [done|]. split.
  - intros [|i] r Hi Hlt; simpl in *; lia.
  - intros _. by exists response.
Qed.

Lemma search_record_go remaining page_num all_products data result new :
  goes_on (PageResponse 200 (Some data)) = true ->
  search_record remaining (S page_num) (all_products ++ products_of data) result new ->
  search_record (S remaining) page_num all_products result
    ((page_num, PageResponse 200 (Some data)) :: new).
Proof.
  intros Hg (Hpages & Hlen & -> & Hgo & Hlast). unfold search_record.
  rewrite !fmap_cons. cbn [fst snd length seq concat products_in].
  rewrite Hpages, <- app_assoc.
  split; [done|]. split; [lia|]. split; [done|]. split.
  - intros [|i] r Hi Hlt; simpl in *.
    + by injection Hi as <-.
    + apply (Hgo i); [done|lia].
  - intros Hlt. destruct Hlast as (r & Hr & Hgr); [lia|].
    exists r. split; [|done]. by destruct (new.*2).
Qed.

Lemma pages_loop_recorded pages remaining page_num all_products (w : W) (log : Log)
    result w' log' :
  pages_loop (recorded requests_get) (fun s => (sleep s.1, s.2))
    pages remaining page_num all_products (w, log) = (result, (w', log')) ->
  ∃ new, log' = (log ++ new)%list
    ∧ search_record remaining page_num all_products result new.
Proof.
  revert page_num all_products w log.
  induction remaining as [|remaining IH]; intros page_num all_products w log H.
  - injection H as <- <- <-. exists []. rewrite !app_nil_r. unfold search_record. simpl.
    rewrite app_nil_r. repeat split; try done. lia.
  - cbn [pages_loop] in H. unfold recorded at 1 in H. cbn [fst snd] in H.
    destruct (requests_get page_num w) as [response w1] eqn:Hget.
    assert (Hstop : goes_on response = false ->
              (result, (w', log'))
              = ((all_products ++ products_in response)%list,
                 (w1, (log ++ [(page_num, response)])%list)) ->
              ∃ new, log' = (log ++ new)%list
                ∧ search_record (S remaining) page_num all_products result new).
    { intros Hg [= -> -> ->]. exists [(page_num, response)].
      split; [done|]. by apply search_record_stop. }
    destruct response as [msg|status_code json].
    { apply Hstop; [done|]. simpl. by rewrite app_nil_r, <- H. }
    destruct (Z.eqb_spec status_code 200) as [->|Hne]; cbn [negb] in H.
    2: { destruct (not_200 status_code json Hne) as [Hp Hg].
         apply Hstop; [done|]. rewrite Hp, app_nil_r. by rewrite <- H. }
    destruct json as [data|].
    2: { apply Hstop; [done|]. simpl. by rewrite app_nil_r, <- H. }
    destruct (products_of data) as [|product products] eqn:Hp.
    { apply Hstop; [by simpl; rewrite Hp|]. simpl. by rewrite Hp, app_nil_r, <- H. }
    destruct (p_next data) eqn:Hnext; cbn [negb] in H.
    2: { apply Hstop; [by simpl; rewrite Hp|]. simpl. by rewrite Hp, <- H. }
    match type of H with pages_loop _ _ pages remaining (S page_num) ?a ?s = _ =>
      assert (Hs : ∃ w'', s = (w'', (log ++ [(page_num, PageResponse 200 (Some data))])%list))
    end.
    { destruct (page_num <? pages)%nat; by eexists. }
    destruct Hs as [w'' Hs]. rewrite Hs in H.
    destruct (IH _ _ _ _ H) as (new & -> & Hrec).
    exists ((page_num, PageResponse 200 (Some data)) :: new).
    split; [by rewrite <- app_assoc|].
    apply search_record_go; [by simpl; rewrite Hp|]. by rewrite Hp.
Qed.

(** The record changes nothing: the recorded search returns what the
    search returns, in the same state of the world. *)
Lemma recorded_eq page_num (w : W) (log : Log) :
  recorded requests_get page_num (w, log)
  = ((requests_get page_num w).1,
     ((requests_get page_num w).2,
      (log ++ [(page_num, (requests_get page_num w).1)])%list)).
Proof. unfold recorded. simpl. by destruct (requests_get page_num w). Qed.

Lemma pages_loop_unrecorded pages remaining page_num all_products (w : W) (log : Log) :
  pages_loop requests_get sleep pages remaining page_num all_products w
  = ((pages_loop (recorded requests_get) (fun s => (sleep s.1, s.2))
        pages remaining page_num all_products (w, log)).1,
     (pages_loop (recorded requests_get) (fun s => (sleep s.1, s.2))
        pages remaining page_num all_products (w, log)).2.1).
Proof.
  revert page_num all_products w log.
  induction remaining as [|remaining IH]; intros page_num all_products w log; [done|].
  cbn [pages_loop]. rewrite !recorded_eq.
  destruct (requests_get page_num w) as [[msg|status_code json] w1]; [done|].
  cbn [fst snd].
  destruct (negb (status_code =? 200)%Z); [done|].
  destruct json as [data|]; [|done].
  destruct (products_of data) as [|product products]; [done|].
  destruct (negb (p_next data)); [done|].
  destruct (page_num <? pages)%nat; apply IH.
Qed.

Lemma search_record_empty remaining page_num result new :
  search_record remaining page_num [] result new ->
  result = [] <-> remaining = 0%nat
                  ∨ ∃ response, new = [(page_num, response)] ∧ products_in response = [].
Proof.
  intros (Hpages & Hlen & -> & Hgo & Hlast). simpl.
  destruct new as [|[p r] new].
  - split; [|done]. intros _. destruct remaining as [|n]; [by left|].
    destruct Hlast as (response & Hr & _); [simpl; lia|done].
  - rewrite fmap_cons in Hpages. simpl in Hpages. injection Hpages as -> Hpages.
    destruct new as [|[p' r'] new].
    + simpl. rewrite app_nil_r. split.
      * intros Hnil. right. by exists r.
      * intros [->|(response & [= <-] & Hnil)]; [simpl in Hlen; lia|done].
    + split.
      * intros Hnil. exfalso.
        assert (Hg : goes_on r = true) by (apply (Hgo 0%nat); [done|simpl; lia]).
        rewrite !fmap_cons in Hnil. cbn [snd concat] in Hnil.
        apply app_eq_nil in Hnil as [Hnil _]. by apply goes_on_products in Hg.
      * intros [->|(response & [=] & _)]. simpl in Hlen. lia.
Qed.

(** X20: the paginated search asks for the pages 1, 2, ... in order, at
    most [pages] of them, and stops at the first response that does not let
    it go on (a request that raises, a status other than 200, a body that
    is not an object, a page without products, or one without a next page):
    every response before the last is one after which the loop goes on, and
    when fewer than [pages] pages were asked for, the last response is one
    that stops it.  The result is the concatenation, in page order, of the
    products of the responses received; it is empty exactly when no page
    was to be fetched or the first response brought no product.  The
    function returns for every provider: no failure of a request reaches
    the caller. *)
Theorem search_products_paginated_pages pages (w : W) :
  ∃ result w' new,
    search_products_paginated requests_get sleep pages w = (result, w')
    ∧ search_products_paginated (recorded requests_get) (fun s => (sleep s.1, s.2))
        pages (w, []) = (result, (w', new))
    ∧ new.*1 = seq 1 (length new)
    ∧ (length new ≤ pages)%nat
    ∧ result = concat (products_in <$> new.*2)
    ∧ (∀ i response, new.*2 !! i = Some response -> (S i < length new)%nat ->
         goes_on response = true)
    ∧ ((length new < pages)%nat ->
       ∃ response, last new.*2 = Some response ∧ goes_on response = false)
    ∧ (result = [] <-> pages = 0%nat
                       ∨ ∃ response, new = [(1%nat, response)]
                           ∧ products_in response = []).
Proof.
  unfold search_products_paginated.
  rewrite (pages_loop_unrecorded pages pages 1 [] w []).
  destruct (pages_loop _ _ pages pages 1 [] (w, [])) as [result [w' log']] eqn:H.
  destruct (pages_loop_recorded _ _ _ _ _ _ _ _ _ H) as (new & -> & Hrec).
  exists result, w', new. split; [done|]. split; [done|].
  pose proof (search_record_empty _ _ _ _ Hrec) as Hempty.
  destruct Hrec as (H1 & H2 & H3 & H4 & H5).
  split; [done|]. split; [done|]. split; [done|]. split; [done|]. split; [done|].
  exact Hempty.
Qed.

End Paginated.
End SerpFacts.

(** ** The search inside a run *)

Module SerpRun.
Import PyStr Orchestrator Serp.

(** [scraper.search_products_paginated(...)] as [run] calls it: the parameters
    of the configuration are those of [requests_get]; the call does not
    raise. *)
Definition scraper_search {W : Type} (requests_get : nat -> W -> page_outcome * W)
  (sleep : W -> W) (pages : nat) : @call W (list Candidate) :=
  fun w =>
    let '(all_products, w') := search_products_paginated requests_get sleep pages w in
    (Ok all_products, w').

End SerpRun.

Module SerpRunFacts.
Import PyStr Orchestrator OrchestratorFacts Serp SerpFacts SerpRun.

Section SerpRun.
Context {W : Type}.
Variable requests_get : nat -> W -> page_outcome * W.
Variable sleep : W -> W.
#[local] Abbreviation St := (@State W).

(** The loop only adds to what it has collected. *)
Lemma pages_loop_prefix pages remaining page_num all_products (w : W) :
  ∃ more, (pages_loop requests_get sleep pages remaining page_num all_products w).1
          = (all_products ++ more)%list.
Proof.
  revert page_num all_products w.
  induction remaining as [|remaining IH]; intros page_num all_products w.
  - exists []. simpl. by rewrite app_nil_r.
  - cbn [pages_loop].
    destruct (requests_get page_num w) as [[msg|status_code json] w1].
    { exists []. simpl. by rewrite app_nil_r. }
    destruct (negb (status_code =? 200)%Z).
    { exists []. simpl. by rewrite app_nil_r. }
    destruct json as [data|].
    2: { exists []. simpl. by rewrite app_nil_r. }
    destruct (products_of data) as [|product products].
    { exists []. simpl. by rewrite app_nil_r. }
    destruct (negb (p_next data)).
    { by exists (product :: products). }
    destruct (IH (S page_num) (all_products ++ product :: products)%list
                (if (page_num <? pages)%nat then sleep w1 else w1)) as [more ->].
    exists ((product :: products) ++ more)%list. by rewrite <- app_assoc.
Qed.

(** The search brings nothing exactly when no page is to be fetched or the
    first response holds no product. *)
Lemma search_nothing pages (w : W) :
  (search_products_paginated requests_get sleep pages w).1 = []
  <-> pages = 0%nat ∨ products_in (requests_get 1 w).1 = [].
Proof.
  unfold search_products_paginated. destruct pages as [|pages].
  { split; [by left|done]. }
  cbn [pages_loop].
  destruct (requests_get 1 w) as [[msg|status_code json] w1]; cbn [fst].
  { split; [by right|done]. }
  destruct (Z.eqb_spec status_code 200) as [->|Hne]; cbn [negb].
  2: { split; [|done]. intros _. right. by apply not_200. }
  destruct json as [data|]; [|split; [by right|done]].
  cbn [products_in].
  destruct (products_of data) as [|product products]; [split; [by right|done]|].
  split; [|by intros [?|?]].
  destruct (negb (p_next data)); [done|].
  match goal with |- context [pages_loop _ _ ?p ?r ?n ?a ?s] =>
    destruct (pages_loop_prefix p r n a s) as [more ->] end.
  done.
Qed.

(** A run that returns a status has one of three histories. *)
Lemma run_status_cases (h : @Handlers W) search client_filters detail_times
    analysis_times (st st' : St) status raw w1 :
  search (world st) = (Ok raw, w1) ->
  run h search client_filters detail_times analysis_times st = (Ok status, st') ->
  (status = NoProducts ∧ raw = [])
  ∨ (status = NoSurvivors ∧ raw ≠ [])
  ∨ (status = Completed ∧ raw ≠ []).
Proof.
  intros Hsearch H. unfold run in H. unfold bindM at 1 in H. rewrite Hsearch in H.
  destruct raw as [|c raw].
  { left. unfold retM in H. by injection H as <- _. }
  right.
  unfold bindM at 1 in H. unfold save_to_json at 1, emit in H. cbn [world heap trace] in H.
  destruct (Rank.filter_products client_filters (c :: raw)) as [|p filtered].
  { left. unfold retM in H. by injection H as <- _. }
  right.
  apply bindM_Ok in H as (top & s3 & _ & H).
  apply bindM_Ok in H as ([] & s4 & _ & H).
  apply bindM_Ok in H as ([pdl rl] & s5 & _ & H).
  apply bindM_Ok in H as ([] & s6 & _ & H).
  apply bindM_Ok in H as ([] & s7 & _ & H).
  apply bindM_Ok in H as (analyses & s8 & _ & H).
  apply bindM_Ok in H as ([] & s9 & _ & H).
  apply bindM_Ok in H as ([] & s10 & _ & H).
  apply bindM_Ok in H as ([] & s11 & _ & H).
  apply bindM_Ok in H as ([] & s12 & _ & H).
  unfold retM in H. by injection H as <- _.
Qed.

(** X26: a search that fails is silent.  With the paginated search as its
    search, the run ends with the status of "no products found" exactly when
    no page is to be fetched or the first response holds no product: the
    request raises, the status is not 200, the body is not an object, or
    the page is empty.  The run then raises nothing, writes nothing, calls
    no other provider and makes no review object. *)
Theorem run_search_failure_is_silent (h : @Handlers W) pages client_filters detail_times
    analysis_times (st : St) :
  let outcome := run h (scraper_search requests_get sleep pages) client_filters
                   detail_times analysis_times st in
  (outcome.1 = Ok NoProducts
   <-> pages = 0%nat ∨ products_in (requests_get 1 (world st)).1 = [])
  ∧ (outcome.1 = Ok NoProducts ->
     heap outcome.2 = heap st ∧ trace outcome.2 = trace st
     ∧ world outcome.2
       = (search_products_paginated requests_get sleep pages (world st)).2).
Proof.
  intros outcome.
  pose proof (search_nothing pages (world st)) as Hnothing.
  assert (Hsearch : scraper_search requests_get sleep pages (world st)
            = (Ok (search_products_paginated requests_get sleep pages (world st)).1,
               (search_products_paginated requests_get sleep pages (world st)).2)).
  { unfold scraper_search. by destruct (search_products_paginated _ _ _ _). }
  destruct (outcome) as [r st'] eqn:Hout. unfold outcome in Hout. cbn [fst snd].
  assert (Hnil : (search_products_paginated requests_get sleep pages (world st)).1 = []
            -> (r, st') = (Ok NoProducts,
                           {| world := (search_products_paginated requests_get sleep pages
                                          (world st)).2;
                              heap := heap st; trace := trace st |})).
  { intros Hraw. rewrite <- Hout. unfold run. unfold bindM at 1.
    by rewrite Hsearch, Hraw. }
  split.
  - rewrite <- Hnothing. split.
    + intros ->.
      destruct (run_status_cases _ _ _ _ _ _ _ _ _ _ Hsearch Hout)
        as [[_ ?]|[[? _]|[? _]]]; done.
    + intros Hraw. by injection (Hnil Hraw) as -> _.
  - intros ->.
    destruct (run_status_cases _ _ _ _ _ _ _ _ _ _ Hsearch Hout)
      as [[_ Hraw]|[[? _]|[? _]]]; [|done..].
    by injection (Hnil Hraw) as ->.
Qed.

End SerpRun.
End SerpRunFacts.

(** ** The reviews in the analysis prompt ([gemini_handler.py]) *)

Module Prompt.
Import PyStr Orchestrator.

Section Formatting.

(** How an f-string writes a number; the model leaves it open. *)
Variable format_number : Q -> string.

(** [f"{v}"] *)
Definition format_value (v : value) : string :=
  match v with
  | VNone => "None"
  | VNum q => format_number q
  | VStr s => s
  end.

(** [if v:] *)
Definition truthy (v : value) : bool :=
  match v with
  | VNone => false
  | VNum q => negb (Qeq_bool q 0)
  | VStr s => negb (String.eqb s "")
  end.

(** [review.get('ratingScore', review.get('rating', 'N/A'))] *)
Definition rating_of (review : ReviewDict) : value :=
  default (default (VStr "N/A") (review !! "rating")) (review !! "ratingScore").

(** [review.get('reviewDescription', review.get('text', review.get('body', '')))] *)
Definition description_of (review : ReviewDict) : value :=
  default (default (default (VStr "") (review !! "body")) (review !! "text"))
    (review !! "reviewDescription").

(** The line of a review, when its description is true. *)
Definition review_line (review : ReviewDict) : option string :=
  let rating := rating_of review in
  let description := description_of review in
  if truthy description
  then Some (format_value rating ++ ": " ++ format_value description)
  else None.

(** [reviews_text], the list built by the loop [for review in reviews]. *)
Definition reviews_text (reviews : list ReviewDict) : list string :=
  omap review_line reviews.

(** [reviews_combined = "\n".join(reviews_text)] *)
Definition reviews_combined (reviews : list ReviewDict) : string :=
  String.concat (String newline "") (reviews_text reviews).

End Formatting.
End Prompt.

Module PromptFacts.
Import PyStr Orchestrator Prompt.

Section Formatting.
Variable format_number : Q -> string.

(** The line of a review depends on five of its keys only. *)
Lemma review_line_keys (review review' : ReviewDict) :
  (∀ k, k ∈ ["ratingScore"; "rating"; "reviewDescription"; "text"; "body"] ->
        review' !! k = review !! k) ->
  review_line format_number review' = review_line format_number review.
Proof.
  intros H. unfold review_line, rating_of, description_of.
  rewrite !H; [done|set_solver..].
Qed.

(** X21: the reviews that the analysis prompt quotes do not depend on the
    keys [asin] and [product_title] that the run adds to the review
    objects: the prompt built from the tagged reviews is the prompt built
    from the reviews as the provider returned them.  More generally it
    depends on the keys [ratingScore], [rating], [reviewDescription],
    [text] and [body] only. *)
Theorem prompt_ignores_tags :
  (∀ product reviews,
     reviews_combined format_number (tag product <$> reviews)
     = reviews_combined format_number reviews)
  ∧ (∀ reviews reviews',
       Forall2 (fun review review' =>
                  ∀ k, k ∈ ["ratingScore"; "rating"; "reviewDescription"; "text"; "body"] ->
                       review' !! k = review !! k) reviews reviews' ->
       reviews_combined format_number reviews' = reviews_combined format_number reviews).
Proof.
  assert (Hgen : ∀ reviews reviews',
    Forall2 (fun review review' =>
               ∀ k, k ∈ ["ratingScore"; "rating"; "reviewDescription"; "text"; "body"] ->
                    review' !! k = review !! k) reviews reviews' ->
    reviews_combined format_number reviews' = reviews_combined format_number reviews).
  { intros reviews reviews' HF. unfold reviews_combined, reviews_text. f_equal.
    induction HF as [|r r' rs rs' Hr _ IH]; [done|].
    cbn [omap list_omap]. by rewrite (review_line_keys r r' Hr), IH. }
  split; [|exact Hgen].
  intros product reviews. apply Hgen.
  apply Forall2_fmap_r, Forall_Forall2_diag, Forall_forall.
  intros review _ k Hk. unfold tag.
  rewrite !lookup_insert_ne; [done|..]; intros <-;
    repeat (apply elem_of_cons in Hk as [Hk|Hk]; [discriminate|]);
    by apply elem_of_nil in Hk.
Qed.

End Formatting.
End PromptFacts.

(** ** The name of the run folder ([create_run_folder]) *)

Module RunFolder.
Import PyStr.

(** [c.isalpha()] and [c.isalnum()] on ASCII. *)
Definition isalpha (c : ascii) : bool :=
  let n := nat_of_ascii c in
  ((65 <=? n)%nat && (n <=? 90)%nat) || ((97 <=? n)%nat && (n <=? 122)%nat).

Definition isalnum (c : ascii) : bool := isalpha c || isdigit c.

(** [s.split()]: the words of [s], cut at runs of white space; [word] holds
    the characters of the word being read. *)
Fixpoint split_whitespace (word : string) (s : string) : list string :=
  match s with
  | EmptyString => if String.eqb word "" then [] else [word]
  | String c s' =>
      if isspace c then
        if String.eqb word "" then split_whitespace "" s'
        else word :: split_whitespace "" s'
      else split_whitespace (word ++ String c "") s'
  end.

(** The part of the folder name made from the query:
    [query_clean = "".join(c if c.isalnum() or c.isspace() else '' for c in query)],
    then ["-".join(query_clean.split())[:30]]. *)
Definition query_clean (query : string) : string :=
  let query_clean := keep_chars (fun c => isalnum c || isspace c) query in
  String.substring 0 30 (String.concat "-" (split_whitespace "" query_clean)).

(** [folder_name = f"{timestamp}-{query_clean}"] *)
Definition folder_name (timestamp query : string) : string :=
  timestamp ++ "-" ++ query_clean query.

(** Every character of [s] satisfies [P]. *)
Fixpoint all_chars (P : ascii -> bool) (s : string) : bool :=
  match s with
  | EmptyString => true
  | String c s' => P c && all_chars P s'
  end.

End RunFolder.

Module RunFolderFacts.
Import PyStr RunFolder TextFacts.

Lemma all_chars_app P s t : all_chars P (s ++ t) = all_chars P s && all_chars P t.
Proof.
  induction s as [|c s IH]; [done|].
  change (String c s ++ t) with (String c (s ++ t)). cbn [all_chars].
  by rewrite IH, andb_assoc.
Qed.

Lemma all_chars_impl (P Q : ascii -> bool) s :
  (∀ c, P c = true -> Q c = true) -> all_chars P s = true -> all_chars Q s = true.
Proof.
  intros H. induction s as [|c s IH]; [done|]. cbn [all_chars].
  intros [Hc Hs]%andb_true_iff. by rewrite (H c Hc), (IH Hs).
Qed.

Lemma all_chars_keep P s : all_chars P (keep_chars P s) = true.
Proof.
  induction s as [|c s IH]; [done|]. cbn [keep_chars].
  destruct (P c) eqn:Hc; [|done]. cbn [all_chars]. by rewrite Hc.
Qed.

Lemma all_chars_substring P n s :
  all_chars P s = true -> all_chars P (String.substring 0 n s) = true.
Proof.
  revert s. induction n as [|n IH]; intros [|c s]; try done.
  cbn [String.substring all_chars]. intros [Hc Hs]%andb_true_iff.
  by rewrite Hc, (IH s Hs).
Qed.

Lemma length_substring n s : (String.length (String.substring 0 n s) ≤ n)%nat.
Proof.
  revert s. induction n as [|n IH]; intros [|c s]; simpl; try lia.
  specialize (IH s). lia.
Qed.

(** The words are not empty and hold no white space. *)
Lemma split_whitespace_words P word s :
  all_chars P word = true -> all_chars (fun c => P c || isspace c) s = true ->
  Forall (fun w => w ≠ "" ∧ all_chars P w = true) (split_whitespace word s).
Proof.
  revert word. induction s as [|c s IH]; intros word Hw Hs; cbn [split_whitespace].
  - destruct (String.eqb_spec word ""); [constructor|]. by repeat constructor.
  - cbn [all_chars] in Hs. apply andb_true_iff in Hs as [Hc Hs].
    destruct (isspace c) eqn:Hsp.
    + destruct (String.eqb_spec word "").
      * by apply IH.
      * constructor; [done|]. by apply IH.
    + apply IH; [|done]. rewrite all_chars_app, Hw. cbn [all_chars].
      rewrite orb_false_r in Hc. by rewrite Hc.
Qed.

Lemma all_chars_concat P sep words :
  all_chars P sep = true -> Forall (fun w => all_chars P w = true) words ->
  all_chars P (String.concat sep words) = true.
Proof.
  intros Hsep. induction 1 as [|w words Hw _ IH]; [done|].
  cbn [String.concat]. destruct words as [|w' words]; [done|].
  by rewrite !all_chars_app, Hw, Hsep, IH.
Qed.

Lemma substring_head n c s c' s' :
  String.substring 0 n (String c s) = String c' s' -> c' = c.
Proof. destruct n; [done|]. simpl. by intros [= <- _]. Qed.

Lemma concat_head sep w words c s :
  w ≠ "" -> String.concat sep (w :: words) = String c s -> ∃ w', w = String c w'.
Proof.
  intros Hw. destruct w as [|c' w']; [done|]. cbn [String.concat].
  destruct words as [|? ?].
  - intros [= -> ->]. by eexists.
  - change (String c' w' ++ ?x) with (String c' (w' ++ x)). intros [= -> _]. by eexists.
Qed.

(** X22: the part of the run folder's name that comes from the query is at
    most 30 characters long and made of letters, digits and dashes only,
    whatever the query: no path separator, dot or white space gets into the
    folder name through the query.  It does not begin with a dash.  So the
    folder name, behind a time stamp of digits and dashes, is made of
    letters, digits and dashes. *)
Theorem query_clean_safe query :
  (String.length (query_clean query) ≤ 30)%nat
  ∧ all_chars (fun c => isalnum c || Ascii.eqb c "-") (query_clean query) = true
  ∧ startswith "-" (query_clean query) = false
  ∧ (∀ timestamp,
       all_chars (fun c => isalnum c || Ascii.eqb c "-") timestamp = true ->
       all_chars (fun c => isalnum c || Ascii.eqb c "-") (folder_name timestamp query)
       = true).
Proof.
  pose proof (split_whitespace_words isalnum ""
    (keep_chars (fun c => isalnum c || isspace c) query) eq_refl (all_chars_keep _ _))
    as Hwords.
  assert (Hsafe : all_chars (fun c => isalnum c || Ascii.eqb c "-") (query_clean query)
                  = true).
  { unfold query_clean. apply all_chars_substring, all_chars_concat; [done|].
    eapply Forall_impl; [exact Hwords|]. intros w [_ Hw].
    eapply all_chars_impl; [|exact Hw]. intros c ->. done. }
  split; [|split; [exact Hsafe|split]].
  - apply length_substring.
  - unfold query_clean.
    destruct (split_whitespace _ _) as [|w words]; [done|].
    apply Forall_cons in Hwords as [[Hne Hw] _].
    destruct (String.substring 0 30 (String.concat "-" (w :: words))) as [|c s] eqn:Hsub;
      [done|].
    destruct (String.concat "-" (w :: words)) as [|c0 s0] eqn:Hcat; [done|].
    apply substring_head in Hsub as ->.
    destruct (concat_head _ _ _ _ _ Hne Hcat) as [w' ->].
    cbn [all_chars] in Hw. apply andb_true_iff in Hw as [Hc _].
    rewrite startswith_cons. by destruct (Ascii.ascii_dec "-" c0) as [<-|].
  - intros timestamp Ht. unfold folder_name. by rewrite !all_chars_app, Ht, Hsafe.
Qed.

Example query_clean_sample :
  query_clean "  wireless   earbuds (2024) / bluetooth 5.3, noise-cancelling "
  = "wireless-earbuds-2024-bluetoot".
Proof. vm_compute. reflexivity. Qed.

End RunFolderFacts.

(** ** Review pages of the Rainforest handler ([rainforest_handler.py]) *)

Module ReviewPages.
Import PyStr Orchestrator.

(** What the loop reads of a response that is not empty: the list under
    ['reviews'] ([None]: the key is absent or null) and the number under
    ['pagination']['total_pages'] ([None]: no such key). *)
Record ReviewsData : Type := mkReviewsData {
  rd_reviews : option (list ReviewDict);
  rd_total_pages : option Z
}.

Section Pages.
Context {W : Type}.

(** [self.get_product_reviews(asin, amazon_domain, page)] for the product of
    the call: the response, or [None] for [{}], which the method returns on
    every failure. *)
Variable get_product_reviews : nat -> W -> option ReviewsData * W.

(** [max_pages and page > max_pages]: a limit of [None] or 0 is no limit. *)
Definition limit_reached (max_pages : option nat) (page : nat) : bool :=
  match max_pages with
  | Some (S m) => (S m <? page)%nat
  | _ => false
  end.

(** The loop [while True] of [get_all_reviews], from page [page] on.  Each
    turn of the loop takes one unit of [fuel]; [None] says that the fuel did
    not suffice. *)
Fixpoint get_all_reviews_loop (fuel : nat) (max_pages : option nat) (page : nat)
  (all_reviews : list ReviewDict) (w : W) : option (list ReviewDict * W) :=
  match fuel with
  | O => None
  | S fuel' =>
      if limit_reached max_pages page then Some (all_reviews, w)
      else
        let '(data, w) := get_product_reviews page w in
        match data with
        | None => Some (all_reviews, w)
        | Some data =>
            match default [] (rd_reviews data) with
            | [] => Some (all_reviews, w)
            | reviews =>
                let all_reviews := (all_reviews ++ reviews)%list in
                let total_pages := default 1%Z (rd_total_pages data) in
                if (total_pages <=? Z.of_nat page)%Z then Some (all_reviews, w)
                else get_all_reviews_loop fuel' max_pages (S page) all_reviews w
            end
        end
  end.

Definition get_all_reviews (fuel : nat) (max_pages : option nat) (w : W)
  : option (list ReviewDict * W) :=
  get_all_reviews_loop fuel max_pages 1 [] w.

End Pages.

(** The same provider, with a record of the pages asked for. *)
Definition logged {W : Type} (get_product_reviews : nat -> W -> option ReviewsData * W)
  (page : nat) (w : W * list nat) : option ReviewsData * (W * list nat) :=
  let '(data, w') := get_product_reviews page w.1 in
  (data, (w', (w.2 ++ [page])%list)).

End ReviewPages.

Module ReviewPagesFacts.
Import PyStr Orchestrator ReviewPages.

Section Pages.
Context {W : Type}.
Variable get_product_reviews : nat -> W -> option ReviewsData * W.

Lemma logged_eq page (w : W) (log : list nat) :
  logged get_product_reviews page (w, log)
  = ((get_product_reviews page w).1,
     ((get_product_reviews page w).2, (log ++ [page])%list)).
Proof. unfold logged. simpl. by destruct (get_product_reviews page w). Qed.

(** With a limit, the loop ends within the limit. *)
Lemma get_all_reviews_loop_bounded m page all_reviews (w : W) (log : list nat) fuel :
  (page ≤ S (S m))%nat -> (S (S m) - page < fuel)%nat ->
  ∃ result w' new,
    get_all_reviews_loop (logged get_product_reviews) fuel (Some (S m)) page all_reviews
      (w, log) = Some (result, (w', (log ++ new)%list))
    ∧ new = seq page (length new)
    ∧ (page + length new ≤ S (S m))%nat.
Proof.
  revert page all_reviews w log.
  induction fuel as [|fuel IH]; intros page all_reviews w log Hpage Hfuel; [lia|].
  cbn [get_all_reviews_loop limit_reached].
  destruct (Nat.ltb_spec (S m) page) as [Hlim|Hlim].
  { exists all_reviews, w, []. rewrite app_nil_r. split; [done|]. split; [done|].
    simpl. lia. }
  rewrite logged_eq. destruct (get_product_reviews page w) as [[data|] w1]; cbn [fst snd].
  2: { exists all_reviews, w1, [page]. split; [done|]. split; [done|]. simpl. lia. }
  destruct (default [] (rd_reviews data)) as [|review reviews].
  { exists all_reviews, w1, [page]. split; [done|]. split; [done|]. simpl. lia. }
  destruct (_ <=? _)%Z.
  { eexists _, w1, [page]. split; [done|]. split; [done|]. simpl. lia. }
  destruct (IH (S page) (all_reviews ++ review :: reviews)%list w1 (log ++ [page])%list)
    as (result & w' & new & Hloop & Hnew & Hlen); [lia..|].
  exists result, w', (page :: new). rewrite Hloop, <- app_assoc.
  split; [done|]. split; [simpl; by rewrite <- Hnew|]. simpl. lia.
Qed.

(** More fuel does not change a result. *)
Lemma get_all_reviews_loop_mono {V : Type} (get : nat -> V -> option ReviewsData * V)
    fuel fuel' max_pages page all_reviews (w : V) out :
  (fuel ≤ fuel')%nat ->
  get_all_reviews_loop get fuel max_pages page all_reviews w = Some out ->
  get_all_reviews_loop get fuel' max_pages page all_reviews w = Some out.
Proof.
  revert fuel' page all_reviews w.
  induction fuel as [|fuel IH]; intros fuel' page all_reviews w Hle; [done|].
  destruct fuel' as [|fuel']; [lia|]. cbn [get_all_reviews_loop].
  destruct (limit_reached max_pages page); [done|].
  destruct (get page w) as [[data|] w1]; [|done].
  destruct (default [] (rd_reviews data)) as [|review reviews]; [done|].
  destruct (_ <=? _)%Z; [done|]. apply IH. lia.
Qed.

(** The record changes nothing. *)
Lemma get_all_reviews_loop_unrecorded fuel max_pages page all_reviews (w : W)
    (log : list nat) :
  get_all_reviews_loop get_product_reviews fuel max_pages page all_reviews w
  = (fun out => (out.1, out.2.1))
      <$> get_all_reviews_loop (logged get_product_reviews) fuel max_pages page
            all_reviews (w, log).
Proof.
  revert page all_reviews w log.
  induction fuel as [|fuel IH]; intros page all_reviews w log; [done|].
  cbn [get_all_reviews_loop]. destruct (limit_reached max_pages page); [done|].
  rewrite logged_eq. destruct (get_product_reviews page w) as [[data|] w1]; [|done].
  cbn [fst snd].
  destruct (default [] (rd_reviews data)) as [|review reviews]; [done|].
  destruct (_ <=? _)%Z; [done|]. apply IH.
Qed.


(** A provider that always has a further page: every response holds a
    review and a number of pages above the page asked for. *)
Definition endless (get : nat -> W -> option ReviewsData * W) : Prop :=
  ∀ page w, ∃ data review reviews total_pages,
    (get page w).1 = Some data
    ∧ rd_reviews data = Some (review :: reviews)
    ∧ rd_total_pages data = Some total_pages
    ∧ (Z.of_nat page < total_pages)%Z.

(** X24: without a limit ([max_pages] is [None], the default, or 0) the loop
    ends only when the provider lets it: against a provider that reports a
    further page in every response, no number of turns suffices, so the
    call does not return. *)
Theorem get_all_reviews_endless max_pages :
  max_pages = None ∨ max_pages = Some 0%nat ->
  endless get_product_reviews ->
  ∀ fuel page all_reviews w,
    get_all_reviews_loop get_product_reviews fuel max_pages page all_reviews w = None.
Proof.
  intros Hmax Hend fuel.
  induction fuel as [|fuel IH]; intros page all_reviews w; [done|].
  cbn [get_all_reviews_loop].
  assert (Hlim : limit_reached max_pages page = false) by (by destruct Hmax as [->| ->]).
  rewrite Hlim.
  destruct (Hend page w) as (data & review & reviews & total_pages & Hget & Hr & Ht & Hlt).
  destruct (get_product_reviews page w) as [data' w1]. simpl in Hget. subst data'.
  rewrite Hr, Ht. simpl.
  destruct (Z.leb_spec total_pages (Z.of_nat page)); [lia|]. apply IH.
Qed.

End Pages.

(** A provider whose every page announces one more. *)
Definition endless_provider (page : nat) (w : unit) : option ReviewsData * unit :=
  (Some {| rd_reviews := Some [(∅ : ReviewDict)];
           rd_total_pages := Some (Z.of_nat page + 1)%Z |}, w).

Lemma get_all_reviews_endless_witness :
  get_all_reviews endless_provider 1000 None tt = None.
Proof.
  apply (get_all_reviews_endless endless_provider None); [by left|].
  intros page w. exists {| rd_reviews := Some [(∅ : ReviewDict)];
                          rd_total_pages := Some (Z.of_nat page + 1)%Z |}.
  exists ∅, [], (Z.of_nat page + 1)%Z. repeat split. lia.
Defined.

End ReviewPagesFacts.
